(** * RDMA byte-stream connection: a shallow embedding

    The development follows the RDMA connection of the Collage network
    layer (the translation unit that includes [rdmaConnection.h]): the
    connection state machine, the handshake, the credit based flow control,
    the double mapped ring buffers and the read/write data path.

    Integers are modelled as [Z] with the wrap-around of the C types written
    out.  Calls into the RDMA libraries and the operating system are not
    modelled as code: their outcomes are read from explicit environment
    values (a record of step outcomes for the handshake, one [Tick] per
    iteration of a polling loop), and the calls that release or publish
    something are logged in a trace carried by the connection. *)

From Stdlib Require Import ZArith List Bool Lia.
Import ListNotations.
Local Open Scope Z_scope.

(** ** Machine integers *)

(** [uint32_t], [uint16_t], [uint64_t] conversions. *)
Definition u32 (z : Z) : Z := z mod 2 ^ 32.
Definition u16 (z : Z) : Z := z mod 2 ^ 16.
Definition u64 (z : Z) : Z := z mod 2 ^ 64.

(** [int32_t] conversion (two's complement). *)
Definition i32 (z : Z) : Z := (z + 2 ^ 31) mod 2 ^ 32 - 2 ^ 31.

(** ** Protocol constants *)

Definition RDMA_PROTOCOL_MAGIC : Z := 0xC0.
Definition RDMA_PROTOCOL_VERSION : Z := 0x03.

(** [(( 2 << ( 28 - 1 )) - 1 )] and [(( 2 << ( 4 - 1 )) - 1 )]. *)
Definition MAX_BS : Z := Z.shiftl 2 (28 - 1) - 1.
Definition MAX_FC : Z := Z.shiftl 2 (4 - 1) - 1.

(** ** Immediate data

    [struct RDMAFCImm { uint32_t bytes_sent:28; uint32_t fcs_received:4; }]
    overlaid on a [uint32_t] through a union.  The first bit-field occupies
    the low-order bits of the word (the layout of the little-endian targets
    the code is built for); assigning to a bit-field keeps the low bits of
    the value. *)
Record RDMAFCImm := mkImm { bytes_sent : Z; fcs_received : Z }.

Definition imm_val (x : RDMAFCImm) : Z :=
  Z.lor (Z.land (bytes_sent x) (Z.ones 28))
        (Z.shiftl (Z.land (fcs_received x) (Z.ones 4)) 28).

Definition imm_of_val (v : Z) : RDMAFCImm :=
  mkImm (Z.land v (Z.ones 28)) (Z.land (Z.shiftr v 28) (Z.ones 4)).

(** [htonl] / [ntohl] on a little-endian host: the four bytes are swapped. *)
Definition bswap32 (v : Z) : Z :=
  Z.lor (Z.lor (Z.shiftl (Z.land v 0xFF) 24)
               (Z.shiftl (Z.land (Z.shiftr v 8) 0xFF) 16))
        (Z.lor (Z.shiftl (Z.land (Z.shiftr v 16) 0xFF) 8)
               (Z.land (Z.shiftr v 24) 0xFF)).
Definition htonl := bswap32.
Definition ntohl := bswap32.

(** ** Ring pointers *)

Module RingPtr.

(** The ring pointer class is declared in [rdmaConnection.h], which is not
    part of the sources; what the connection code calls on it is modelled
    from the spec's description of the pointer tracker. *)

Inductive Which := HEAD | MIDDLE | TAIL.

(** Modelled from the spec: three monotonically increasing 32-bit counters
    (HEAD, MIDDLE, TAIL) over a buffer of known size [len]. *)
Record t := mk { len : Z; head : Z; middle : Z; tail_ctr : Z }.

(** Modelled from the spec: a tracker over a buffer of [n] bytes starts with
    its three counters at 0 (the size is taken as a 32-bit value). *)
Definition clear (n : Z) : t := mk (u32 n) 0 0 0.

Definition counter (r : t) (w : Which) : Z :=
  match w with HEAD => head r | MIDDLE => middle r | TAIL => tail_ctr r end.

(** Modelled from the spec: the counters are taken modulo the buffer size
    to give a position inside the buffer. *)
Definition ptr (r : t) (w : Which) : Z := counter r w mod len r.

(** Modelled from the spec: the position of TAIL. *)
Definition tail (r : t) : Z := ptr r TAIL.

(** Modelled from the spec: a counter only moves forward, as a 32-bit
    value. *)
Definition incr (r : t) (w : Which) (n : Z) : t :=
  match w with
  | HEAD => mk (len r) (u32 (head r + n)) (middle r) (tail_ctr r)
  | MIDDLE => mk (len r) (head r) (u32 (middle r + n)) (tail_ctr r)
  | TAIL => mk (len r) (head r) (middle r) (u32 (tail_ctr r + n))
  end.

(** Modelled from the spec: [incr] on HEAD. *)
Definition incrHead (r : t) (n : Z) : t := incr r HEAD n.

(** Modelled from the spec: [incr] on TAIL. *)
Definition incrTail (r : t) (n : Z) : t := incr r TAIL n.

(** Modelled from the spec: the bytes between two counters, as the 32-bit
    difference of the counters. *)
Definition available2 (r : t) (a b : Which) : Z :=
  u32 (counter r a - counter r b).

(** Modelled from the spec: the bytes in use, HEAD - TAIL. *)
Definition available (r : t) : Z := available2 r HEAD TAIL.

(** Modelled from the spec: available space = N - (HEAD - TAIL). *)
Definition negAvailable (r : t) : Z := u32 (len r - available r).

(** Modelled from the spec: no byte is in use. *)
Definition isEmpty (r : t) : bool := available r =? 0.

(** Modelled from the spec: no space is available. *)
Definition isFull (r : t) : bool := available r =? len r.

End RingPtr.

(** ** Control messages *)

Record RDMASetupPayload := mkSetup { rbase : Z; rlen : Z; rkey : Z }.
Record RDMAFCPayload := mkFC { bytes_received : Z; writes_received : Z }.

(** [enum OpCode] with the payload union; [msg_length] is the length byte that
    precedes the payload. *)
Inductive Payload :=
| P_SETUP (s : RDMASetupPayload)
| P_FC (f : RDMAFCPayload)
| P_OTHER.
Record RDMAMessage := mkMsg { msg_length : Z; payload : Payload }.

Definition sizeof_RDMASetupPayload : Z := 24.
Definition sizeof_RDMAFCPayload : Z := 8.

(** Modelled from the spec: the private handshake data is declared in
    [rdmaConnection.h], which is not part of the sources.  The spec gives
    its layout: magic (u8), version (u8), depth (i32). *)
Record RDMAConnParamData := mkCpd { magic : Z; version : Z; depth : Z }.
Definition cpd_zero : RDMAConnParamData := mkCpd 0 0 0.

(** ** External calls that took effect, as logged in the trace *)

Inductive Call :=
| c_rdma_disconnect
| c_rdma_dereg_mr
| c_munmap
| c_free
| c_ibv_ack_cq_events (n : Z)
| c_delete_wcs
| c_rdma_destroy_ep
| c_ibv_destroy_cq
| c_ibv_destroy_comp_channel
| c_ibv_dealloc_pd
| c_rdma_destroy_event_channel
| c_rdma_freeaddrinfo
| c_close_notifier
| c_rdma_reject
| c_rdma_connect (magic version depth : Z)
| c_rdma_accept (magic version depth : Z)
| c_ibv_post_recv (count : Z)
| c_post_rdma_write (local_off len imm remote_addr : Z)
| c_post_message (m : RDMAMessage).

(** ** Ring buffer: one region of [size] bytes mapped twice *)

Module RingBuffer.

(** [map] holds the pages of the shared memory file, as a function from
    the page offset to the byte ([None] stands for [MAP_FAILED]); [mr]
    tells whether the region is registered. *)
Record t := mk { access : Z; size : Z; map : option (Z -> Z); mr : bool }.

(** [RingBuffer::RingBuffer( int access )] *)
Definition init (acc : Z) : t := mk acc 0 None false.

(** [RingBuffer::clear]: returns the buffer and the calls made. *)
Definition clear (b : t) : t * list Call :=
  (mk (access b) 0 None false,
   (if mr b then [c_rdma_dereg_mr] else []) ++
   (match map b with Some _ => [c_munmap] | None => [] end)).

(** Outcomes of the system calls of [resize], in program order. *)
Record ResizeEnv := mkResizeEnv
  { mkstemp_ok : bool; unlink_ok : bool; ftruncate_ok : bool;
    mmap_reserve_ok : bool; mmap1_ok : bool; mmap2_ok : bool;
    reg_mr_ok : bool }.

Definition store (m : Z -> Z) (i x : Z) : Z -> Z :=
  fun j => if j =? i then x else m j.

(** [RingBuffer::resize] (the POSIX branch).  The reservation of
    [_size << 1] bytes is replaced by two shared mappings of the same file
    at [_map] and [_map + _size]; the registration covers [_size] bytes
    (the build does not define WRAP). *)
Definition resize (e : ResizeEnv) (b : t) (sz : Z) : bool * t * list Call :=
  let '(b0, calls) := clear b in
  if sz =? 0 then (true, b0, calls) else
  let b1 := mk (access b0) sz None false in
  if negb (mkstemp_ok e) then (false, b1, calls) else
  if negb (unlink_ok e) then (false, b1, calls) else
  if negb (ftruncate_ok e) then (false, b1, calls) else
  if negb (mmap_reserve_ok e) then (false, b1, calls) else
  let pages := fun _ : Z => 0 in
  let b2 := mk (access b0) sz (Some pages) false in
  if negb (mmap1_ok e) then (false, b2, calls) else
  if negb (mmap2_ok e) then (false, b2, calls) else
  if negb (reg_mr_ok e) then (false, b2, calls) else
  (true, mk (access b0) sz (Some (store pages 0 0x45)) true, calls).

Definition pages (b : t) : Z -> Z :=
  match map b with Some m => m | None => fun _ => 0 end.

(** The page offset behind offset [v] of the address range
    [_map, _map + 2 * _size): the second half shows the same pages as the
    first. *)
Definition page_of (sz v : Z) : Z := if v <? sz then v else v - sz.

Definition virt (b : t) (v : Z) : Z := pages b (page_of (size b) v).

(** [memcpy( dst, base + off, n )]: one flat slice of the mapping. *)
Definition read (b : t) (off n : Z) : list Z :=
  List.map (fun i => virt b (off + Z.of_nat i)) (seq 0 (Z.to_nat n)).

(** The same bytes fetched one at a time with the offset wrapped. *)
Definition read_circular (b : t) (off n : Z) : list Z :=
  List.map (fun i => pages b ((off + Z.of_nat i) mod size b))
           (seq 0 (Z.to_nat n)).

(** [memcpy( base + off, src, n )]: a byte stored through either view
    lands in the page it aliases. *)
Fixpoint write_pages (sz : Z) (m : Z -> Z) (off : Z) (src : list Z)
    : Z -> Z :=
  match src with
  | [] => m
  | x :: r => write_pages sz (store m (page_of sz off) x) (off + 1) r
  end.

Definition write (b : t) (off : Z) (src : list Z) : t :=
  mk (access b) (size b)
     (match map b with
      | Some m => Some (write_pages (size b) m off src)
      | None => None
      end)
     (mr b).

End RingBuffer.

(** ** Message buffer pool *)

Module BufferPool.

(** The free ring of buffer indices is kept by a class of the header; the
    pool is described here by its size and by what it holds registered. *)
Record t := mk { buffer_size : Z; num_bufs : Z; buffer : bool; mr : bool }.

(** [BufferPool::BufferPool( size_t buffer_size )] *)
Definition init (bs : Z) : t := mk bs 0 false false.

(** [BufferPool::clear] *)
Definition clear (p : t) : t * list Call :=
  (mk (buffer_size p) 0 false false,
   (if mr p then [c_rdma_dereg_mr] else []) ++
   (if buffer p then [c_free] else [])).

Record ResizeEnv := mkResizeEnv { memalign_ok : bool; reg_mr_ok : bool }.

(** [BufferPool::resize] *)
Definition resize (e : ResizeEnv) (p : t) (n : Z) : bool * t * list Call :=
  let '(p0, calls) := clear p in
  if n =? 0 then (true, p0, calls) else
  let p1 := mk (buffer_size p0) n false false in
  if negb (memalign_ok e) then (false, p1, calls) else
  let p2 := mk (buffer_size p0) n true false in
  if negb (reg_mr_ok e) then (false, p2, calls) else
  (true, mk (buffer_size p0) n true true, calls).

End BufferPool.

(** ** The connection *)

Inductive State :=
| STATE_CLOSED
| STATE_CONNECTING
| STATE_LISTENING
| STATE_CONNECTED
| STATE_CLOSING.

Definition State_eqb (a b : State) : bool :=
  match a, b with
  | STATE_CLOSED, STATE_CLOSED
  | STATE_CONNECTING, STATE_CONNECTING
  | STATE_LISTENING, STATE_LISTENING
  | STATE_CONNECTED, STATE_CONNECTED
  | STATE_CLOSING, STATE_CLOSING => true
  | _, _ => false
  end.

(** The members of [RDMAConnection] that the protocol reads or writes.
    Handles owned by the connection are [true] when they are not [NULL]
    (not [-1] for descriptors).  [_pipe] is the content of the pipe behind
    [_pipe_fd]: the 8-byte counts written and not yet read.  [_trace] logs
    the external calls, oldest first.  Address strings and statistics
    counters are left out. *)
Record Conn := mkConn
  { _state : State;
    _port : Z;
    _established : bool;
    _depth : Z;
    _writes : Z;
    _fcs : Z;
    _wcredits : Z;
    _fcredits : Z;
    _completions : Z;
    _rai : bool;
    _cm : bool;
    _cm_id : bool;
    _new_cm_id : bool;
    _cc : bool;
    _cq : bool;
    _pd : bool;
    _wcs : bool;
    _notifier : bool;
    _pipe_fd : bool;
    _cpd : RDMAConnParamData;
    _msgbuf : BufferPool.t;
    _sourcebuf : RingBuffer.t;
    _sourceptr : RingPtr.t;
    _sinkbuf : RingBuffer.t;
    _sinkptr : RingPtr.t;
    _rptr : RingPtr.t;
    _rbase : Z;
    _rkey : Z;
    _pipe : list Z;
    _trace : list Call }.

(** Field updates. *)
Definition set_state (v : State) (c : Conn) : Conn :=
  mkConn v (_port c) (_established c) (_depth c) (_writes c) (_fcs c)
    (_wcredits c) (_fcredits c) (_completions c) (_rai c) (_cm c) (_cm_id c)
    (_new_cm_id c) (_cc c) (_cq c) (_pd c) (_wcs c) (_notifier c) (_pipe_fd
    c) (_cpd c) (_msgbuf c) (_sourcebuf c) (_sourceptr c) (_sinkbuf c)
    (_sinkptr c) (_rptr c) (_rbase c) (_rkey c) (_pipe c) (_trace c).
Definition set_port (v : Z) (c : Conn) : Conn :=
  mkConn (_state c) v (_established c) (_depth c) (_writes c) (_fcs c)
    (_wcredits c) (_fcredits c) (_completions c) (_rai c) (_cm c) (_cm_id c)
    (_new_cm_id c) (_cc c) (_cq c) (_pd c) (_wcs c) (_notifier c) (_pipe_fd
    c) (_cpd c) (_msgbuf c) (_sourcebuf c) (_sourceptr c) (_sinkbuf c)
    (_sinkptr c) (_rptr c) (_rbase c) (_rkey c) (_pipe c) (_trace c).
Definition set_established (v : bool) (c : Conn) : Conn :=
  mkConn (_state c) (_port c) v (_depth c) (_writes c) (_fcs c) (_wcredits
    c) (_fcredits c) (_completions c) (_rai c) (_cm c) (_cm_id c)
    (_new_cm_id c) (_cc c) (_cq c) (_pd c) (_wcs c) (_notifier c) (_pipe_fd
    c) (_cpd c) (_msgbuf c) (_sourcebuf c) (_sourceptr c) (_sinkbuf c)
    (_sinkptr c) (_rptr c) (_rbase c) (_rkey c) (_pipe c) (_trace c).
Definition set_depth (v : Z) (c : Conn) : Conn :=
  mkConn (_state c) (_port c) (_established c) v (_writes c) (_fcs c)
    (_wcredits c) (_fcredits c) (_completions c) (_rai c) (_cm c) (_cm_id c)
    (_new_cm_id c) (_cc c) (_cq c) (_pd c) (_wcs c) (_notifier c) (_pipe_fd
    c) (_cpd c) (_msgbuf c) (_sourcebuf c) (_sourceptr c) (_sinkbuf c)
    (_sinkptr c) (_rptr c) (_rbase c) (_rkey c) (_pipe c) (_trace c).
Definition set_writes (v : Z) (c : Conn) : Conn :=
  mkConn (_state c) (_port c) (_established c) (_depth c) v (_fcs c)
    (_wcredits c) (_fcredits c) (_completions c) (_rai c) (_cm c) (_cm_id c)
    (_new_cm_id c) (_cc c) (_cq c) (_pd c) (_wcs c) (_notifier c) (_pipe_fd
    c) (_cpd c) (_msgbuf c) (_sourcebuf c) (_sourceptr c) (_sinkbuf c)
    (_sinkptr c) (_rptr c) (_rbase c) (_rkey c) (_pipe c) (_trace c).
Definition set_fcs (v : Z) (c : Conn) : Conn :=
  mkConn (_state c) (_port c) (_established c) (_depth c) (_writes c) v
    (_wcredits c) (_fcredits c) (_completions c) (_rai c) (_cm c) (_cm_id c)
    (_new_cm_id c) (_cc c) (_cq c) (_pd c) (_wcs c) (_notifier c) (_pipe_fd
    c) (_cpd c) (_msgbuf c) (_sourcebuf c) (_sourceptr c) (_sinkbuf c)
    (_sinkptr c) (_rptr c) (_rbase c) (_rkey c) (_pipe c) (_trace c).
Definition set_wcredits (v : Z) (c : Conn) : Conn :=
  mkConn (_state c) (_port c) (_established c) (_depth c) (_writes c) (_fcs
    c) v (_fcredits c) (_completions c) (_rai c) (_cm c) (_cm_id c)
    (_new_cm_id c) (_cc c) (_cq c) (_pd c) (_wcs c) (_notifier c) (_pipe_fd
    c) (_cpd c) (_msgbuf c) (_sourcebuf c) (_sourceptr c) (_sinkbuf c)
    (_sinkptr c) (_rptr c) (_rbase c) (_rkey c) (_pipe c) (_trace c).
Definition set_fcredits (v : Z) (c : Conn) : Conn :=
  mkConn (_state c) (_port c) (_established c) (_depth c) (_writes c) (_fcs
    c) (_wcredits c) v (_completions c) (_rai c) (_cm c) (_cm_id c)
    (_new_cm_id c) (_cc c) (_cq c) (_pd c) (_wcs c) (_notifier c) (_pipe_fd
    c) (_cpd c) (_msgbuf c) (_sourcebuf c) (_sourceptr c) (_sinkbuf c)
    (_sinkptr c) (_rptr c) (_rbase c) (_rkey c) (_pipe c) (_trace c).
Definition set_completions (v : Z) (c : Conn) : Conn :=
  mkConn (_state c) (_port c) (_established c) (_depth c) (_writes c) (_fcs
    c) (_wcredits c) (_fcredits c) v (_rai c) (_cm c) (_cm_id c) (_new_cm_id
    c) (_cc c) (_cq c) (_pd c) (_wcs c) (_notifier c) (_pipe_fd c) (_cpd c)
    (_msgbuf c) (_sourcebuf c) (_sourceptr c) (_sinkbuf c) (_sinkptr c)
    (_rptr c) (_rbase c) (_rkey c) (_pipe c) (_trace c).
Definition set_rai (v : bool) (c : Conn) : Conn :=
  mkConn (_state c) (_port c) (_established c) (_depth c) (_writes c) (_fcs
    c) (_wcredits c) (_fcredits c) (_completions c) v (_cm c) (_cm_id c)
    (_new_cm_id c) (_cc c) (_cq c) (_pd c) (_wcs c) (_notifier c) (_pipe_fd
    c) (_cpd c) (_msgbuf c) (_sourcebuf c) (_sourceptr c) (_sinkbuf c)
    (_sinkptr c) (_rptr c) (_rbase c) (_rkey c) (_pipe c) (_trace c).
Definition set_cm (v : bool) (c : Conn) : Conn :=
  mkConn (_state c) (_port c) (_established c) (_depth c) (_writes c) (_fcs
    c) (_wcredits c) (_fcredits c) (_completions c) (_rai c) v (_cm_id c)
    (_new_cm_id c) (_cc c) (_cq c) (_pd c) (_wcs c) (_notifier c) (_pipe_fd
    c) (_cpd c) (_msgbuf c) (_sourcebuf c) (_sourceptr c) (_sinkbuf c)
    (_sinkptr c) (_rptr c) (_rbase c) (_rkey c) (_pipe c) (_trace c).
Definition set_cm_id (v : bool) (c : Conn) : Conn :=
  mkConn (_state c) (_port c) (_established c) (_depth c) (_writes c) (_fcs
    c) (_wcredits c) (_fcredits c) (_completions c) (_rai c) (_cm c) v
    (_new_cm_id c) (_cc c) (_cq c) (_pd c) (_wcs c) (_notifier c) (_pipe_fd
    c) (_cpd c) (_msgbuf c) (_sourcebuf c) (_sourceptr c) (_sinkbuf c)
    (_sinkptr c) (_rptr c) (_rbase c) (_rkey c) (_pipe c) (_trace c).
Definition set_new_cm_id (v : bool) (c : Conn) : Conn :=
  mkConn (_state c) (_port c) (_established c) (_depth c) (_writes c) (_fcs
    c) (_wcredits c) (_fcredits c) (_completions c) (_rai c) (_cm c) (_cm_id
    c) v (_cc c) (_cq c) (_pd c) (_wcs c) (_notifier c) (_pipe_fd c) (_cpd
    c) (_msgbuf c) (_sourcebuf c) (_sourceptr c) (_sinkbuf c) (_sinkptr c)
    (_rptr c) (_rbase c) (_rkey c) (_pipe c) (_trace c).
Definition set_cc (v : bool) (c : Conn) : Conn :=
  mkConn (_state c) (_port c) (_established c) (_depth c) (_writes c) (_fcs
    c) (_wcredits c) (_fcredits c) (_completions c) (_rai c) (_cm c) (_cm_id
    c) (_new_cm_id c) v (_cq c) (_pd c) (_wcs c) (_notifier c) (_pipe_fd c)
    (_cpd c) (_msgbuf c) (_sourcebuf c) (_sourceptr c) (_sinkbuf c)
    (_sinkptr c) (_rptr c) (_rbase c) (_rkey c) (_pipe c) (_trace c).
Definition set_cq (v : bool) (c : Conn) : Conn :=
  mkConn (_state c) (_port c) (_established c) (_depth c) (_writes c) (_fcs
    c) (_wcredits c) (_fcredits c) (_completions c) (_rai c) (_cm c) (_cm_id
    c) (_new_cm_id c) (_cc c) v (_pd c) (_wcs c) (_notifier c) (_pipe_fd c)
    (_cpd c) (_msgbuf c) (_sourcebuf c) (_sourceptr c) (_sinkbuf c)
    (_sinkptr c) (_rptr c) (_rbase c) (_rkey c) (_pipe c) (_trace c).
Definition set_pd (v : bool) (c : Conn) : Conn :=
  mkConn (_state c) (_port c) (_established c) (_depth c) (_writes c) (_fcs
    c) (_wcredits c) (_fcredits c) (_completions c) (_rai c) (_cm c) (_cm_id
    c) (_new_cm_id c) (_cc c) (_cq c) v (_wcs c) (_notifier c) (_pipe_fd c)
    (_cpd c) (_msgbuf c) (_sourcebuf c) (_sourceptr c) (_sinkbuf c)
    (_sinkptr c) (_rptr c) (_rbase c) (_rkey c) (_pipe c) (_trace c).
Definition set_wcs (v : bool) (c : Conn) : Conn :=
  mkConn (_state c) (_port c) (_established c) (_depth c) (_writes c) (_fcs
    c) (_wcredits c) (_fcredits c) (_completions c) (_rai c) (_cm c) (_cm_id
    c) (_new_cm_id c) (_cc c) (_cq c) (_pd c) v (_notifier c) (_pipe_fd c)
    (_cpd c) (_msgbuf c) (_sourcebuf c) (_sourceptr c) (_sinkbuf c)
    (_sinkptr c) (_rptr c) (_rbase c) (_rkey c) (_pipe c) (_trace c).
Definition set_notifier (v : bool) (c : Conn) : Conn :=
  mkConn (_state c) (_port c) (_established c) (_depth c) (_writes c) (_fcs
    c) (_wcredits c) (_fcredits c) (_completions c) (_rai c) (_cm c) (_cm_id
    c) (_new_cm_id c) (_cc c) (_cq c) (_pd c) (_wcs c) v (_pipe_fd c) (_cpd
    c) (_msgbuf c) (_sourcebuf c) (_sourceptr c) (_sinkbuf c) (_sinkptr c)
    (_rptr c) (_rbase c) (_rkey c) (_pipe c) (_trace c).
Definition set_pipe_fd (v : bool) (c : Conn) : Conn :=
  mkConn (_state c) (_port c) (_established c) (_depth c) (_writes c) (_fcs
    c) (_wcredits c) (_fcredits c) (_completions c) (_rai c) (_cm c) (_cm_id
    c) (_new_cm_id c) (_cc c) (_cq c) (_pd c) (_wcs c) (_notifier c) v (_cpd
    c) (_msgbuf c) (_sourcebuf c) (_sourceptr c) (_sinkbuf c) (_sinkptr c)
    (_rptr c) (_rbase c) (_rkey c) (_pipe c) (_trace c).
Definition set_cpd (v : RDMAConnParamData) (c : Conn) : Conn :=
  mkConn (_state c) (_port c) (_established c) (_depth c) (_writes c) (_fcs
    c) (_wcredits c) (_fcredits c) (_completions c) (_rai c) (_cm c) (_cm_id
    c) (_new_cm_id c) (_cc c) (_cq c) (_pd c) (_wcs c) (_notifier c)
    (_pipe_fd c) v (_msgbuf c) (_sourcebuf c) (_sourceptr c) (_sinkbuf c)
    (_sinkptr c) (_rptr c) (_rbase c) (_rkey c) (_pipe c) (_trace c).
Definition set_msgbuf (v : BufferPool.t) (c : Conn) : Conn :=
  mkConn (_state c) (_port c) (_established c) (_depth c) (_writes c) (_fcs
    c) (_wcredits c) (_fcredits c) (_completions c) (_rai c) (_cm c) (_cm_id
    c) (_new_cm_id c) (_cc c) (_cq c) (_pd c) (_wcs c) (_notifier c)
    (_pipe_fd c) (_cpd c) v (_sourcebuf c) (_sourceptr c) (_sinkbuf c)
    (_sinkptr c) (_rptr c) (_rbase c) (_rkey c) (_pipe c) (_trace c).
Definition set_sourcebuf (v : RingBuffer.t) (c : Conn) : Conn :=
  mkConn (_state c) (_port c) (_established c) (_depth c) (_writes c) (_fcs
    c) (_wcredits c) (_fcredits c) (_completions c) (_rai c) (_cm c) (_cm_id
    c) (_new_cm_id c) (_cc c) (_cq c) (_pd c) (_wcs c) (_notifier c)
    (_pipe_fd c) (_cpd c) (_msgbuf c) v (_sourceptr c) (_sinkbuf c)
    (_sinkptr c) (_rptr c) (_rbase c) (_rkey c) (_pipe c) (_trace c).
Definition set_sourceptr (v : RingPtr.t) (c : Conn) : Conn :=
  mkConn (_state c) (_port c) (_established c) (_depth c) (_writes c) (_fcs
    c) (_wcredits c) (_fcredits c) (_completions c) (_rai c) (_cm c) (_cm_id
    c) (_new_cm_id c) (_cc c) (_cq c) (_pd c) (_wcs c) (_notifier c)
    (_pipe_fd c) (_cpd c) (_msgbuf c) (_sourcebuf c) v (_sinkbuf c)
    (_sinkptr c) (_rptr c) (_rbase c) (_rkey c) (_pipe c) (_trace c).
Definition set_sinkbuf (v : RingBuffer.t) (c : Conn) : Conn :=
  mkConn (_state c) (_port c) (_established c) (_depth c) (_writes c) (_fcs
    c) (_wcredits c) (_fcredits c) (_completions c) (_rai c) (_cm c) (_cm_id
    c) (_new_cm_id c) (_cc c) (_cq c) (_pd c) (_wcs c) (_notifier c)
    (_pipe_fd c) (_cpd c) (_msgbuf c) (_sourcebuf c) (_sourceptr c) v
    (_sinkptr c) (_rptr c) (_rbase c) (_rkey c) (_pipe c) (_trace c).
Definition set_sinkptr (v : RingPtr.t) (c : Conn) : Conn :=
  mkConn (_state c) (_port c) (_established c) (_depth c) (_writes c) (_fcs
    c) (_wcredits c) (_fcredits c) (_completions c) (_rai c) (_cm c) (_cm_id
    c) (_new_cm_id c) (_cc c) (_cq c) (_pd c) (_wcs c) (_notifier c)
    (_pipe_fd c) (_cpd c) (_msgbuf c) (_sourcebuf c) (_sourceptr c)
    (_sinkbuf c) v (_rptr c) (_rbase c) (_rkey c) (_pipe c) (_trace c).
Definition set_rptr (v : RingPtr.t) (c : Conn) : Conn :=
  mkConn (_state c) (_port c) (_established c) (_depth c) (_writes c) (_fcs
    c) (_wcredits c) (_fcredits c) (_completions c) (_rai c) (_cm c) (_cm_id
    c) (_new_cm_id c) (_cc c) (_cq c) (_pd c) (_wcs c) (_notifier c)
    (_pipe_fd c) (_cpd c) (_msgbuf c) (_sourcebuf c) (_sourceptr c)
    (_sinkbuf c) (_sinkptr c) v (_rbase c) (_rkey c) (_pipe c) (_trace c).
Definition set_rbase (v : Z) (c : Conn) : Conn :=
  mkConn (_state c) (_port c) (_established c) (_depth c) (_writes c) (_fcs
    c) (_wcredits c) (_fcredits c) (_completions c) (_rai c) (_cm c) (_cm_id
    c) (_new_cm_id c) (_cc c) (_cq c) (_pd c) (_wcs c) (_notifier c)
    (_pipe_fd c) (_cpd c) (_msgbuf c) (_sourcebuf c) (_sourceptr c)
    (_sinkbuf c) (_sinkptr c) (_rptr c) v (_rkey c) (_pipe c) (_trace c).
Definition set_rkey (v : Z) (c : Conn) : Conn :=
  mkConn (_state c) (_port c) (_established c) (_depth c) (_writes c) (_fcs
    c) (_wcredits c) (_fcredits c) (_completions c) (_rai c) (_cm c) (_cm_id
    c) (_new_cm_id c) (_cc c) (_cq c) (_pd c) (_wcs c) (_notifier c)
    (_pipe_fd c) (_cpd c) (_msgbuf c) (_sourcebuf c) (_sourceptr c)
    (_sinkbuf c) (_sinkptr c) (_rptr c) (_rbase c) v (_pipe c) (_trace c).
Definition set_pipe (v : list Z) (c : Conn) : Conn :=
  mkConn (_state c) (_port c) (_established c) (_depth c) (_writes c) (_fcs
    c) (_wcredits c) (_fcredits c) (_completions c) (_rai c) (_cm c) (_cm_id
    c) (_new_cm_id c) (_cc c) (_cq c) (_pd c) (_wcs c) (_notifier c)
    (_pipe_fd c) (_cpd c) (_msgbuf c) (_sourcebuf c) (_sourceptr c)
    (_sinkbuf c) (_sinkptr c) (_rptr c) (_rbase c) (_rkey c) v (_trace c).
Definition set_trace (v : list Call) (c : Conn) : Conn :=
  mkConn (_state c) (_port c) (_established c) (_depth c) (_writes c) (_fcs
    c) (_wcredits c) (_fcredits c) (_completions c) (_rai c) (_cm c) (_cm_id
    c) (_new_cm_id c) (_cc c) (_cq c) (_pd c) (_wcs c) (_notifier c)
    (_pipe_fd c) (_cpd c) (_msgbuf c) (_sourcebuf c) (_sourceptr c)
    (_sinkbuf c) (_sinkptr c) (_rptr c) (_rbase c) (_rkey c) (_pipe c) v.

Definition log (calls : list Call) (c : Conn) : Conn :=
  set_trace (_trace c ++ calls) c.

Definition sizeof_RDMAMessage : Z := 32.
Definition IBV_ACCESS_LOCAL_WRITE : Z := 1.
Definition IBV_ACCESS_REMOTE_WRITE : Z := 2.

(** [RDMAConnection::RDMAConnection( )].  The state is initialised by the
    base class; [_finishAccept] asserts that a fresh connection is in
    [STATE_CLOSED]. *)
Definition RDMAConnection_new : Conn :=
  mkConn STATE_CLOSED 0 false 0 0 0 0 0 0
    false false false false false false false false false false
    cpd_zero
    (BufferPool.init sizeof_RDMAMessage)
    (RingBuffer.init 0) (RingPtr.clear 0)
    (RingBuffer.init (Z.lor IBV_ACCESS_LOCAL_WRITE IBV_ACCESS_REMOTE_WRITE))
    (RingPtr.clear 0)
    (RingPtr.clear 0) 0 0
    [] [].

(** [RDMAConnection::setState]; the state listeners are not modelled. *)
Definition setState (s : State) (c : Conn) : Conn :=
  if State_eqb s (_state c) then c else set_state s c.

(** ** Flow control protocol *)

(** [RDMAConnection::_initProtocol] *)
Definition _initProtocol (depth : Z) (c : Conn) : bool * Conn :=
  if depth <? 2 then (false, c) else
  let c := set_depth depth c in
  let c := set_writes 0 c in
  let c := set_fcs 0 c in
  let c := set_wcredits (Z.quot (_depth c) 2 - 2) c in
  let c := set_fcredits (Z.quot (_depth c) 2 + 2) c in
  (true, c).

(** [RDMAConnection::_needFC] *)
Definition _needFC (c : Conn) : bool := true.

(** [RDMAConnection::_incrAvailableBytes]; [ok] tells whether the eight
    bytes went into the pipe. *)
Definition _incrAvailableBytes (ok : bool) (b : Z) (c : Conn) : bool * Conn :=
  if ok then (true, set_pipe (_pipe c ++ [u64 b]) c) else (false, c).

(** [RDMAConnection::_recvRDMAWrite] *)
Definition _recvRDMAWrite (pipe_ok : bool) (imm_data : Z) (c : Conn) : Conn :=
  let x := imm_of_val (ntohl imm_data) in
  let c := set_sinkptr (RingPtr.incrHead (_sinkptr c) (bytes_sent x)) c in
  let c := snd (_incrAvailableBytes pipe_ok (bytes_sent x) c) in
  let c := set_fcredits (i32 (_fcredits c + fcs_received x)) c in
  set_writes (i32 (_writes c + 1)) c.

(** [RDMAConnection::_makeImm] *)
Definition _makeImm (b : Z) (c : Conn) : Z * Conn :=
  let f := Z.min MAX_FC (u16 (_fcs c)) in
  let c := set_fcs (i32 (_fcs c - f)) c in
  (htonl (imm_val (mkImm b f)), c).

(** [RDMAConnection::_postRDMAWrite]; [ok] is the outcome of
    [ibv_post_send]. *)
Definition _postRDMAWrite (ok : bool) (c : Conn) : bool * Conn :=
  let addr := RingPtr.ptr (_sourceptr c) RingPtr.MIDDLE in
  let length :=
    RingPtr.available2 (_sourceptr c) RingPtr.HEAD RingPtr.MIDDLE in
  let c := set_sourceptr (RingPtr.incr (_sourceptr c) RingPtr.MIDDLE length) c in
  let '(imm, c) := _makeImm length c in
  let remote_addr := u64 (_rbase c + RingPtr.ptr (_rptr c) RingPtr.HEAD) in
  let c := set_rptr (RingPtr.incrHead (_rptr c) length) c in
  let c := set_wcredits (i32 (_wcredits c - 1)) c in
  if ok then (true, log [c_post_rdma_write addr length imm remote_addr] c)
  else (false, c).

(** [RDMAConnection::_postMessage]; [ok] is the outcome of
    [rdma_post_send]. *)
Definition _postMessage (ok : bool) (m : RDMAMessage) (c : Conn) : bool * Conn :=
  let c := set_fcredits (i32 (_fcredits c - 1)) c in
  if ok then (true, log [c_post_message m] c) else (false, c).

(** [RDMAConnection::_recvFC] *)
Definition _recvFC (fc : RDMAFCPayload) (c : Conn) : Conn :=
  let c := set_rptr (RingPtr.incrTail (_rptr c) (bytes_received fc)) c in
  let c := set_wcredits (i32 (_wcredits c + writes_received fc)) c in
  set_fcs (i32 (_fcs c + 1)) c.

(** [RDMAConnection::_recvSetup] *)
Definition _recvSetup (s : RDMASetupPayload) (c : Conn) : Conn :=
  let c := set_rbase (rbase s) c in
  let c := set_rptr (RingPtr.clear (rlen s)) c in
  set_rkey (rkey s) c.

(** [RDMAConnection::_recvMessage] *)
Definition _recvMessage (m : RDMAMessage) (c : Conn) : Conn :=
  match payload m with
  | P_FC fc => if sizeof_RDMAFCPayload =? msg_length m then _recvFC fc c else c
  | P_SETUP s => if sizeof_RDMASetupPayload =? msg_length m then _recvSetup s c else c
  | P_OTHER => c
  end.

(** [RDMAConnection::_postFC] *)
Definition _postFC (ok : bool) (bytes_taken : Z) (c : Conn) : bool * Conn :=
  let wr := u32 (_writes c) in
  let m := mkMsg sizeof_RDMAFCPayload (P_FC (mkFC bytes_taken wr)) in
  let c := set_writes (i32 (_writes c - wr)) c in
  _postMessage ok m c.

(** [RDMAConnection::_postSetup]; [base] and [key] are the address of the
    sink mapping and the remote key of its registration. *)
Definition _postSetup (ok : bool) (base key : Z) (c : Conn) : bool * Conn :=
  let m := mkMsg sizeof_RDMASetupPayload
             (P_SETUP (mkSetup base (RingBuffer.size (_sinkbuf c)) key)) in
  _postMessage ok m c.

(** ** Events and completions *)

Inductive rdma_cm_event_type :=
| RDMA_CM_EVENT_ADDR_RESOLVED
| RDMA_CM_EVENT_ROUTE_RESOLVED
| RDMA_CM_EVENT_CONNECT_REQUEST
| RDMA_CM_EVENT_ESTABLISHED
| RDMA_CM_EVENT_DISCONNECTED
| RDMA_CM_EVENT_REJECTED
| RDMA_CM_EVENT_OTHER.

Definition cm_type_eqb (a b : rdma_cm_event_type) : bool :=
  match a, b with
  | RDMA_CM_EVENT_ADDR_RESOLVED, RDMA_CM_EVENT_ADDR_RESOLVED
  | RDMA_CM_EVENT_ROUTE_RESOLVED, RDMA_CM_EVENT_ROUTE_RESOLVED
  | RDMA_CM_EVENT_CONNECT_REQUEST, RDMA_CM_EVENT_CONNECT_REQUEST
  | RDMA_CM_EVENT_ESTABLISHED, RDMA_CM_EVENT_ESTABLISHED
  | RDMA_CM_EVENT_DISCONNECTED, RDMA_CM_EVENT_DISCONNECTED
  | RDMA_CM_EVENT_REJECTED, RDMA_CM_EVENT_REJECTED
  | RDMA_CM_EVENT_OTHER, RDMA_CM_EVENT_OTHER => true
  | _, _ => false
  end.

(** A connection manager event; [private_data] is [Some d] when the event
    carries at least [sizeof(RDMAConnParamData)] bytes of private data. *)
Record rdma_cm_event := mkCmEvent
  { event : rdma_cm_event_type; private_data : option RDMAConnParamData }.

Record eventset := mkEvents
  { BUF_EVENT : bool; CQ_EVENT : bool; CM_EVENT : bool }.

Inductive ibv_wc_status :=
| IBV_WC_SUCCESS
| IBV_WC_WR_FLUSH_ERR
| IBV_WC_OTHER_ERR.

(** [IBV_WC_OTHER recv] stands for the remaining opcodes, with the value of
    their [IBV_WC_RECV] bit. *)
Inductive ibv_wc_opcode :=
| IBV_WC_SEND
| IBV_WC_RDMA_WRITE
| IBV_WC_RECV
| IBV_WC_RECV_RDMA_WITH_IMM
| IBV_WC_OTHER (recv : bool).

Definition has_recv_bit (o : ibv_wc_opcode) : bool :=
  match o with
  | IBV_WC_RECV | IBV_WC_RECV_RDMA_WITH_IMM => true
  | IBV_WC_OTHER r => r
  | _ => false
  end.

(** A work completion; [wr_msg] is the message found in the buffer that
    [wr_id] points at when the completion is a receive. *)
Record ibv_wc := mkWc
  { status : ibv_wc_status; opcode : ibv_wc_opcode;
    imm_data : Z; wr_id : Z; wr_msg : RDMAMessage }.

(** What the outside world answers during one iteration of a polling loop.
    [t_polls] lists the successive results of [ibv_poll_cq] ([None] for a
    negative count; past the end of the list the queue is empty);
    [t_expired] tells that the timeout is finite and the deadline passed. *)
Record Tick := mkTick
  { t_epoll_ok : bool; t_cq_ready : bool; t_cm_ready : bool;
    t_cm_event : option rdma_cm_event;
    t_get_cq_event_ok : bool; t_req_notify_ok : bool;
    t_polls : list (option (list ibv_wc));
    t_post_recv_ok : bool;
    t_pipe_write_ok : bool; t_pipe_read_ok : bool;
    t_post_send_ok : bool;
    t_expired : bool }.

(** [RDMAConnection::_checkEvents] (the epoll branch).  The pipe end is
    reported readable exactly when the pipe holds data. *)
Definition _checkEvents (t : Tick) (c : Conn) : option eventset :=
  if negb (t_epoll_ok t) then None else
  Some (mkEvents
          (_pipe_fd c && match _pipe c with [] => false | _ => true end)
          (_cc c && t_cq_ready t)
          (_cm c && t_cm_ready t)).

Definition or_zero (d : option RDMAConnParamData) : RDMAConnParamData :=
  match d with Some x => x | None => cpd_zero end.

(** [RDMAConnection::_doCMEvent]; [ev] is what [rdma_get_cm_event]
    delivers, [None] when it fails. *)
Definition _doCMEvent (expected : rdma_cm_event_type)
    (ev : option rdma_cm_event) (c : Conn) : bool * Conn :=
  match ev with
  | None => (false, c)
  | Some e =>
    let ok := cm_type_eqb (event e) expected in
    let c := if ok && cm_type_eqb RDMA_CM_EVENT_DISCONNECTED (event e)
             then set_established false c else c in
    let c := if ok && cm_type_eqb RDMA_CM_EVENT_ESTABLISHED (event e)
             then set_cpd (or_zero (private_data e)) (set_established true c)
             else c in
    let c := if ok && cm_type_eqb RDMA_CM_EVENT_CONNECT_REQUEST (event e)
             then set_cpd (or_zero (private_data e)) (set_new_cm_id true c)
             else c in
    (ok, c)
  end.

Definition no_events : eventset := mkEvents false false false.

(** [RDMAConnection::_checkDisconnected] *)
Definition _checkDisconnected (t : Tick) (c : Conn) : bool * eventset * Conn :=
  match _checkEvents t c with
  | None => (false, no_events, c)
  | Some events =>
    if CM_EVENT events then
      let '(ok, c) := _doCMEvent RDMA_CM_EVENT_DISCONNECTED (t_cm_event t) c in
      (ok, events, c)
    else (true, events, c)
  end.

(** [RDMAConnection::_getAvailableBytes] (the pipe branch): every pending
    count is read and added up; a failing [read] or [poll] yields 0. *)
Definition _getAvailableBytes (ok : bool) (c : Conn) : Z * Conn :=
  if ok then (u64 (fold_left Z.add (_pipe c) 0), set_pipe [] c)
  else (0, c).

(** [RDMAConnection::_rearmCQ] *)
Definition _rearmCQ (t : Tick) (c : Conn) : bool * Conn :=
  if negb (t_get_cq_event_ok t) then (false, c) else
  let c := set_completions (u32 (_completions c + 1)) c in
  let full := 2 ^ 32 - 1 =? _completions c in
  let c := log (if full then [c_ibv_ack_cq_events (_completions c)] else []) c in
  let c := set_completions (if full then 0 else _completions c) c in
  if negb (t_req_notify_ok t) then (false, c) else (true, c).

(** [RDMAConnection::_postReceives] *)
Definition _postReceives (ok : bool) (count : Z) (c : Conn) : bool * Conn :=
  if ok then (true, log [c_ibv_post_recv count] c) else (false, c).

(** The body of the [for] loop of [_checkCQ] over one batch of completions:
    [None] when a completion carries a fatal status, otherwise the number of
    receives to post again. *)
Fixpoint _checkCQ_batch (t : Tick) (wcs : list ibv_wc) (num_recvs : Z)
    (c : Conn) : option Z * Conn :=
  match wcs with
  | [] => (Some num_recvs, c)
  | wc :: rest =>
    match status wc with
    | IBV_WC_WR_FLUSH_ERR => _checkCQ_batch t rest num_recvs c
    | IBV_WC_OTHER_ERR => (None, c)
    | IBV_WC_SUCCESS =>
      let c :=
        match opcode wc with
        | IBV_WC_RECV_RDMA_WITH_IMM =>
            _recvRDMAWrite (t_pipe_write_ok t) (imm_data wc) c
        | IBV_WC_RECV => _recvMessage (wr_msg wc) c
        | IBV_WC_SEND => c
        | IBV_WC_RDMA_WRITE =>
            set_sourceptr (RingPtr.incrTail (_sourceptr c) (u32 (wr_id wc))) c
        | IBV_WC_OTHER _ => c
        end in
      _checkCQ_batch t rest
        (if has_recv_bit (opcode wc) then u32 (num_recvs + 1) else num_recvs) c
    end
  end.

(** The [repoll] loop of [_checkCQ]. *)
Fixpoint _checkCQ_repoll (t : Tick) (drain : bool)
    (polls : list (option (list ibv_wc))) (c : Conn) : bool * Conn :=
  match polls with
  | [] => (true, c)
  | None :: _ => (false, c)
  | Some wcs :: rest =>
    match _checkCQ_batch t wcs 0 c with
    | (None, c) => (false, c)
    | (Some num_recvs, c) =>
      let '(posted, c) :=
        if 0 <? num_recvs then _postReceives (t_post_recv_ok t) num_recvs c
        else (true, c) in
      if negb posted then (false, c) else
      if drain && match wcs with [] => false | _ => true end
      then _checkCQ_repoll t drain rest c
      else (true, c)
    end
  end.

(** [RDMAConnection::_checkCQ] *)
Definition _checkCQ (drain : bool) (t : Tick) (c : Conn) : bool * Conn :=
  if negb (_cq c) then (true, c) else _checkCQ_repoll t drain (t_polls t) c.

(** [RDMAConnection::_waitForCMEvent]: one [Tick] per turn of the [retry]
    loop; [None] when the loop is still spinning after the last tick. *)
Fixpoint _waitForCMEvent (expected : rdma_cm_event_type) (ticks : list Tick)
    (c : Conn) : option (bool * Conn) :=
  match ticks with
  | [] => None
  | t :: rest =>
    match _checkEvents t c with
    | None => Some (false, c)
    | Some events =>
      let '(done, c) :=
        if CM_EVENT events then _doCMEvent expected (t_cm_event t) c
        else (false, c) in
      if CM_EVENT events && negb done then Some (false, c) else
      if done then Some (true, c) else
      if t_expired t then Some (false, c) else
      _waitForCMEvent expected rest c
    end
  end.

(** [RDMAConnection::_waitRecvSetup] *)
Fixpoint _waitRecvSetup (ticks : list Tick) (c : Conn) : option (bool * Conn) :=
  match ticks with
  | [] => None
  | t :: rest =>
    let '(ok, _, c) := _checkDisconnected t c in
    if negb ok then Some (false, c) else
    if negb (_established c) then Some (false, c) else
    let '(ok, c) := _checkCQ true t c in
    if negb ok then Some (false, c) else
    if _rkey c =? 0 then
      if t_expired t then Some (false, c) else _waitRecvSetup rest c
    else Some (true, c)
  end.

(** ** Teardown *)

(** [RDMAConnection::_cleanup] (the POSIX branch): what is held is given
    back, then the member is reset. *)
Definition _cleanup (c : Conn) : Conn :=
  let '(b, calls) := RingBuffer.clear (_sourcebuf c) in
  let c := log calls (set_sourcebuf b c) in
  let '(b, calls) := RingBuffer.clear (_sinkbuf c) in
  let c := log calls (set_sinkbuf b c) in
  let '(p, calls) := BufferPool.clear (_msgbuf c) in
  let c := log calls (set_msgbuf p c) in
  let c := log (if 0 <? _completions c
                then [c_ibv_ack_cq_events (_completions c)] else []) c in
  let c := set_completions (if 0 <? _completions c then 0 else _completions c) c in
  let c := log (if _wcs c then [c_delete_wcs] else []) c in
  let c := set_wcs false c in
  let c := log (if _cm_id c then [c_rdma_destroy_ep] else []) c in
  let c := set_cm_id false c in
  let c := log (if _cq c then [c_ibv_destroy_cq] else []) c in
  let c := set_cq false c in
  let c := log (if _cc c then [c_ibv_destroy_comp_channel] else []) c in
  let c := set_cc false c in
  let c := log (if _pd c then [c_ibv_dealloc_pd] else []) c in
  let c := set_pd false c in
  let c := log (if _cm c then [c_rdma_destroy_event_channel] else []) c in
  let c := set_cm false c in
  let c := log (if _rai c then [c_rdma_freeaddrinfo] else []) c in
  let c := set_rai false c in
  let c := set_rptr (RingPtr.clear 0) c in
  let c := set_rkey 0 (set_rbase 0 c) in
  let c := log (if _notifier c then [c_close_notifier] else []) c in
  set_notifier false c.

(** [RDMAConnection::_close] *)
Definition _close (c : Conn) : Conn :=
  if State_eqb STATE_CLOSED (_state c) then c else
  let c := setState STATE_CLOSING c in
  let c := log (if _established c then [c_rdma_disconnect] else []) c in
  let c := setState STATE_CLOSED c in
  _cleanup c.

(** Modelled from the spec: the public [close()] is declared in
    [rdmaConnection.h], which is not part of the sources.  The spec has all
    teardown go through one path guarded by the state: [close()] is the
    call of [_close()]. *)
Definition close (c : Conn) : Conn := _close c.

(** ** Data path *)

(** [RDMAConnection::_drain]: the count, the bytes copied out and the new
    state. *)
Definition _drain (bytes : Z) (c : Conn) : Z * list Z * Conn :=
  let b := Z.min bytes (RingPtr.available (_sinkptr c)) in
  let data := RingBuffer.read (_sinkbuf c) (RingPtr.tail (_sinkptr c)) b in
  (b, data, set_sinkptr (RingPtr.incrTail (_sinkptr c) b) c).

(** [RDMAConnection::_fill] (WRAP is not defined) *)
Definition _fill (buffer : list Z) (bytes : Z) (c : Conn) : Z * Conn :=
  let b := Z.min bytes (Z.min (RingPtr.negAvailable (_sourceptr c))
                              (RingPtr.negAvailable (_rptr c))) in
  let b := Z.min b (u32 (RingBuffer.size (_sourcebuf c) -
                         RingPtr.ptr (_sourceptr c) RingPtr.HEAD)) in
  let c := set_sourcebuf
             (RingBuffer.write (_sourcebuf c)
                (RingPtr.ptr (_sourceptr c) RingPtr.HEAD)
                (firstn (Z.to_nat b) buffer)) c in
  (b, set_sourceptr (RingPtr.incrHead (_sourceptr c) b) c).

(** The head of the [retry] loop of [readSync]: the disconnect check, the
    rearming of the completion channel and the poll of the completion
    queue.  The boolean is [false] when one of them jumps to [err]. *)
Definition readSync_poll (t : Tick) (c : Conn) : bool * eventset * Conn :=
  let '(ok, events, c) := _checkDisconnected t c in
  if negb ok then (false, events, c) else
  let '(ok, c) := if CQ_EVENT events then _rearmCQ t c else (true, c) in
  if negb ok then (false, events, c) else
  let '(ok, c) := _checkCQ (CQ_EVENT events) t c in
  (ok, events, c).

(** The [retry] loop of [readSync].  [extra_event] and [available_bytes]
    are the locals that survive a [goto retry].  The result is the value
    returned, the bytes stored in the caller's buffer and the connection;
    [None] when the loop is still spinning after the last tick. *)
Fixpoint readSync_retry (ticks : list Tick) (bytes : Z) (block : bool)
    (extra_event : bool) (available_bytes : Z) (c : Conn)
    : option (Z * list Z * Conn) :=
  match ticks with
  | [] => None
  | t :: rest =>
    let err c := Some (-1, [], close c) in
    let '(ok, events, c) := readSync_poll t c in
    if negb ok then err c else
    if _established c && _needFC c && (0 =? _fcredits c) then
      if t_expired t then err c
      else readSync_retry rest bytes block extra_event available_bytes c
    else
    if _established c && negb (BUF_EVENT events) then
      if extra_event && negb block then Some (0, [], c)
      else readSync_retry rest bytes block true available_bytes c
    else
    let '(available_bytes, c) :=
      if BUF_EVENT events then _getAvailableBytes (t_pipe_read_ok t) c
      else (available_bytes, c) in
    if BUF_EVENT events && (0 =? available_bytes) then err c else
    let '(bytes_taken, data, c) := _drain (u32 bytes) c in
    if 0 =? bytes_taken then
      if RingPtr.isEmpty (_sinkptr c) && negb (_established c) then err c else
      if t_expired t then err c
      else readSync_retry rest bytes block extra_event available_bytes c
    else
    let c := if bytes_taken <? available_bytes
             then snd (_incrAvailableBytes (t_pipe_write_ok t)
                         (available_bytes - bytes_taken) c)
             else c in
    let c := if _established c && _needFC c
             then snd (_postFC (t_post_send_ok t) bytes_taken c)
             else c in
    Some (bytes_taken, data, c)
  end.

(** [RDMAConnection::readSync] *)
Definition readSync (ticks : list Tick) (bytes : Z) (block : bool) (c : Conn)
    : option (Z * list Z * Conn) :=
  if negb (State_eqb STATE_CONNECTED (_state c)) then Some (-1, [], close c)
  else readSync_retry ticks bytes block false 0 c.

(** The [retry] loop of [write]. *)
Fixpoint write_retry (ticks : list Tick) (buffer : list Z) (can_put : Z)
    (c : Conn) : option (Z * Conn) :=
  match ticks with
  | [] => None
  | t :: rest =>
    let err c := Some (-1, c) in
    let '(ok, _, c) := _checkDisconnected t c in
    if negb ok then err c else
    if negb (_established c) then err c else
    let '(ok, c) := _checkCQ false t c in
    if negb ok then err c else
    if 0 =? _wcredits c then
      if t_expired t then err c else write_retry rest buffer can_put c
    else
    let '(bytes_put, c) := _fill buffer can_put c in
    if 0 =? bytes_put then
      if t_expired t then err c else write_retry rest buffer can_put c
    else
    let '(ok, c) := _postRDMAWrite (t_post_send_ok t) c in
    if negb ok then err c else
    Some (bytes_put, c)
  end.

(** [RDMAConnection::write] *)
Definition write (ticks : list Tick) (buffer : list Z) (bytes : Z) (c : Conn)
    : option (Z * Conn) :=
  let can_put := u32 (Z.min bytes MAX_BS) in
  if negb (State_eqb STATE_CONNECTED (_state c)) then Some (-1, c)
  else write_retry ticks buffer can_put c.

(** ** Handshake *)

(** Outcomes of the library calls made while a connection is set up, the
    configured attributes, and the ticks of the waiting loops. *)
Record Env := mkEnv
  { IATTR_RDMA_SEND_QUEUE_DEPTH : Z;
    IATTR_RDMA_RING_BUFFER_SIZE_MB : Z;
    e_hostname_empty : bool; e_getaddrinfo_ok : bool;
    e_epoll_create_ok : bool;
    e_create_event_channel_ok : bool; e_cm_epoll_ctl_ok : bool;
    e_create_id_ok : bool; e_migrate_id_ok : bool;
    e_resolve_addr_ok : bool; e_addr_ticks : list Tick;
    e_alloc_pd_ok : bool; e_create_comp_channel_ok : bool;
    e_cc_epoll_ctl_ok : bool; e_create_cq_ok : bool; e_req_notify_ok : bool;
    e_create_qp_ok : bool;
    e_pipe_ok : bool; e_pipe_epoll_ctl_ok : bool;
    e_source_resize : RingBuffer.ResizeEnv;
    e_sink_resize : RingBuffer.ResizeEnv;
    e_msg_resize : BufferPool.ResizeEnv;
    e_ib_route : bool; e_set_option_ok : bool;
    e_resolve_route_ok : bool; e_route_ticks : list Tick;
    e_post_recv_ok : bool;
    e_connect_ok : bool; e_accept_ok : bool; e_reject_ok : bool;
    e_established_ticks : list Tick;
    e_post_setup_ok : bool; e_sink_base : Z; e_sink_rkey : Z;
    e_setup_ticks : list Tick }.

(** A step of a setup sequence: [None] when a waiting loop never ends,
    otherwise the boolean the C++ function returns. *)
Definition Step := Conn -> option (bool * Conn).

Definition lift (f : Conn -> bool * Conn) : Step := fun c => Some (f c).

(** [if( !s( )) goto err; k] *)
Definition and_then (s k : Step) : Step :=
  fun c =>
    match s c with
    | None => None
    | Some (true, c') => k c'
    | Some (false, c') => Some (false, c')
    end.
Notation "s ;;; k" := (and_then s k) (at level 61, right associativity).

Definition succeed : Step := fun c => Some (true, c).

(** [RDMAConnection::_lookupAddress] *)
Definition _lookupAddress (e : Env) (c : Conn) : bool * Conn :=
  if e_hostname_empty e then (true, c) else
  if e_getaddrinfo_ok e then (true, set_rai true c) else (false, c).

(** [RDMAConnection::_createNotifier] (the epoll branch) *)
Definition _createNotifier (e : Env) (c : Conn) : bool * Conn :=
  if e_epoll_create_ok e then (true, set_notifier true c) else (false, c).

(** [RDMAConnection::_createEventChannel] *)
Definition _createEventChannel (e : Env) (c : Conn) : bool * Conn :=
  if negb (e_create_event_channel_ok e) then (false, c) else
  let c := set_cm true c in
  if e_cm_epoll_ctl_ok e then (true, c) else (false, c).

(** [RDMAConnection::_createId] *)
Definition _createId (e : Env) (c : Conn) : bool * Conn :=
  if e_create_id_ok e then (true, set_cm_id true c) else (false, c).

(** [RDMAConnection::_migrateId] *)
Definition _migrateId (e : Env) (c : Conn) : bool * Conn :=
  (e_migrate_id_ok e, c).

(** [RDMAConnection::_resolveAddress] *)
Definition _resolveAddress (e : Env) : Step :=
  fun c =>
    if negb (e_resolve_addr_ok e) then Some (false, c)
    else _waitForCMEvent RDMA_CM_EVENT_ADDR_RESOLVED (e_addr_ticks e) c.

(** [RDMAConnection::_initVerbs] (the epoll branch) *)
Definition _initVerbs (e : Env) (c : Conn) : bool * Conn :=
  if negb (e_alloc_pd_ok e) then (false, c) else
  let c := set_pd true c in
  if negb (e_create_comp_channel_ok e) then (false, c) else
  let c := set_cc true c in
  if negb (e_cc_epoll_ctl_ok e) then (false, c) else
  if negb (e_create_cq_ok e) then (false, c) else
  let c := set_cq true c in
  if negb (e_req_notify_ok e) then (false, c) else
  (true, set_wcs true c).

(** [RDMAConnection::_createQP] *)
Definition _createQP (e : Env) (c : Conn) : bool * Conn :=
  (e_create_qp_ok e, c).

(** [RDMAConnection::_createBytesAvailableFD] *)
Definition _createBytesAvailableFD (e : Env) (c : Conn) : bool * Conn :=
  if negb (e_pipe_ok e) then (false, c) else
  let c := set_pipe [] (set_pipe_fd true c) in
  if e_pipe_epoll_ctl_ok e then (true, c) else (false, c).

(** [RDMAConnection::_initBuffers] *)
Definition _initBuffers (e : Env) (c : Conn) : bool * Conn :=
  let rbs := u64 (1024 * 1024 * IATTR_RDMA_RING_BUFFER_SIZE_MB e) in
  if rbs =? 0 then (false, c) else
  let '(ok, b, calls) := RingBuffer.resize (e_source_resize e) (_sourcebuf c) rbs in
  let c := log calls (set_sourcebuf b c) in
  if negb ok then (false, c) else
  let '(ok, b, calls) := RingBuffer.resize (e_sink_resize e) (_sinkbuf c) rbs in
  let c := log calls (set_sinkbuf b c) in
  if negb ok then (false, c) else
  let c := set_sourceptr (RingPtr.clear (RingBuffer.size (_sourcebuf c))) c in
  let c := set_sinkptr (RingPtr.clear (RingBuffer.size (_sinkbuf c))) c in
  let '(ok, p, calls) :=
    BufferPool.resize (e_msg_resize e) (_msgbuf c) (u32 (_depth c * 2)) in
  let c := log calls (set_msgbuf p c) in
  (ok, c).

(** [RDMAConnection::_resolveRoute] *)
Definition _resolveRoute (e : Env) : Step :=
  fun c =>
    if e_ib_route e then Some (e_set_option_ok e, c) else
    if negb (e_resolve_route_ok e) then Some (false, c)
    else _waitForCMEvent RDMA_CM_EVENT_ROUTE_RESOLVED (e_route_ticks e) c.

(** The private data a side sends: its own magic, version and depth. *)
Definition own_cpd (c : Conn) : RDMAConnParamData :=
  mkCpd RDMA_PROTOCOL_MAGIC RDMA_PROTOCOL_VERSION (_depth c).

(** [RDMAConnection::_connect] *)
Definition _connect (e : Env) : Step :=
  fun c =>
    let c := set_cpd (own_cpd c) c in
    if negb (e_connect_ok e) then Some (false, c) else
    let c := log [c_rdma_connect (magic (_cpd c)) (version (_cpd c))
                    (depth (_cpd c))] c in
    _waitForCMEvent RDMA_CM_EVENT_ESTABLISHED (e_established_ticks e) c.

(** [RDMAConnection::_accept] *)
Definition _accept (e : Env) : Step :=
  fun c =>
    let c := set_cpd (own_cpd c) c in
    if negb (e_accept_ok e) then Some (false, c) else
    let c := log [c_rdma_accept (magic (_cpd c)) (version (_cpd c))
                    (depth (_cpd c))] c in
    _waitForCMEvent RDMA_CM_EVENT_ESTABLISHED (e_established_ticks e) c.

(** [RDMAConnection::_reject] *)
Definition _reject (e : Env) (c : Conn) : bool * Conn :=
  if e_reject_ok e then (true, log [c_rdma_reject] c) else (false, c).

(** The test both sides apply to the private data of the peer. *)
Definition protocol_match (d : RDMAConnParamData) : bool :=
  negb (negb (RDMA_PROTOCOL_MAGIC =? magic d) ||
        negb (RDMA_PROTOCOL_VERSION =? version d)).

(** The steps of [connect] from [setState( STATE_CONNECTING )] up to the
    return of [_connect], that is, up to the ESTABLISHED event; a step that
    fails jumps to [err]. *)
Definition connect_setup (e : Env) : Step :=
  (fun c => let '(ok, c) := _lookupAddress e c in Some (ok && _rai c, c)) ;;;
  lift (_createNotifier e) ;;;
  lift (_createEventChannel e) ;;;
  lift (_createId e) ;;;
  _resolveAddress e ;;;
  lift (_initProtocol (IATTR_RDMA_SEND_QUEUE_DEPTH e)) ;;;
  lift (_initVerbs e) ;;;
  lift (_createQP e) ;;;
  lift (_createBytesAvailableFD e) ;;;
  lift (_initBuffers e) ;;;
  _resolveRoute e ;;;
  (fun c => Some (_postReceives (e_post_recv_ok e) (u32 (_depth c)) c)) ;;;
  _connect e.

(** The protocol test on the data of the peer and the rest of [connect]. *)
Definition connect_steps (e : Env) : Step :=
  connect_setup e ;;;
  (fun c => Some (protocol_match (_cpd c), c)) ;;;
  lift (_postSetup (e_post_setup_ok e) (e_sink_base e) (e_sink_rkey e)) ;;;
  _waitRecvSetup (e_setup_ticks e) ;;;
  (fun c => Some (true, setState STATE_CONNECTED c)).

(** [RDMAConnection::connect] *)
Definition connect (e : Env) (c : Conn) : option (bool * Conn) :=
  if negb (State_eqb STATE_CLOSED (_state c)) then Some (false, c) else
  if 0 =? _port c then Some (false, c) else
  let c := _cleanup c in
  let c := setState STATE_CONNECTING c in
  match connect_steps e c with
  | None => None
  | Some (true, c) => Some (true, c)
  | Some (false, c) => Some (false, close c)
  end.

(** The steps of [_finishAccept] whose failure jumps to [err_reject]. *)
Definition accept_steps_reject (e : Env) (cpd : RDMAConnParamData) : Step :=
  (fun c => Some (protocol_match cpd, c)) ;;;
  lift (_createNotifier e) ;;;
  lift (_createEventChannel e) ;;;
  lift (_migrateId e) ;;;
  lift (_initProtocol (depth cpd)) ;;;
  lift (_initVerbs e) ;;;
  lift (_createQP e) ;;;
  lift (_createBytesAvailableFD e) ;;;
  lift (_initBuffers e) ;;;
  (fun c => Some (_postReceives (e_post_recv_ok e) (u32 (_depth c)) c)).

(** The steps of [_finishAccept] whose failure jumps to [err]. *)
Definition accept_steps (e : Env) : Step :=
  _accept e ;;;
  _waitRecvSetup (e_setup_ticks e) ;;;
  lift (_postSetup (e_post_setup_ok e) (e_sink_base e) (e_sink_rkey e)).

(** [RDMAConnection::_finishAccept]; [cpd] is the private data of the
    connect request, held by the listening connection.  The address
    bookkeeping of [_updateInfo] is left out. *)
Definition _finishAccept (e : Env) (cpd : RDMAConnParamData) (c : Conn)
    : option (bool * Conn) :=
  let c := setState STATE_CONNECTING c in
  let c := set_cm_id true c in
  match accept_steps_reject e cpd c with
  | None => None
  | Some (false, c) => Some (false, close (snd (_reject e c)))
  | Some (true, c) =>
    match accept_steps e c with
    | None => None
    | Some (false, c) => Some (false, close c)
    | Some (true, c) => Some (true, setState STATE_CONNECTED c)
    end
  end.

(** [RDMAConnection::acceptSync]: the connection handed to the caller, if
    any, and the listening connection. *)
Definition acceptSync (ticks : list Tick) (e : Env) (c : Conn)
    : option (option Conn * Conn) :=
  if negb (State_eqb STATE_LISTENING (_state c))
  then Some (None, set_new_cm_id false c) else
  match _waitForCMEvent RDMA_CM_EVENT_CONNECT_REQUEST ticks c with
  | None => None
  | Some (false, c) => Some (None, set_new_cm_id false c)
  | Some (true, c) =>
    match _finishAccept e (_cpd c) RDMAConnection_new with
    | None => None
    | Some (true, n) => Some (Some n, set_new_cm_id false c)
    | Some (false, _) => Some (None, set_new_cm_id false c)
    end
  end.

(** Iterated [close( )]. *)
Fixpoint close_times (n : nat) (c : Conn) : Conn :=
  match n with
  | O => c
  | S k => close_times k (close c)
  end.

(** The handles and buffers [_cleanup] gives back are gone. *)
Definition released (c : Conn) : Prop :=
  _rai c = false /\ _cm c = false /\ _cm_id c = false /\ _cc c = false /\
  _cq c = false /\ _pd c = false /\ _wcs c = false /\ _notifier c = false /\
  RingBuffer.map (_sourcebuf c) = None /\ RingBuffer.mr (_sourcebuf c) = false /\
  RingBuffer.map (_sinkbuf c) = None /\ RingBuffer.mr (_sinkbuf c) = false /\
  BufferPool.buffer (_msgbuf c) = false /\ BufferPool.mr (_msgbuf c) = false.

(** The invariant the assertions of the credit code state. *)
Definition credits_ok (c : Conn) : Prop :=
  0 <= _wcredits c <= _depth c /\ 0 <= _fcredits c <= _depth c.

(** What the polling code never touches: the state, the depth, and the
    HEAD (as a 32-bit value) and MIDDLE counters of the source ring. *)
Definition ctl_frame (c c' : Conn) : Prop :=
  _state c' = _state c /\ _depth c' = _depth c /\
  u32 (RingPtr.head (_sourceptr c')) = u32 (RingPtr.head (_sourceptr c)) /\
  RingPtr.middle (_sourceptr c') = RingPtr.middle (_sourceptr c).

(** The private data and the depth are kept. *)
Definition cpd_frame (c c' : Conn) : Prop :=
  _cpd c' = _cpd c /\ _depth c' = _depth c.

(** A ring buffer and the pointers that walk it agree: the pages are
    mapped, the pointers wrap at the size of the buffer, and no more bytes
    are in use than the buffer holds. *)
Definition ring_ok (b : RingBuffer.t) (p : RingPtr.t) : Prop :=
  RingBuffer.map b <> None /\
  RingPtr.len p = RingBuffer.size b /\
  0 < RingBuffer.size b < 2 ^ 32 /\
  RingPtr.available p <= RingPtr.len p.

(** Everything a fill leaves alone. *)
Definition ctl_frame_but_head (c c' : Conn) : Prop :=
  _state c' = _state c /\ _depth c' = _depth c /\
  _established c' = _established c /\ _wcredits c' = _wcredits c /\
  _fcs c' = _fcs c /\ _trace c' = _trace c /\
  _rptr c' = _rptr c /\ _rbase c' = _rbase c /\
  RingPtr.middle (_sourceptr c') = RingPtr.middle (_sourceptr c).

(** ** Sample environments

    A run in which every library call succeeds: a tick with nothing to
    report, a tick that delivers one connection manager event, a tick that
    delivers one batch of completions, and the environment of a handshake
    with a depth of 16 and rings of 1 MiB in which the peer answers with the
    private data [peer] and announces a sink ring of 1 MiB. *)
Definition tick_idle : Tick :=
  mkTick true false false None true true [] true true true true false.

Definition tick_cm (ev : rdma_cm_event) : Tick :=
  mkTick true false true (Some ev) true true [] true true true true false.

Definition tick_cq (wcs : list ibv_wc) : Tick :=
  mkTick true true false None true true [Some wcs] true true true true false.

Definition resize_ok : RingBuffer.ResizeEnv :=
  RingBuffer.mkResizeEnv true true true true true true true.

Definition setup_wc : ibv_wc :=
  mkWc IBV_WC_SUCCESS IBV_WC_RECV 0 0
    (mkMsg sizeof_RDMASetupPayload (P_SETUP (mkSetup 4096 1048576 77))).

Definition sample_env (peer : option RDMAConnParamData) : Env :=
  mkEnv 16 1 false true true true true true true
    true [tick_idle; tick_cm (mkCmEvent RDMA_CM_EVENT_ADDR_RESOLVED None)]
    true true true true true true true true
    resize_ok resize_ok (BufferPool.mkResizeEnv true true)
    false true
    true [tick_cm (mkCmEvent RDMA_CM_EVENT_ROUTE_RESOLVED None)]
    true true true true
    [tick_idle; tick_cm (mkCmEvent RDMA_CM_EVENT_ESTABLISHED peer)]
    true 8192 99
    [tick_idle; tick_cq [setup_wc]].

(** A closed connection with a port to connect to. *)
Definition sample_conn : Conn := set_port 4242 RDMAConnection_new.

(** The value and the connection a call returns ([d] when it does not
    return). *)
Definition result_val {A : Type} (r : option (A * Conn)) : option A :=
  match r with Some (a, _) => Some a | None => None end.

Definition result_conn {A : Type} (r : option (A * Conn)) (d : Conn) : Conn :=
  match r with Some (_, c) => c | None => d end.

(** The connection [connect] returns when the peer answers with the right
    magic and version. *)
Definition sample_connected : Conn :=
  result_conn (connect (sample_env (Some (mkCpd 0xC0 0x03 16))) sample_conn)
    sample_conn.

(** The completion of an incoming RDMA write of [n] bytes. *)
Definition write_wc (n : Z) : ibv_wc :=
  mkWc IBV_WC_SUCCESS IBV_WC_RECV_RDMA_WITH_IMM (htonl (imm_val (mkImm n 0))) 0
    (mkMsg 0 P_OTHER).

(** A connection with rings of 8 bytes: the sink holds 4 bytes that start
    at offset 6 (page j holds j + 1), the source is empty with its head at
    offset 6. *)
Definition small_rings : Conn :=
  set_sinkptr (RingPtr.mk 8 10 10 6)
    (set_sinkbuf (RingBuffer.mk 3 8 (Some (fun j => j + 1)) true)
       (set_sourceptr (RingPtr.mk 8 6 6 6)
          (set_rptr (RingPtr.mk 8 0 0 0)
             (set_sourcebuf (RingBuffer.mk 0 8 (Some (fun _ => 0)) true)
                RDMAConnection_new)))).

(** ** Listening *)

(** Outcomes of [rdma_bind_addr] and [rdma_listen]. *)
Record ListenEnv := mkListenEnv { l_bind_ok : bool; l_listen_ok : bool }.

(** [RDMAConnection::_bindAddress] *)
Definition _bindAddress (l : ListenEnv) (c : Conn) : bool * Conn :=
  (l_bind_ok l, c).

(** [RDMAConnection::_listen] *)
Definition _listen (l : ListenEnv) (c : Conn) : bool * Conn :=
  (l_listen_ok l, c).

(** The steps of [listen] between [setState( STATE_CONNECTING )] and
    [return true]; a step that fails jumps to [err]. *)
Definition listen_steps (e : Env) (l : ListenEnv) : Step :=
  lift (_lookupAddress e) ;;;
  lift (_createNotifier e) ;;;
  lift (_createEventChannel e) ;;;
  lift (_createId e) ;;;
  lift (_bindAddress l) ;;;
  lift (_listen l) ;;;
  (fun c => Some (true, setState STATE_LISTENING c)).

(** [RDMAConnection::listen]; the address bookkeeping of [_updateInfo] is
    left out. *)
Definition listen (e : Env) (l : ListenEnv) (c : Conn) : option (bool * Conn) :=
  if negb (State_eqb STATE_CLOSED (_state c)) then Some (false, c) else
  let c := _cleanup c in
  let c := setState STATE_CONNECTING c in
  match listen_steps e l c with
  | None => None
  | Some (true, c) => Some (true, c)
  | Some (false, c) => Some (false, close c)
  end.

(** ** Relations and predicates used in the statements below *)

(** The state is kept. *)
Definition state_frame (c c' : Conn) : Prop := _state c' = _state c.

(** The depth is kept. *)
Definition depth_frame (c c' : Conn) : Prop := _depth c' = _depth c.

(** The pipe behind the bytes-available signal stays as open as it was. *)
Definition pipe_fd_frame (c c' : Conn) : Prop := _pipe_fd c' = _pipe_fd c.

(** A step that never changes the state. *)
Definition keeps_state (s : Step) : Prop :=
  forall (c : Conn) (r : bool) (c' : Conn),
    s c = Some (r, c') -> _state c' = _state c.

(** A step that leaves the state alone whenever it fails. *)
Definition fails_keep_state (s : Step) : Prop :=
  forall c c' : Conn, s c = Some (false, c') -> _state c' = _state c.

(** Completions flushed at teardown, and completions with a fatal status. *)
Definition is_flush (wc : ibv_wc) : bool :=
  match status wc with IBV_WC_WR_FLUSH_ERR => true | _ => false end.

Definition is_fatal (wc : ibv_wc) : bool :=
  match status wc with IBV_WC_OTHER_ERR => true | _ => false end.

(** A listening connection, as [listen] leaves it on the sample run. *)
Definition sample_listen_env : ListenEnv := mkListenEnv true true.

Definition sample_listener : Conn :=
  result_conn (listen (sample_env None) sample_listen_env RDMAConnection_new)
    RDMAConnection_new.

(** The environment of [sample_env] with a receive queue that refuses the
    work requests: the setup fails after the buffers are registered. *)
Definition sample_env_fail : Env :=
  mkEnv 16 1 false true true true true true true
    true [tick_idle; tick_cm (mkCmEvent RDMA_CM_EVENT_ADDR_RESOLVED None)]
    true true true true true true true true
    resize_ok resize_ok (BufferPool.mkResizeEnv true true)
    false true
    true [tick_cm (mkCmEvent RDMA_CM_EVENT_ROUTE_RESOLVED None)]
    false true true true
    [tick_idle; tick_cm (mkCmEvent RDMA_CM_EVENT_ESTABLISHED None)]
    true 8192 99
    [tick_idle; tick_cq [setup_wc]].

Definition established_frame (c c' : Conn) : Prop :=
  _established c' = _established c.

Definition rkey_frame (c c' : Conn) : Prop := _rkey c' = _rkey c.

(** A turn of a wait loop in which nothing happens: the event check works,
    the connection manager has nothing to report and the time is not up. *)
Definition idle_tick (c : Conn) (t : Tick) : Prop :=
  t_epoll_ok t = true /\ _cm c && t_cm_ready t = false /\ t_expired t = false.

(** The connection [acceptSync] hands out ([d] when it hands out none). *)
Definition accepted_conn (r : option (option Conn * Conn)) (d : Conn) : Conn :=
  match r with Some (Some n, _) => n | _ => d end.

Definition accepted (r : option (option Conn * Conn)) : bool :=
  match r with Some (Some _, _) => true | _ => false end.

(** The turns of a listener that is sent a connect request with the
    protocol's magic and version and a depth of 16. *)
Definition sample_request_ticks : list Tick :=
  [tick_idle;
   tick_cm (mkCmEvent RDMA_CM_EVENT_CONNECT_REQUEST (Some (mkCpd 0xC0 0x03 16)))].

(** A turn in which nothing is reported and [ibv_post_send] fails. *)
Definition tick_send_fails : Tick :=
  mkTick true false false None true true [] true true true false false.

(** A completion that counts as a receive: it succeeded and its opcode has
    the [IBV_WC_RECV] bit. *)
Definition is_recv (wc : ibv_wc) : bool :=
  match status wc with
  | IBV_WC_SUCCESS => has_recv_bit (opcode wc)
  | _ => false
  end.

(** The completion events acknowledged by the calls of a trace. *)
Definition ack_of (k : Call) : Z :=
  match k with c_ibv_ack_cq_events n => n | _ => 0 end.

Definition acked (tr : list Call) : Z :=
  fold_right (fun k s => ack_of k + s) 0 tr.

(** A turn of a polling loop in which the outside world is silent: the
    event check works, neither channel is readable and the completion queue
    is empty.  Whether the timeout has expired is left open. *)
Definition quiet_tick (t : Tick) : Prop :=
  t_epoll_ok t = true /\ t_cm_ready t = false /\ t_cq_ready t = false /\
  t_polls t = [].

(** A completion that delivers a flow control message. *)
Definition is_fc (wc : ibv_wc) : bool :=
  match status wc, opcode wc, payload (wr_msg wc) with
  | IBV_WC_SUCCESS, IBV_WC_RECV, P_FC _ => true
  | _, _, _ => false
  end.

(** No poll of the turn yields a flow control message. *)
Definition no_fc_tick (t : Tick) : Prop :=
  Forall (fun p => match p with
                   | Some wcs => Forall (fun wc => is_fc wc = false) wcs
                   | None => True
                   end) (t_polls t).

(** A quiet turn after the timeout has expired. *)
Definition tick_late : Tick :=
  mkTick true false false None true true [] true true true true true.

(** The bytes announced on the pipe and not yet read from it. *)
Definition bytes_signalled (c : Conn) : Z := fold_left Z.add (_pipe c) 0.

(** The byte counter is in step with the sink ring: the connection holds
    the pipe, and what the pipe announces is what the ring holds (as
    32-bit values). *)
Definition counter_ok (c : Conn) : Prop :=
  _pipe_fd c = true /\
  u32 (bytes_signalled c) = RingPtr.available (_sinkptr c).

(** The pipe and the sink pointers are kept. *)
Definition sink_frame (c c' : Conn) : Prop :=
  _pipe_fd c' = _pipe_fd c /\ _pipe c' = _pipe c /\ _sinkptr c' = _sinkptr c.



(** No library call is made and the buffers are kept. *)
Definition silent_frame (c c' : Conn) : Prop :=
  _trace c' = _trace c /\ _sourcebuf c' = _sourcebuf c /\
  _sinkbuf c' = _sinkbuf c /\ _msgbuf c' = _msgbuf c.



(** The sample connection after an RDMA write of 5 bytes came in. *)
Definition sample_received : Conn :=
  snd (_checkCQ false (tick_cq [write_wc 5]) sample_connected).

(** A turn that delivers a connection manager event and expires nothing;
    the peer rejecting is an event no connected side expects. *)
Definition tick_rejected : Tick :=
  tick_cm (mkCmEvent RDMA_CM_EVENT_REJECTED None).

(** The handles, the count of pending completion events and the buffers are
    kept. *)
Definition kept (c c' : Conn) : Prop :=
  _rai c' = _rai c /\ _cm c' = _cm c /\ _cm_id c' = _cm_id c /\
  _cc c' = _cc c /\ _cq c' = _cq c /\ _pd c' = _pd c /\ _wcs c' = _wcs c /\
  _notifier c' = _notifier c /\ _completions c' = _completions c /\
  _sourcebuf c' = _sourcebuf c /\ _sinkbuf c' = _sinkbuf c /\
  _msgbuf c' = _msgbuf c.

(** Every handle and buffer of a connection is in place, and no completion
    event waits to be acknowledged. *)
Definition all_held (c : Conn) : Prop :=
  (_rai c = true /\ _cm c = true /\ _cm_id c = true /\ _notifier c = true) /\
  (_cc c = true /\ _cq c = true /\ _pd c = true /\ _wcs c = true /\
   (0 <? _completions c) = false) /\
  (RingBuffer.mr (_sourcebuf c) = true /\ RingBuffer.map (_sourcebuf c) <> None /\
   RingBuffer.mr (_sinkbuf c) = true /\ RingBuffer.map (_sinkbuf c) <> None /\
   BufferPool.mr (_msgbuf c) = true /\ BufferPool.buffer (_msgbuf c) = true).

(** The calls of a teardown that finds everything in place, in order. *)
Definition teardown_calls : list Call :=
  [c_rdma_disconnect;
   c_rdma_dereg_mr; c_munmap; c_rdma_dereg_mr; c_munmap; c_rdma_dereg_mr; c_free;
   c_delete_wcs; c_rdma_destroy_ep; c_ibv_destroy_cq;
   c_ibv_destroy_comp_channel; c_ibv_dealloc_pd; c_rdma_destroy_event_channel;
   c_rdma_freeaddrinfo; c_close_notifier].

(** The handles and the count of pending completion events are kept. *)
Definition handles_kept (c c' : Conn) : Prop :=
  _rai c' = _rai c /\ _cm c' = _cm c /\ _cm_id c' = _cm_id c /\
  _cc c' = _cc c /\ _cq c' = _cq c /\ _pd c' = _pd c /\ _wcs c' = _wcs c /\
  _notifier c' = _notifier c /\ _completions c' = _completions c.

(** * Properties *)

(** ** Bit-level facts *)

Lemma testbit_range (v : Z) (k : Z) (n : Z) :
  0 <= v < 2 ^ k -> k <= n -> Z.testbit v n = false.
Proof.
  intros Hv Hn.
  destruct (Z.eq_dec v 0) as [-> | Hne]; [apply Z.bits_0 |].
  apply Z.bits_above_log2; [lia |].
  assert (0 <= k) by (destruct (Z_lt_le_dec k 0); [rewrite Z.pow_neg_r in Hv; lia | lia]).
  assert (Z.log2 v < k) by (apply Z.log2_lt_pow2; lia). lia.
Qed.

Ltac bits_step :=
  match goal with
  | |- context [Z.testbit (Z.lor ?a ?b) ?m] => rewrite (Z.lor_spec a b m)
  | |- context [Z.testbit (Z.land ?a ?b) ?m] => rewrite (Z.land_spec a b m)
  | |- context [Z.testbit ?a ?m] => rewrite (Z.testbit_neg_r a m) by lia
  | |- context [Z.testbit (Z.shiftl ?a ?k) ?m] =>
      rewrite (Z.shiftl_spec a k m) by lia
  | |- context [Z.testbit (Z.shiftr ?a ?k) ?m] =>
      rewrite (Z.shiftr_spec a k m) by lia
  | |- context [Z.testbit (Z.ones ?k) ?m] =>
      first [ rewrite (Z.ones_spec_low k m) by lia
            | rewrite (Z.ones_spec_high k m) by lia ]
  | H : 0 <= ?v < 2 ^ ?k |- context [Z.testbit ?v ?m] =>
      rewrite (testbit_range v k m H) by lia
  | |- context [andb _ false] => rewrite andb_false_r
  | |- context [andb _ true] => rewrite andb_true_r
  | |- context [orb _ false] => rewrite orb_false_r
  | |- context [orb false _] => rewrite orb_false_l
  | |- context [andb false _] => rewrite andb_false_l
  end.
Ltac bits := repeat bits_step.

Lemma bswap32_involutive (v : Z) : 0 <= v < 2 ^ 32 -> bswap32 (bswap32 v) = v.
Proof.
  intros Hv. apply Z.bits_inj'. intros n Hn. unfold bswap32.
  change 0xFF with (Z.ones 8).
  destruct (Z_lt_le_dec n 8); [| destruct (Z_lt_le_dec n 16); [| destruct (Z_lt_le_dec n 24); [| destruct (Z_lt_le_dec n 32)]]].
  all: bits.
  all: try reflexivity.
  all: try (f_equal; lia).
Qed.

Lemma imm_val_range (x : RDMAFCImm) : 0 <= imm_val x < 2 ^ 32.
Proof.
  unfold imm_val.
  assert (H0 : 0 <= Z.lor (Z.land (bytes_sent x) (Z.ones 28))
        (Z.shiftl (Z.land (fcs_received x) (Z.ones 4)) 28)).
  { apply Z.lor_nonneg; split; [| apply Z.shiftl_nonneg];
      apply Z.land_nonneg; right; vm_compute; discriminate. }
  split; [exact H0 |].
  match goal with |- ?a < _ => destruct (Z.eq_dec a 0) as [E | E] end;
    [rewrite E; reflexivity |].
  apply Z.log2_lt_pow2; [lia |].
  match goal with |- Z.log2 ?a < _ => destruct (Z_lt_le_dec (Z.log2 a) 32) as [L | L]; [exact L | exfalso] end.
  match type of L with _ <= Z.log2 ?a => assert (T : Z.testbit a (Z.log2 a) = true) by (apply Z.bit_log2; lia) end.
  revert T. bits. discriminate.
Qed.

Lemma imm_of_val_imm_val (b f : Z) :
  0 <= b < 2 ^ 28 -> 0 <= f < 2 ^ 4 ->
  imm_of_val (imm_val (mkImm b f)) = mkImm b f.
Proof.
  intros Hb Hf. unfold imm_of_val, imm_val; cbn [bytes_sent fcs_received].
  f_equal; apply Z.bits_inj'; intros n Hn.
  - destruct (Z_lt_le_dec n 28); bits; reflexivity.
  - destruct (Z_lt_le_dec n 4); bits; try reflexivity; f_equal; lia.
Qed.

(** ** Teardown *)

Lemma State_eqb_eq (a b : State) : State_eqb a b = true <-> a = b.
Proof. destruct a, b; cbn; split; congruence. Qed.

Lemma _cleanup_state c : _state (_cleanup c) = _state c.
Proof.
  destruct c. reflexivity.
Qed.

Lemma setState_state s c : _state (setState s c) = s.
Proof.
  unfold setState. destruct (State_eqb s (_state c)) eqn:E; [| reflexivity].
  symmetry. now apply State_eqb_eq.
Qed.

Lemma close_state c : _state (close c) = STATE_CLOSED.
Proof.
  unfold close, _close.
  destruct (State_eqb STATE_CLOSED (_state c)) eqn:E.
  - symmetry. now apply State_eqb_eq.
  - rewrite _cleanup_state. apply setState_state.
Qed.

Lemma close_closed c : _state c = STATE_CLOSED -> close c = c.
Proof. intros H. unfold close, _close. now rewrite H. Qed.

Lemma _cleanup_released c : released (_cleanup c).
Proof.
  destruct c. unfold released, _cleanup. cbn. repeat split.
Qed.

Lemma close_times_closed (n : nat) (c : Conn) :
  _state c = STATE_CLOSED -> close_times n c = c.
Proof.
  induction n as [| n IH]; intros H; cbn; [reflexivity |].
  rewrite (close_closed c H). now apply IH.
Qed.

(** C9: once the connection is CLOSED, further calls of close() change
    nothing: the state stays CLOSED, the trace of released resources is the
    one of the first call, and any number n >= 1 of consecutive calls has
    the effect of a single call. *)
Theorem close_idempotent (c : Conn) :
  close c = _close c /\
  _state (close c) = STATE_CLOSED /\
  close (close c) = close c /\
  _trace (close (close c)) = _trace (close c) /\
  forall n : nat, close_times (S n) c = close c.
Proof.
  assert (E : close (close c) = close c) by (apply close_closed, close_state).
  repeat split.
  - apply close_state.
  - exact E.
  - now rewrite E.
  - intros n. cbn. apply close_times_closed, close_state.
Qed.

(** ** Credits *)

Lemma _initProtocol_credits_ok (d : Z) (c : Conn) :
  4 <= d -> fst (_initProtocol d c) = true /\ credits_ok (snd (_initProtocol d c)).
Proof.
  intros Hd. unfold _initProtocol.
  destruct (d <? 2) eqn:E; [apply Z.ltb_lt in E; lia |].
  destruct c; unfold credits_ok; cbn.
  assert (Q : Z.quot d 2 = d / 2) by (apply Z.quot_div_nonneg; lia).
  rewrite Q.
  assert (2 * (d / 2) <= d) by (apply Z.mul_div_le; lia).
  assert (2 <= d / 2) by (apply Z.div_le_lower_bound; lia).
  repeat split; lia.
Qed.

(** C2: with a queue depth of 2, which [_initProtocol] accepts, the initial
    credits are outside the bounds: write_credits is -1 and fc_credits is 3,
    above the depth. *)
Theorem initProtocol_depth_2_credits :
  exists c : Conn,
    _initProtocol 2 RDMAConnection_new = (true, c) /\
    _depth c = 2 /\ _wcredits c = -1 /\ _fcredits c = 3 /\
    ~ credits_ok c.
Proof.
  eexists. split; [reflexivity |]. cbn.
  repeat split; try reflexivity.
  unfold credits_ok; cbn. lia.
Qed.

(** ** Immediate data *)

Lemma land_ones_range (v k : Z) : 0 <= k -> 0 <= Z.land v (Z.ones k) < 2 ^ k.
Proof.
  intros Hk. rewrite Z.land_ones by exact Hk. apply Z.mod_pos_bound.
  apply Z.pow_pos_nonneg; lia.
Qed.

Lemma imm_of_val_range (v : Z) :
  0 <= bytes_sent (imm_of_val v) < 2 ^ 28 /\
  0 <= fcs_received (imm_of_val v) < 2 ^ 4.
Proof.
  unfold imm_of_val; cbn [bytes_sent fcs_received].
  split; [apply (land_ones_range v 28) | apply (land_ones_range _ 4)]; lia.
Qed.

(** C4: an immediate datum advances the HEAD of the sink ring by the
    unpacked bytes_sent, queues bytes_sent on the available-bytes pipe when
    the pipe accepts it, and adds the unpacked fcs_received to the FC
    credits; the write credits are left as they are. *)
Theorem recvRDMAWrite_effect (pipe_ok : bool) (imm : Z) (c : Conn) :
  let x := imm_of_val (ntohl imm) in
  let c' := _recvRDMAWrite pipe_ok imm c in
  _sinkptr c' = RingPtr.incrHead (_sinkptr c) (bytes_sent x) /\
  RingPtr.head (_sinkptr c') = u32 (RingPtr.head (_sinkptr c) + bytes_sent x) /\
  _pipe c' = (if pipe_ok then _pipe c ++ [bytes_sent x] else _pipe c) /\
  fold_left Z.add (_pipe c') 0 =
    fold_left Z.add (_pipe c) 0 + (if pipe_ok then bytes_sent x else 0) /\
  _fcredits c' = i32 (_fcredits c + fcs_received x) /\
  _wcredits c' = _wcredits c /\
  _writes c' = i32 (_writes c + 1).
Proof.
  intros x c'. subst c'. unfold _recvRDMAWrite.
  change (imm_of_val (ntohl imm)) with x.
  destruct (imm_of_val_range (ntohl imm)) as [Hb _].
  change (imm_of_val (ntohl imm)) with x in Hb. clearbody x.
  assert (U : u64 (bytes_sent x) = bytes_sent x)
    by (unfold u64; apply Z.mod_small; lia).
  destruct c; destruct pipe_ok; cbn; rewrite ?U;
    repeat split; try reflexivity.
  - rewrite fold_left_app. reflexivity.
  - lia.
Qed.

(** An immediate datum that acknowledges one FC message leaves the write
    credits where they were. *)
Lemma recvRDMAWrite_write_credits_unchanged :
  let c := snd (_initProtocol 16 RDMAConnection_new) in
  let imm := htonl (imm_val (mkImm 100 1)) in
  bytes_sent (imm_of_val (ntohl imm)) = 100 /\
  fcs_received (imm_of_val (ntohl imm)) = 1 /\
  _wcredits (_recvRDMAWrite true imm c) <>
    _wcredits c + fcs_received (imm_of_val (ntohl imm)).
Proof. vm_compute. repeat split; discriminate. Qed.

(** ** What the polling code preserves

    A relation that every member update made while polling respects is
    respected by the polling functions. *)
Section PollFrame.

Variable R : Conn -> Conn -> Prop.
Hypothesis R_refl : forall c, R c c.
Hypothesis R_trans : forall a b c, R a b -> R b c -> R a c.
Hypothesis R_sinkptr : forall v c, R c (set_sinkptr v c).
Hypothesis R_pipe : forall v c, R c (set_pipe v c).
Hypothesis R_fcredits : forall v c, R c (set_fcredits v c).
Hypothesis R_wcredits : forall v c, R c (set_wcredits v c).
Hypothesis R_writes : forall v c, R c (set_writes v c).
Hypothesis R_fcs : forall v c, R c (set_fcs v c).
Hypothesis R_rptr : forall v c, R c (set_rptr v c).
Hypothesis R_rbase : forall v c, R c (set_rbase v c).
Hypothesis R_rkey : forall v c, R c (set_rkey v c).
Hypothesis R_trace : forall v c, R c (set_trace v c).
Hypothesis R_completions : forall v c, R c (set_completions v c).
Hypothesis R_established : forall v c, R c (set_established v c).
Hypothesis R_source_tail :
  forall n c, R c (set_sourceptr (RingPtr.incrTail (_sourceptr c) n) c).

Lemma R_log l c : R c (log l c).
Proof. apply R_trace. Qed.

Lemma R_incrAvailableBytes ok b c : R c (snd (_incrAvailableBytes ok b c)).
Proof. unfold _incrAvailableBytes. destruct ok; cbn; auto. Qed.

Lemma R_recvRDMAWrite ok imm c : R c (_recvRDMAWrite ok imm c).
Proof.
  unfold _recvRDMAWrite.
  eapply R_trans; [| apply R_writes].
  eapply R_trans; [| apply R_fcredits].
  eapply R_trans; [| apply R_incrAvailableBytes].
  apply R_sinkptr.
Qed.

Lemma R_recvFC fc c : R c (_recvFC fc c).
Proof.
  unfold _recvFC.
  eapply R_trans; [| apply R_fcs].
  eapply R_trans; [| apply R_wcredits]. apply R_rptr.
Qed.

Lemma R_recvSetup s c : R c (_recvSetup s c).
Proof.
  unfold _recvSetup.
  eapply R_trans; [| apply R_rkey].
  eapply R_trans; [| apply R_rptr]. apply R_rbase.
Qed.

Lemma R_recvMessage m c : R c (_recvMessage m c).
Proof.
  unfold _recvMessage. destruct (payload m); auto.
  - destruct (_ =? _); auto using R_recvSetup.
  - destruct (_ =? _); auto using R_recvFC.
Qed.

Lemma R_postReceives ok n c : R c (snd (_postReceives ok n c)).
Proof. unfold _postReceives. destruct ok; cbn; auto using R_log. Qed.

Lemma R_postMessage ok m c : R c (snd (_postMessage ok m c)).
Proof.
  unfold _postMessage. destruct ok; cbn; auto.
  eapply R_trans; [apply R_fcredits | apply R_log].
Qed.

Lemma R_postFC ok n c : R c (snd (_postFC ok n c)).
Proof.
  unfold _postFC. eapply R_trans; [| apply R_postMessage]. apply R_writes.
Qed.

Lemma R_postSetup ok b k c : R c (snd (_postSetup ok b k c)).
Proof. unfold _postSetup. apply R_postMessage. Qed.

Lemma R_checkCQ_batch t wcs n c : R c (snd (_checkCQ_batch t wcs n c)).
Proof.
  revert n c. induction wcs as [| wc wcs IH]; intros n c; cbn; [auto |].
  destruct (status wc); cbn; auto.
  eapply R_trans; [| apply IH].
  destruct (opcode wc); auto using R_recvRDMAWrite, R_recvMessage.
  exact (R_source_tail (u32 (wr_id wc)) c).
Qed.

Lemma R_checkCQ_repoll t drain polls c :
  R c (snd (_checkCQ_repoll t drain polls c)).
Proof.
  revert c. induction polls as [| p polls IH]; intros c; cbn; [auto |].
  destruct p as [wcs |]; cbn; [| auto].
  pose proof (R_checkCQ_batch t wcs 0 c) as H.
  destruct (_checkCQ_batch t wcs 0 c) as [[n |] c1]; cbn in *; [| auto].
  destruct (0 <? n).
  - pose proof (R_postReceives (t_post_recv_ok t) n c1) as H1.
    destruct (_postReceives (t_post_recv_ok t) n c1) as [ok c2]; cbn in *.
    destruct ok; cbn; [| eauto].
    destruct (drain && _); cbn; [| eauto].
    eapply R_trans; [| apply IH]. eauto.
  - cbn. destruct (drain && _); cbn; [| eauto].
    eapply R_trans; [| apply IH]. eauto.
Qed.

Lemma R_checkCQ drain t c : R c (snd (_checkCQ drain t c)).
Proof.
  unfold _checkCQ. destruct (negb (_cq c)); cbn; auto using R_checkCQ_repoll.
Qed.

Lemma R_rearmCQ t c : R c (snd (_rearmCQ t c)).
Proof.
  unfold _rearmCQ. destruct (negb (t_get_cq_event_ok t)); cbn; [auto |].
  assert (H : forall c0, R c c0 -> R c
    (snd (if negb (t_req_notify_ok t) then (false, c0) else (true, c0))))
    by (intros c0 H0; destruct (negb _); exact H0).
  apply H.
  eapply R_trans; [| apply R_completions].
  eapply R_trans; [| apply R_log]. apply R_completions.
Qed.

Lemma R_doCMEvent_disconnected ev c :
  R c (snd (_doCMEvent RDMA_CM_EVENT_DISCONNECTED ev c)).
Proof.
  destruct ev as [[ty d] |]; cbn; [| auto].
  destruct ty; cbn; auto.
Qed.

Lemma R_checkDisconnected t c : R c (snd (_checkDisconnected t c)).
Proof.
  unfold _checkDisconnected. destruct (_checkEvents t c) as [ev |]; cbn; [| auto].
  destruct (CM_EVENT ev); cbn; [| auto].
  pose proof (R_doCMEvent_disconnected (t_cm_event t) c) as H.
  destruct (_doCMEvent _ _ c) as [ok c1]. exact H.
Qed.

Lemma R_readSync_poll t c : R c (snd (readSync_poll t c)).
Proof.
  unfold readSync_poll.
  pose proof (R_checkDisconnected t c) as H.
  destruct (_checkDisconnected t c) as [[ok ev] c1]; cbn in H.
  destruct ok; cbn; [| exact H].
  assert (H2 : R c1 (snd (if CQ_EVENT ev then _rearmCQ t c1 else (true, c1))))
    by (destruct (CQ_EVENT ev); [apply R_rearmCQ | apply R_refl]).
  destruct (if CQ_EVENT ev then _rearmCQ t c1 else (true, c1)) as [ok2 c2];
    cbn in H2.
  destruct ok2; cbn; [| eauto].
  pose proof (R_checkCQ (CQ_EVENT ev) t c2) as H3.
  destruct (_checkCQ (CQ_EVENT ev) t c2) as [ok3 c3]; cbn in *. eauto.
Qed.

End PollFrame.

Ltac frame_side :=
  let x := fresh "x" in let y := fresh "y" in let z := fresh "z" in
  let Hxy := fresh "Hxy" in let Hyz := fresh "Hyz" in
  first
    [ solve [ intros x; repeat split ]
    | solve [ intros y x; destruct x; repeat split ]
    | solve [ unfold ctl_frame, cpd_frame; intros x y z Hxy Hyz;
              decompose [and] Hxy; decompose [and] Hyz;
              repeat split; congruence ] ].

Lemma ctl_frame_refl c : ctl_frame c c.
Proof. repeat split. Qed.

Lemma ctl_frame_trans a b c : ctl_frame a b -> ctl_frame b c -> ctl_frame a c.
Proof. revert a b c. frame_side. Qed.

Lemma ctl_frame_readSync_poll t c : ctl_frame c (snd (readSync_poll t c)).
Proof. apply R_readSync_poll; frame_side. Qed.

Lemma ctl_frame_checkDisconnected t c :
  ctl_frame c (snd (_checkDisconnected t c)).
Proof. apply R_checkDisconnected; frame_side. Qed.

Lemma ctl_frame_checkCQ d t c : ctl_frame c (snd (_checkCQ d t c)).
Proof. apply R_checkCQ; frame_side. Qed.

Lemma ctl_frame_postFC ok n c : ctl_frame c (snd (_postFC ok n c)).
Proof. apply R_postFC; frame_side. Qed.

Lemma ctl_frame_postSetup ok b k c : ctl_frame c (snd (_postSetup ok b k c)).
Proof. apply R_postSetup; frame_side. Qed.

Lemma cpd_frame_refl c : cpd_frame c c.
Proof. split; reflexivity. Qed.

Lemma cpd_frame_trans a b c : cpd_frame a b -> cpd_frame b c -> cpd_frame a c.
Proof. revert a b c. frame_side. Qed.

Lemma cpd_frame_checkDisconnected t c :
  cpd_frame c (snd (_checkDisconnected t c)).
Proof. apply R_checkDisconnected; frame_side. Qed.

Lemma cpd_frame_checkCQ d t c : cpd_frame c (snd (_checkCQ d t c)).
Proof. apply R_checkCQ; frame_side. Qed.

Lemma cpd_frame_postSetup ok b k c : cpd_frame c (snd (_postSetup ok b k c)).
Proof. apply R_postSetup; frame_side. Qed.

Lemma cpd_frame_waitRecvSetup ticks c ok c' :
  _waitRecvSetup ticks c = Some (ok, c') -> cpd_frame c c'.
Proof.
  revert c. induction ticks as [| t ticks IH]; intros c; cbn; [discriminate |].
  pose proof (cpd_frame_checkDisconnected t c) as H1.
  destruct (_checkDisconnected t c) as [[ok1 ev] c1]; cbn in H1.
  destruct ok1; cbn; [| intros [= <- <-]; exact H1].
  destruct (_established c1); cbn; [| intros [= <- <-]; exact H1].
  pose proof (cpd_frame_checkCQ true t c1) as H2.
  destruct (_checkCQ true t c1) as [ok2 c2]; cbn in H2.
  assert (H12 : cpd_frame c c2) by (eapply cpd_frame_trans; eauto).
  destruct ok2; cbn; [| intros [= <- <-]; exact H12].
  destruct (_rkey c2 =? 0); [| intros [= <- <-]; exact H12].
  destruct (t_expired t); [intros [= <- <-]; exact H12 |].
  intros H. eapply cpd_frame_trans; [exact H12 | now apply IH].
Qed.

(** ** Ring buffer *)

Lemma read_length (b : RingBuffer.t) (off n : Z) :
  0 <= n -> Z.of_nat (List.length (RingBuffer.read b off n)) = n.
Proof.
  intros Hn. unfold RingBuffer.read. rewrite length_map, length_seq. lia.
Qed.

Lemma page_of_mod (sz v : Z) :
  0 <= v < 2 * sz -> RingBuffer.page_of sz v = v mod sz.
Proof.
  intros Hv. unfold RingBuffer.page_of.
  destruct (Z.ltb_spec v sz).
  - symmetry. apply Z.mod_small. lia.
  - apply Z.mod_unique with 1; lia.
Qed.

Lemma read_flat_circular (b : RingBuffer.t) (off n : Z) :
  0 <= off < RingBuffer.size b -> 0 <= n <= RingBuffer.size b ->
  RingBuffer.read b off n = RingBuffer.read_circular b off n.
Proof.
  intros Ho Hn. unfold RingBuffer.read, RingBuffer.read_circular.
  apply map_ext_in. intros i Hi. apply in_seq in Hi.
  unfold RingBuffer.virt. rewrite page_of_mod by lia. reflexivity.
Qed.

(** A write that ends before the end of the pages replaces one flat slice
    of them. *)
Lemma write_pages_flat (sz : Z) (src : list Z) (m : Z -> Z) (off j : Z) :
  0 <= off -> off + Z.of_nat (List.length src) <= sz ->
  RingBuffer.write_pages sz m off src j =
    if (off <=? j) && (j <? off + Z.of_nat (List.length src))
    then nth (Z.to_nat (j - off)) src 0
    else m j.
Proof.
  revert m off. induction src as [| x src IH]; intros m off Ho Hs.
  - cbn. destruct (off <=? j) eqn:E1, (j <? off + 0) eqn:E2; cbn;
      try reflexivity. apply Z.leb_le in E1. apply Z.ltb_lt in E2. lia.
  - cbn [RingBuffer.write_pages List.length] in *.
    rewrite IH by lia.
    unfold RingBuffer.store, RingBuffer.page_of.
    destruct (Z.ltb_spec off sz); [| lia].
    destruct (Z.leb_spec (off + 1) j); destruct (Z.leb_spec off j);
      destruct (Z.ltb_spec j (off + 1 + Z.of_nat (List.length src)));
      destruct (Z.ltb_spec j (off + Z.of_nat (S (List.length src))));
      destruct (Z.eqb_spec j off); cbn [andb]; try lia; try reflexivity.
    + replace (Z.to_nat (j - off)) with (S (Z.to_nat (j - (off + 1)))) by lia.
      reflexivity.
    + subst j. now rewrite Z.sub_diag.
Qed.

Lemma u32_range (z : Z) : 0 <= u32 z < 2 ^ 32.
Proof. apply Z.mod_pos_bound. reflexivity. Qed.

Lemma u32_small (z : Z) : 0 <= z < 2 ^ 32 -> u32 z = z.
Proof. apply Z.mod_small. Qed.

Lemma available_nonneg (p : RingPtr.t) : 0 <= RingPtr.available p.
Proof. apply u32_range. Qed.

Lemma negAvailable_nonneg (p : RingPtr.t) : 0 <= RingPtr.negAvailable p.
Proof. apply u32_range. Qed.

Lemma ptr_range (p : RingPtr.t) (w : RingPtr.Which) :
  0 < RingPtr.len p -> 0 <= RingPtr.ptr p w < RingPtr.len p.
Proof. intros H. apply Z.mod_pos_bound. exact H. Qed.

(** ** Draining and filling *)

Lemma _drain_spec (bytes : Z) (c : Conn) :
  fst (fst (_drain bytes c)) = Z.min bytes (RingPtr.available (_sinkptr c)) /\
  snd (fst (_drain bytes c)) =
    RingBuffer.read (_sinkbuf c) (RingPtr.tail (_sinkptr c))
      (fst (fst (_drain bytes c))) /\
  _sinkptr (snd (_drain bytes c)) =
    RingPtr.incrTail (_sinkptr c) (fst (fst (_drain bytes c))).
Proof. destruct c. repeat split. Qed.

Lemma _fill_count (buffer : list Z) (bytes : Z) (c : Conn) :
  fst (_fill buffer bytes c) =
    Z.min (Z.min bytes (Z.min (RingPtr.negAvailable (_sourceptr c))
                              (RingPtr.negAvailable (_rptr c))))
          (u32 (RingBuffer.size (_sourcebuf c) -
                RingPtr.ptr (_sourceptr c) RingPtr.HEAD)).
Proof. reflexivity. Qed.

Lemma _fill_bounds (buffer : list Z) (bytes : Z) (c : Conn) :
  0 <= bytes -> 0 <= fst (_fill buffer bytes c) <= bytes.
Proof.
  intros Hb. rewrite _fill_count.
  pose proof (negAvailable_nonneg (_sourceptr c)).
  pose proof (negAvailable_nonneg (_rptr c)).
  pose proof (u32_range (RingBuffer.size (_sourcebuf c) -
                RingPtr.ptr (_sourceptr c) RingPtr.HEAD)).
  lia.
Qed.

Lemma _fill_effect (buffer : list Z) (bytes : Z) (c : Conn) :
  _sourceptr (snd (_fill buffer bytes c)) =
    RingPtr.incrHead (_sourceptr c) (fst (_fill buffer bytes c)) /\
  _sourcebuf (snd (_fill buffer bytes c)) =
    RingBuffer.write (_sourcebuf c) (RingPtr.ptr (_sourceptr c) RingPtr.HEAD)
      (firstn (Z.to_nat (fst (_fill buffer bytes c))) buffer) /\
  ctl_frame_but_head c (snd (_fill buffer bytes c)).
Proof. destruct c. repeat split. Qed.

(** C8: a slice [o, o+L) of the double mapping with o < N and L <= N lies
    inside the mapping and shows the bytes of the ring with the offset
    wrapped; a drain reads one such slice at the tail position, even when it
    runs past the end of the buffer; a fill stores one slice at the head
    position whose length is the minimum of the request, the free space of
    the source ring, the free space of the view of the remote ring and the
    distance N - o to the end of the buffer, so that it never runs past the
    end of the buffer. *)
Theorem ring_access_flat_slices :
  (forall (b : RingBuffer.t) (off n : Z),
      0 <= off < RingBuffer.size b -> 0 <= n <= RingBuffer.size b ->
      off + n <= 2 * RingBuffer.size b /\
      Z.of_nat (List.length (RingBuffer.read b off n)) = n /\
      RingBuffer.read b off n = RingBuffer.read_circular b off n) /\
  (forall (bytes : Z) (c : Conn),
      ring_ok (_sinkbuf c) (_sinkptr c) -> 0 <= bytes ->
      let n := fst (fst (_drain bytes c)) in
      let data := snd (fst (_drain bytes c)) in
      let o := RingPtr.tail (_sinkptr c) in
      n = Z.min bytes (RingPtr.available (_sinkptr c)) /\
      0 <= o < RingBuffer.size (_sinkbuf c) /\
      data = RingBuffer.read (_sinkbuf c) o n /\
      data = RingBuffer.read_circular (_sinkbuf c) o n /\
      Z.of_nat (List.length data) = n) /\
  (forall (buffer : list Z) (bytes : Z) (c : Conn),
      ring_ok (_sourcebuf c) (_sourceptr c) ->
      0 <= bytes <= Z.of_nat (List.length buffer) ->
      let n := fst (_fill buffer bytes c) in
      let c' := snd (_fill buffer bytes c) in
      let o := RingPtr.ptr (_sourceptr c) RingPtr.HEAD in
      n = Z.min (Z.min bytes (Z.min (RingPtr.negAvailable (_sourceptr c))
                                    (RingPtr.negAvailable (_rptr c))))
                (RingBuffer.size (_sourcebuf c) - o) /\
      0 <= o /\ o + n <= RingBuffer.size (_sourcebuf c) /\
      forall j : Z,
        RingBuffer.pages (_sourcebuf c') j =
          if (o <=? j) && (j <? o + n)
          then nth (Z.to_nat (j - o)) buffer 0
          else RingBuffer.pages (_sourcebuf c) j).
Proof.
  split; [| split].
  - intros b off n Ho Hn. split; [lia |]. split.
    + apply read_length; lia.
    + now apply read_flat_circular.
  - intros bytes c (Hl & Hlen & Hsz & Hav) Hb n data o.
    destruct (_drain_spec bytes c) as (Hn & Hd & _).
    fold n in Hn, Hd. fold data in Hd. fold o in Hd.
    pose proof (available_nonneg (_sinkptr c)) as Ha.
    assert (Ho : 0 <= o < RingBuffer.size (_sinkbuf c)).
    { rewrite <- Hlen. apply ptr_range. lia. }
    assert (Hn' : 0 <= n <= RingBuffer.size (_sinkbuf c)) by lia.
    repeat split; try tauto; try lia.
    + rewrite Hd. now apply read_flat_circular.
    + rewrite Hd. apply read_length; lia.
  - intros buffer bytes c (Hl & Hlen & Hsz & Hav) Hb n c' o.
    assert (Ho : 0 <= o < RingBuffer.size (_sourcebuf c)).
    { rewrite <- Hlen. apply ptr_range. lia. }
    assert (Hn : n = Z.min (Z.min bytes
                (Z.min (RingPtr.negAvailable (_sourceptr c))
                       (RingPtr.negAvailable (_rptr c))))
                (RingBuffer.size (_sourcebuf c) - o)).
    { unfold n. rewrite _fill_count. fold o. rewrite u32_small by lia.
      reflexivity. }
    pose proof (_fill_bounds buffer bytes c (proj1 Hb)) as Hnb. fold n in Hnb.
    assert (Hon : o + n <= RingBuffer.size (_sourcebuf c)) by lia.
    split; [exact Hn |]. split; [lia |]. split; [exact Hon |].
    destruct (_fill_effect buffer bytes c) as (_ & Hw & _).
    fold c' in Hw. fold n in Hw. fold o in Hw. clearbody n o c'.
    intros j. rewrite Hw.
    unfold RingBuffer.write, RingBuffer.pages in *.
    cbn [RingBuffer.map].
    destruct (RingBuffer.map (_sourcebuf c)) as [m |] eqn:Em;
      [| congruence].
    assert (Hfl : Z.of_nat (List.length (firstn (Z.to_nat n) buffer)) = n)
      by (rewrite length_firstn; lia).
    rewrite write_pages_flat by lia. rewrite Hfl.
    destruct ((o <=? j) && (j <? o + n)) eqn:E; [| reflexivity].
    apply andb_prop in E. destruct E as [E1 E2].
    apply Z.leb_le in E1. apply Z.ltb_lt in E2.
    rewrite nth_firstn.
    destruct (Nat.ltb_spec (Z.to_nat (j - o)) (Z.to_nat n)); [reflexivity | lia].
Qed.

(** With 8 bytes free and the head at offset 6 of 8, a fill of 4 bytes
    stores 2. *)
Lemma fill_stops_at_buffer_end :
  ring_ok (_sourcebuf small_rings) (_sourceptr small_rings) /\
  RingPtr.negAvailable (_sourceptr small_rings) = 8 /\
  RingPtr.negAvailable (_rptr small_rings) = 8 /\
  fst (_fill [1; 2; 3; 4] 4 small_rings) = 2 /\
  fst (_fill [1; 2; 3; 4] 4 small_rings) <>
    Z.min 4 (Z.min (RingPtr.negAvailable (_sourceptr small_rings))
                   (RingPtr.negAvailable (_rptr small_rings))).
Proof.
  unfold ring_ok. vm_compute.
  repeat split; try discriminate; try reflexivity.
Qed.

(** ** Posting a write *)

Lemma bswap32_range (v : Z) : 0 <= bswap32 v < 2 ^ 32.
Proof.
  unfold bswap32. change 0xFF with (Z.ones 8).
  match goal with |- 0 <= ?a < _ => assert (H0 : 0 <= a) end.
  { repeat (apply Z.lor_nonneg; split); try apply Z.shiftl_nonneg;
      apply Z.land_nonneg; right; vm_compute; discriminate. }
  split; [exact H0 |].
  match goal with |- ?a < _ => destruct (Z.eq_dec a 0) as [E | E] end;
    [rewrite E; reflexivity |].
  apply Z.log2_lt_pow2; [lia |].
  match goal with
  | |- Z.log2 ?a < _ =>
      destruct (Z_lt_le_dec (Z.log2 a) 32) as [L | L]; [exact L | exfalso]
  end.
  match type of L with
  | _ <= Z.log2 ?a =>
      assert (T : Z.testbit a (Z.log2 a) = true) by (apply Z.bit_log2; lia)
  end.
  revert T. bits. discriminate.
Qed.

Lemma i32_small (z : Z) : - 2 ^ 31 <= z < 2 ^ 31 -> i32 z = z.
Proof. intros H. unfold i32. rewrite Z.mod_small; lia. Qed.

Lemma makeImm_fcs_bounds (c : Conn) :
  0 <= Z.min MAX_FC (u16 (_fcs c)) <= MAX_FC.
Proof.
  assert (0 <= u16 (_fcs c)) by (apply Z.mod_pos_bound; reflexivity).
  change MAX_FC with 15. lia.
Qed.

Lemma _makeImm_decode (b : Z) (c : Conn) :
  0 <= b <= MAX_BS ->
  0 <= fst (_makeImm b c) < 2 ^ 32 /\
  imm_of_val (ntohl (fst (_makeImm b c))) =
    mkImm b (Z.min MAX_FC (u16 (_fcs c))) /\
  _fcs (snd (_makeImm b c)) = i32 (_fcs c - Z.min MAX_FC (u16 (_fcs c))).
Proof.
  intros Hb. change MAX_BS with (2 ^ 28 - 1) in Hb.
  pose proof (makeImm_fcs_bounds c) as Hf. change MAX_FC with 15 in Hf.
  unfold _makeImm. cbn [fst snd]. split; [| split].
  - apply bswap32_range.
  - unfold ntohl, htonl. rewrite bswap32_involutive by apply imm_val_range.
    apply imm_of_val_imm_val; change MAX_FC with 15; lia.
  - destruct c; reflexivity.
Qed.

Lemma _postRDMAWrite_effect (ok : bool) (c : Conn) :
  let n := RingPtr.available2 (_sourceptr c) RingPtr.HEAD RingPtr.MIDDLE in
  let c' := snd (_postRDMAWrite ok c) in
  fst (_postRDMAWrite ok c) = ok /\
  _sourcebuf c' = _sourcebuf c /\
  _sourceptr c' = RingPtr.incr (_sourceptr c) RingPtr.MIDDLE n /\
  _wcredits c' = i32 (_wcredits c - 1) /\
  _fcs c' = _fcs (snd (_makeImm n c)) /\
  _trace c' =
    _trace c ++
    (if ok then [c_post_rdma_write (RingPtr.ptr (_sourceptr c) RingPtr.MIDDLE)
                   n (fst (_makeImm n c))
                   (u64 (_rbase c + RingPtr.ptr (_rptr c) RingPtr.HEAD))]
     else []).
Proof.
  destruct c, ok; cbn; repeat split; try reflexivity.
  symmetry; apply app_nil_r.
Qed.

(** ** The retry loops *)

Lemma u32_idem (z : Z) : u32 (u32 z) = u32 z.
Proof. unfold u32. apply Z.mod_mod. lia. Qed.

Lemma _fill_zero_frame buffer bytes c :
  fst (_fill buffer bytes c) = 0 -> ctl_frame c (snd (_fill buffer bytes c)).
Proof.
  intros H. destruct (_fill_effect buffer bytes c) as (Hp & _ & Hf).
  unfold ctl_frame_but_head in Hf. decompose [and] Hf.
  repeat split; try assumption.
  rewrite Hp, H. cbn. rewrite Z.add_0_r. apply u32_idem.
Qed.

(** A write that returns a count has filled the source ring once, from a
    state the polling code reached, and has posted one RDMA write. *)
Lemma write_retry_result ticks buffer can_put c n c' :
  write_retry ticks buffer can_put c = Some (n, c') ->
  n = -1 \/
  exists t c0,
    In t ticks /\ ctl_frame c c0 /\
    n = fst (_fill buffer can_put c0) /\ n <> 0 /\
    _postRDMAWrite true (snd (_fill buffer can_put c0)) = (true, c').
Proof.
  revert c. induction ticks as [| t ticks IH]; intros c; cbn [write_retry];
    [discriminate |].
  pose proof (ctl_frame_checkDisconnected t c) as H1.
  destruct (_checkDisconnected t c) as [[ok1 ev] c1]; cbn in H1.
  destruct ok1; cbn [negb]; [| intros [= <- <-]; now left].
  destruct (_established c1); cbn [negb]; [| intros [= <- <-]; now left].
  pose proof (ctl_frame_checkCQ false t c1) as H2.
  destruct (_checkCQ false t c1) as [ok2 c2]; cbn in H2.
  assert (H12 : ctl_frame c c2) by (eapply ctl_frame_trans; eauto).
  destruct ok2; cbn [negb]; [| intros [= <- <-]; now left].
  assert (Hrec : write_retry ticks buffer can_put c2 = Some (n, c') ->
    n = -1 \/
    exists t0 c0, In t0 (t :: ticks) /\ ctl_frame c c0 /\
      n = fst (_fill buffer can_put c0) /\ n <> 0 /\
      _postRDMAWrite true (snd (_fill buffer can_put c0)) = (true, c')).
  { intros H. destruct (IH _ H) as [-> | (t0 & c0 & Hin & Hf & Hrest)];
      [now left | right].
    exists t0, c0. split; [now right |]. split; [| exact Hrest].
    eapply ctl_frame_trans; eauto. }
  destruct (0 =? _wcredits c2).
  { destruct (t_expired t); [intros [= <- <-]; now left | exact Hrec]. }
  pose proof (_fill_zero_frame buffer can_put c2) as Hz.
  destruct (_fill buffer can_put c2) as [bytes_put c3] eqn:Ef.
  destruct (0 =? bytes_put) eqn:E0.
  { destruct (t_expired t); [intros [= <- <-]; now left |].
    apply Z.eqb_eq in E0. symmetry in E0. specialize (Hz E0). cbn in Hz.
    intros H. destruct (IH _ H) as [-> | (t0 & c0 & Hin & Hf & Hrest)];
      [now left | right].
    exists t0, c0. split; [now right |]. split; [| exact Hrest].
    eapply ctl_frame_trans; [exact H12 |].
    eapply ctl_frame_trans; eauto. }
  pose proof (_postRDMAWrite_effect (t_post_send_ok t) c3) as (Hok & _).
  destruct (_postRDMAWrite (t_post_send_ok t) c3) as [ok3 c4] eqn:Ep.
  cbn in Hok. subst ok3.
  destruct (t_post_send_ok t) eqn:Es; cbn [negb];
    [| intros [= <- <-]; now left].
  intros [= <- <-]. right. exists t, c2.
  split; [now left |]. split; [exact H12 |].
  rewrite Ef. cbn [fst snd]. split; [reflexivity |].
  split; [apply Z.eqb_neq in E0; lia | exact Ep].
Qed.

Lemma u32_sub_after_add (a b n : Z) :
  u32 a = u32 b -> u32 (u32 (a + n) - b) = u32 n.
Proof.
  unfold u32. intros H.
  rewrite Zminus_mod_idemp_l.
  replace (a + n - b) with (n + (a - b)) by lia.
  rewrite <- Zplus_mod_idemp_r, Zminus_mod, H, Z.sub_diag.
  cbn. now rewrite Z.add_0_r.
Qed.

Lemma u32_add_congr (a b n : Z) : u32 a = u32 b -> u32 (a + n) = u32 (b + n).
Proof.
  unfold u32. intros H.
  now rewrite <- (Zplus_mod_idemp_l a), H, Zplus_mod_idemp_l.
Qed.

(** C3: the limits are 2^28-1 and 15; the immediate value built for a write
    of b <= 2^28-1 bytes decodes, after the byte swap, to bytes_sent = b in
    bits [0:28) and fcs_received = min(15, pending FC count) in bits
    [28:32), and what was not reported stays in the pending count; a call
    of write that returns a count has posted one RDMA write of exactly that
    many bytes, at most min(requested, 2^28-1), leaving the rest of a larger
    request to further calls. *)
Theorem rdma_write_immediate_limits :
  MAX_BS = 2 ^ 28 - 1 /\ MAX_FC = 15 /\
  (forall (b : Z) (c : Conn),
      0 <= b <= MAX_BS -> 0 <= _fcs c < 2 ^ 31 ->
      let imm := fst (_makeImm b c) in
      let x := imm_of_val (ntohl imm) in
      0 <= imm < 2 ^ 32 /\
      Z.land (ntohl imm) (Z.ones 28) = b /\
      Z.land (Z.shiftr (ntohl imm) 28) (Z.ones 4) = fcs_received x /\
      bytes_sent x = b /\
      fcs_received x = Z.min MAX_FC (u16 (_fcs c)) /\
      0 <= fcs_received x <= MAX_FC /\
      (_fcs c < 2 ^ 16 -> fcs_received x = Z.min MAX_FC (_fcs c)) /\
      _fcs (snd (_makeImm b c)) + fcs_received x = _fcs c /\
      0 <= _fcs (snd (_makeImm b c))) /\
  (forall (ticks : list Tick) (buffer : list Z) (bytes : Z) (c : Conn)
          (n : Z) (c' : Conn),
      0 <= bytes < 2 ^ 64 ->
      RingPtr.head (_sourceptr c) = RingPtr.middle (_sourceptr c) ->
      write ticks buffer bytes c = Some (n, c') -> 0 <= n ->
      0 < n <= Z.min bytes MAX_BS /\
      RingPtr.head (_sourceptr c') = RingPtr.middle (_sourceptr c') /\
      exists tr off imm raddr,
        _trace c' = tr ++ [c_post_rdma_write off n imm raddr] /\
        0 <= imm < 2 ^ 32 /\
        bytes_sent (imm_of_val (ntohl imm)) = n /\
        0 <= fcs_received (imm_of_val (ntohl imm)) <= MAX_FC).
Proof.
  split; [reflexivity |]. split; [reflexivity |]. split.
  - intros b c Hb Hf imm x.
    destruct (_makeImm_decode b c Hb) as (Hr & Hd & Hfcs).
    fold imm in Hr, Hd. fold x in Hd.
    pose proof (makeImm_fcs_bounds c) as Hm.
    assert (Hx : bytes_sent x = b /\
                 fcs_received x = Z.min MAX_FC (u16 (_fcs c)))
      by (rewrite Hd; split; reflexivity).
    destruct Hx as [Hxb Hxf].
    assert (Hu : u16 (_fcs c) <= _fcs c)
      by (unfold u16; apply Z.mod_le; lia).
    assert (Hu0 : 0 <= u16 (_fcs c)) by (apply Z.mod_pos_bound; reflexivity).
    change MAX_FC with 15 in *.
    repeat split; try lia.
    + exact Hxb.
    + intros Hs. rewrite Hxf. unfold u16. rewrite Z.mod_small by lia.
      reflexivity.
    + rewrite Hfcs, Hxf. rewrite i32_small by lia. lia.
    + rewrite Hfcs. rewrite i32_small by lia. lia.
  - intros ticks buffer bytes c n c' Hb Hhm Hw Hn.
    unfold write in Hw.
    destruct (negb (State_eqb STATE_CONNECTED (_state c)));
      [injection Hw as <- <-; lia |].
    apply write_retry_result in Hw.
    destruct Hw as [-> | (t & c0 & _ & Hfr & Hfill & Hn0 & Hpost)]; [lia |].
    assert (Hcp : 0 <= Z.min bytes MAX_BS < 2 ^ 32)
      by (change MAX_BS with (2 ^ 28 - 1); lia).
    rewrite (u32_small _ Hcp) in Hfill, Hpost.
    pose proof (_fill_bounds buffer (Z.min bytes MAX_BS) c0 (proj1 Hcp)) as Hfb.
    rewrite <- Hfill in Hfb.
    destruct (_fill_effect buffer (Z.min bytes MAX_BS) c0) as (Hp & _ & Hfh).
    rewrite <- Hfill in Hp.
    set (c1 := snd (_fill buffer (Z.min bytes MAX_BS) c0)) in *.
    destruct Hfr as (_ & _ & Hhead & Hmid).
    unfold ctl_frame_but_head in Hfh. decompose [and] Hfh.
    assert (Hmid1 : RingPtr.middle (_sourceptr c1) =
                    RingPtr.head (_sourceptr c)) by congruence.
    assert (Hhead1 : RingPtr.head (_sourceptr c1) =
                     u32 (RingPtr.head (_sourceptr c0) + n))
      by (rewrite Hp; reflexivity).
    assert (Hlen : RingPtr.available2 (_sourceptr c1) RingPtr.HEAD
                     RingPtr.MIDDLE = n).
    { unfold RingPtr.available2. cbn [RingPtr.counter].
      rewrite Hhead1, Hmid1.
      rewrite u32_sub_after_add by exact Hhead.
      apply u32_small. change MAX_BS with (2 ^ 28 - 1) in *. lia. }
    pose proof (_postRDMAWrite_effect true c1) as Heff.
    cbv zeta in Heff. rewrite Hlen, Hpost in Heff. cbn [fst snd] in Heff.
    destruct Heff as (_ & _ & Hsp & _ & _ & Htr).
    assert (Hnb : 0 <= n <= MAX_BS) by lia.
    destruct (_makeImm_decode n c1 Hnb) as (Hr & Hd & _).
    split; [lia |]. split.
    + rewrite Hsp. cbn [RingPtr.incr RingPtr.head RingPtr.middle].
      rewrite Hhead1, Hmid1. now apply u32_add_congr.
    + eexists _, _, _, _. split; [exact Htr |].
      split; [exact Hr |]. rewrite Hd. cbn [bytes_sent fcs_received].
      split; [reflexivity | apply makeImm_fcs_bounds].
Qed.

Lemma ctl_frame_getAvailableBytes ok c :
  ctl_frame c (snd (_getAvailableBytes ok c)).
Proof. destruct c, ok; repeat split. Qed.

Lemma ctl_frame_drain bytes c : ctl_frame c (snd (_drain bytes c)).
Proof. destruct c; repeat split. Qed.

Lemma ctl_frame_incrAvailableBytes ok b c :
  ctl_frame c (snd (_incrAvailableBytes ok b c)).
Proof. destruct c, ok; repeat split. Qed.

Lemma _sinkptr_incrAvailableBytes ok b c :
  _sinkptr (snd (_incrAvailableBytes ok b c)) = _sinkptr c.
Proof. destruct c, ok; reflexivity. Qed.

Lemma _sinkptr_postFC ok n c : _sinkptr (snd (_postFC ok n c)) = _sinkptr c.
Proof. destruct c, ok; reflexivity. Qed.

(** What a read that returns has done: it has closed the connection and
    returns -1, or it returns 0 without touching the buffer, or it returns
    the count of one drain made in a state the polling code reached. *)
Lemma readSync_retry_result ticks bytes block ee ab c n data c' :
  readSync_retry ticks bytes block ee ab c = Some (n, data, c') ->
  (n = -1 /\ data = [] /\ exists c0, ctl_frame c c0 /\ c' = close c0) \/
  (n = 0 /\ data = [] /\ ctl_frame c c') \/
  (exists c0,
      ctl_frame c c0 /\ n <> 0 /\
      n = fst (fst (_drain (u32 bytes) c0)) /\
      data = snd (fst (_drain (u32 bytes) c0)) /\
      _sinkptr c' = _sinkptr (snd (_drain (u32 bytes) c0)) /\
      ctl_frame c c').
Proof.
  revert ee ab c.
  induction ticks as [| t ticks IH]; intros ee ab c; cbn [readSync_retry];
    [discriminate |].
  pose proof (ctl_frame_readSync_poll t c) as H1.
  destruct (readSync_poll t c) as [[ok1 ev] c1]; cbn in H1.
  assert (Herr : forall c0, ctl_frame c c0 ->
            Some (-1, @nil Z, close c0) = Some (n, data, c') ->
            (n = -1 /\ data = [] /\
             exists c2, ctl_frame c c2 /\ c' = close c2) \/
            (n = 0 /\ data = [] /\ ctl_frame c c') \/
            (exists c2,
                ctl_frame c c2 /\ n <> 0 /\
                n = fst (fst (_drain (u32 bytes) c2)) /\
                data = snd (fst (_drain (u32 bytes) c2)) /\
                _sinkptr c' = _sinkptr (snd (_drain (u32 bytes) c2)) /\
                ctl_frame c c')).
  { intros c0 Hf [= <- <- <-]. left. repeat split. now exists c0. }
  assert (Hrec : forall ee' ab' c0, ctl_frame c c0 ->
            readSync_retry ticks bytes block ee' ab' c0 = Some (n, data, c') ->
            (n = -1 /\ data = [] /\
             exists c2, ctl_frame c c2 /\ c' = close c2) \/
            (n = 0 /\ data = [] /\ ctl_frame c c') \/
            (exists c2,
                ctl_frame c c2 /\ n <> 0 /\
                n = fst (fst (_drain (u32 bytes) c2)) /\
                data = snd (fst (_drain (u32 bytes) c2)) /\
                _sinkptr c' = _sinkptr (snd (_drain (u32 bytes) c2)) /\
                ctl_frame c c')).
  { intros ee' ab' c0 Hf H.
    destruct (IH _ _ _ H) as
      [(-> & -> & c2 & Hf2 & ->) |
       [(-> & -> & Hf2) | (c2 & Hf2 & Hn & Hd & Hdd & Hs & Hf3)]].
    - left. repeat split. exists c2. split; [| reflexivity].
      eapply ctl_frame_trans; [exact Hf | exact Hf2].
    - right; left. split; [reflexivity |]. split; [reflexivity |].
      eapply ctl_frame_trans; [exact Hf | exact Hf2].
    - right; right. exists c2.
      split; [eapply ctl_frame_trans; [exact Hf | exact Hf2] |].
      split; [exact Hn |]. split; [exact Hd |]. split; [exact Hdd |].
      split; [exact Hs |]. eapply ctl_frame_trans; [exact Hf | exact Hf3]. }
  destruct ok1; cbn [negb]; [| now apply Herr].
  destruct (_established c1 && _needFC c1 && (0 =? _fcredits c1)).
  { destruct (t_expired t); [now apply Herr | now apply Hrec]. }
  destruct (_established c1 && negb (BUF_EVENT ev)).
  { destruct (ee && negb block); [| now apply Hrec].
    intros [= <- <- <-]. right; left.
    split; [reflexivity |]. split; [reflexivity | exact H1]. }
  assert (H2 : ctl_frame c1
            (snd (if BUF_EVENT ev then _getAvailableBytes (t_pipe_read_ok t) c1
                  else (ab, c1))))
    by (destruct (BUF_EVENT ev);
        [apply ctl_frame_getAvailableBytes | apply ctl_frame_refl]).
  destruct (if BUF_EVENT ev then _getAvailableBytes (t_pipe_read_ok t) c1
            else (ab, c1)) as [ab2 c2]; cbn [snd] in H2.
  assert (H12 : ctl_frame c c2) by (eapply ctl_frame_trans; eauto).
  destruct (BUF_EVENT ev && (0 =? ab2)); [now apply Herr |].
  pose proof (ctl_frame_drain (u32 bytes) c2) as H3.
  destruct (_drain (u32 bytes) c2) as [[bytes_taken dat] c3] eqn:Ed.
  cbn [snd] in H3.
  assert (H13 : ctl_frame c c3) by (eapply ctl_frame_trans; eauto).
  destruct (0 =? bytes_taken) eqn:E0.
  { destruct (RingPtr.isEmpty (_sinkptr c3) && negb (_established c3));
      [now apply Herr |].
    destruct (t_expired t); [now apply Herr | now apply Hrec]. }
  intros [= <- <- <-]. right; right. exists c2.
  rewrite Ed. cbn [fst snd].
  split; [exact H12 |]. split; [apply Z.eqb_neq in E0; lia |].
  split; [reflexivity |]. split; [reflexivity |].
  set (c4 := if bytes_taken <? ab2
             then snd (_incrAvailableBytes (t_pipe_write_ok t)
                         (ab2 - bytes_taken) c3)
             else c3).
  assert (H4 : ctl_frame c3 c4 /\ _sinkptr c4 = _sinkptr c3).
  { unfold c4. destruct (bytes_taken <? ab2).
    - split; [apply ctl_frame_incrAvailableBytes
             | apply _sinkptr_incrAvailableBytes].
    - split; [apply ctl_frame_refl | reflexivity]. }
  destruct H4 as [H4 H4s].
  destruct (_established c4 && _needFC c4).
  - rewrite _sinkptr_postFC. split; [exact H4s |].
    eapply ctl_frame_trans; [exact H13 |].
    eapply ctl_frame_trans; [exact H4 | apply ctl_frame_postFC].
  - split; [exact H4s |]. eapply ctl_frame_trans; eauto.
Qed.

Lemma close_released (c : Conn) :
  (_state c = STATE_CLOSED -> released c) -> released (close c).
Proof.
  intros H. unfold close, _close.
  destruct (State_eqb STATE_CLOSED (_state c)) eqn:E.
  - apply H. symmetry. now apply State_eqb_eq.
  - apply _cleanup_released.
Qed.







(** ** Handshake *)

Lemma and_then_true_inv (s k : Step) (c c' : Conn) :
  and_then s k c = Some (true, c') ->
  exists c1, s c = Some (true, c1) /\ k c1 = Some (true, c').
Proof.
  unfold and_then. destruct (s c) as [[[|] c1] |]; try discriminate.
  intros H. now exists c1.
Qed.

Lemma and_then_true (s k : Step) (c c1 : Conn) :
  s c = Some (true, c1) -> and_then s k c = k c1.
Proof. unfold and_then. now intros ->. Qed.

Lemma protocol_match_true (d : RDMAConnParamData) :
  protocol_match d = true <->
  magic d = RDMA_PROTOCOL_MAGIC /\ version d = RDMA_PROTOCOL_VERSION.
Proof.
  unfold protocol_match.
  destruct (RDMA_PROTOCOL_MAGIC =? magic d) eqn:Em;
    destruct (RDMA_PROTOCOL_VERSION =? version d) eqn:Ev; cbn;
    rewrite ?Z.eqb_eq, ?Z.eqb_neq in *; split; try intros [? ?];
    try discriminate; try congruence; auto.
Qed.

Lemma protocol_match_false (d : RDMAConnParamData) :
  magic d <> RDMA_PROTOCOL_MAGIC \/ version d <> RDMA_PROTOCOL_VERSION ->
  protocol_match d = false.
Proof.
  intros H. destruct (protocol_match d) eqn:E; [| reflexivity].
  apply protocol_match_true in E. tauto.
Qed.

(** The data looked at once [_waitForCMEvent] has seen the ESTABLISHED
    event are the private data of that event. *)
Lemma _waitForCMEvent_established ticks c c' :
  _waitForCMEvent RDMA_CM_EVENT_ESTABLISHED ticks c = Some (true, c') ->
  _established c' = true /\ _depth c' = _depth c /\
  exists t d,
    In t ticks /\
    t_cm_event t = Some (mkCmEvent RDMA_CM_EVENT_ESTABLISHED d) /\
    _cpd c' = or_zero d.
Proof.
  revert c. induction ticks as [| t ticks IH]; intros c; cbn; [discriminate |].
  destruct (_checkEvents t c) as [ev |]; [| discriminate].
  destruct (CM_EVENT ev); cbn.
  - destruct (t_cm_event t) as [[ty d] |] eqn:Ec; cbn; [| discriminate].
    destruct ty; cbn; try discriminate.
    intros [= <-]. destruct c; cbn. repeat split.
    exists t, d. repeat split; [now left | exact Ec].
  - destruct (t_expired t); [discriminate |].
    intros H. destruct (IH _ H) as (He & Hd & t0 & d & Hin & Hev & Hc).
    repeat split; try assumption. exists t0, d.
    split; [now right |]. split; assumption.
Qed.

Lemma _connect_established e c c1 :
  _connect e c = Some (true, c1) ->
  _established c1 = true /\ _depth c1 = _depth c /\
  exists t d,
    In t (e_established_ticks e) /\
    t_cm_event t = Some (mkCmEvent RDMA_CM_EVENT_ESTABLISHED d) /\
    _cpd c1 = or_zero d.
Proof.
  unfold _connect. destruct (negb (e_connect_ok e)); [discriminate |].
  intros H. apply _waitForCMEvent_established in H.
  destruct H as (He & Hd & Hx).
  split; [exact He |]. split; [| exact Hx].
  rewrite Hd. destruct c; reflexivity.
Qed.

Lemma _accept_depth e c c1 :
  _accept e c = Some (true, c1) -> _depth c1 = _depth c.
Proof.
  unfold _accept. destruct (negb (e_accept_ok e)); [discriminate |].
  intros H. apply _waitForCMEvent_established in H.
  destruct H as (_ & Hd & _). rewrite Hd. destruct c; reflexivity.
Qed.

Lemma setState_frame s c :
  _cpd (setState s c) = _cpd c /\ _depth (setState s c) = _depth c.
Proof. unfold setState. destruct (State_eqb _ _); destruct c; split; reflexivity. Qed.

Ltac peel H :=
  repeat lazymatch type of H with
  | and_then _ _ _ = Some (true, _) =>
      let cx := fresh "cx" in
      let Hs := fresh "Hs" in
      apply and_then_true_inv in H; destruct H as (cx & Hs & H)
  end.

Lemma connect_setup_connect e c c1 :
  connect_setup e c = Some (true, c1) ->
  exists c0, _connect e c0 = Some (true, c1).
Proof.
  unfold connect_setup. intros H. peel H. eauto.
Qed.

Lemma lift_inv (f : Conn -> bool * Conn) (c : Conn) (ok : bool) (c' : Conn) :
  lift f c = Some (ok, c') -> ok = fst (f c) /\ c' = snd (f c).
Proof. unfold lift. destruct (f c). now intros [= -> ->]. Qed.

Lemma _initProtocol_true d c :
  fst (_initProtocol d c) = true ->
  2 <= d /\ _depth (snd (_initProtocol d c)) = d.
Proof.
  unfold _initProtocol. destruct (d <? 2) eqn:E; [discriminate |].
  apply Z.ltb_ge in E. intros _. split; [exact E |]. destruct c; reflexivity.
Qed.

Lemma _initProtocol_small d c :
  d < 2 -> _initProtocol d c = (false, c).
Proof.
  intros H. unfold _initProtocol.
  destruct (d <? 2) eqn:E; [reflexivity | apply Z.ltb_ge in E; lia].
Qed.

Lemma _depth_createNotifier e c : _depth (snd (_createNotifier e c)) = _depth c.
Proof. unfold _createNotifier. destruct c, (e_epoll_create_ok e); reflexivity. Qed.

Lemma _depth_createEventChannel e c :
  _depth (snd (_createEventChannel e c)) = _depth c.
Proof.
  unfold _createEventChannel.
  destruct c, (e_create_event_channel_ok e), (e_cm_epoll_ctl_ok e); reflexivity.
Qed.

Lemma _depth_initVerbs e c : _depth (snd (_initVerbs e c)) = _depth c.
Proof.
  unfold _initVerbs.
  destruct c, (e_alloc_pd_ok e), (e_create_comp_channel_ok e),
    (e_cc_epoll_ctl_ok e), (e_create_cq_ok e), (e_req_notify_ok e);
    reflexivity.
Qed.

Lemma _depth_createBytesAvailableFD e c :
  _depth (snd (_createBytesAvailableFD e c)) = _depth c.
Proof.
  unfold _createBytesAvailableFD.
  destruct c, (e_pipe_ok e), (e_pipe_epoll_ctl_ok e); reflexivity.
Qed.

Lemma _depth_initBuffers e c : _depth (snd (_initBuffers e c)) = _depth c.
Proof.
  unfold _initBuffers.
  destruct (u64 (1024 * 1024 * IATTR_RDMA_RING_BUFFER_SIZE_MB e) =? 0);
    [reflexivity |].
  destruct (RingBuffer.resize _ _ _) as [[ok1 b1] l1].
  destruct ok1; cbn [negb]; [| destruct c; reflexivity].
  destruct (RingBuffer.resize _ _ _) as [[ok2 b2] l2].
  destruct ok2; cbn [negb]; [| destruct c; reflexivity].
  destruct (BufferPool.resize _ _ _) as [[ok3 p3] l3].
  destruct c; reflexivity.
Qed.

Lemma _depth_postReceives ok n c : _depth (snd (_postReceives ok n c)) = _depth c.
Proof. unfold _postReceives. destruct c, ok; reflexivity. Qed.

Lemma _finishAccept_true e cpd c c' :
  _finishAccept e cpd c = Some (true, c') ->
  protocol_match cpd = true /\ 2 <= depth cpd /\
  _depth c' = depth cpd /\ _state c' = STATE_CONNECTED.
Proof.
  unfold _finishAccept.
  destruct (accept_steps_reject _ _ _) as [[[|] c1] |] eqn:E1;
    try discriminate.
  destruct (accept_steps e c1) as [[[|] c2] |] eqn:E2; try discriminate.
  intros [= <-].
  unfold accept_steps_reject in E1. peel E1.
  unfold accept_steps in E2. peel E2.
  injection Hs as Hpm <-.
  repeat match goal with
  | H : lift _ _ = Some _ |- _ => apply lift_inv in H; destruct H as [? ?]
  end.
  match goal with
  | H : Some (_postReceives ?a ?b ?x) = Some (true, ?y) |- _ =>
      assert (Hc1 : y = snd (_postReceives a b x))
        by (injection H as H; now rewrite H);
      clear H
  end.
  match goal with
  | H : _accept _ _ = Some _ |- _ =>
      apply _accept_depth in H; rename H into Hacc
  end.
  match goal with
  | H : _waitRecvSetup _ _ = Some _ |- _ =>
      apply cpd_frame_waitRecvSetup in H; destruct H as [_ Hwait]
  end.
  match goal with
  | H : true = fst (_initProtocol _ _) |- _ =>
      symmetry in H; apply _initProtocol_true in H; destruct H as [Hd2 Hd]
  end.
  split; [exact Hpm |]. split; [exact Hd2 |].
  split; [| apply setState_state].
  rewrite (proj2 (setState_frame _ _)).
  subst. rewrite (proj2 (cpd_frame_postSetup _ _ _ _)), Hwait, Hacc.
  rewrite _depth_postReceives, _depth_initBuffers,
    _depth_createBytesAvailableFD.
  unfold _createQP; cbn [snd]. rewrite _depth_initVerbs. exact Hd.
Qed.

Lemma _finishAccept_mismatch e cpd c :
  protocol_match cpd = false ->
  _finishAccept e cpd c =
    Some (false,
          close (snd (_reject e (set_cm_id true (setState STATE_CONNECTING c))))).
Proof.
  intros H. unfold _finishAccept, accept_steps_reject, and_then.
  rewrite H. reflexivity.
Qed.

Lemma _finishAccept_small_depth e cpd c :
  depth cpd < 2 ->
  exists c1 : Conn,
    _finishAccept e cpd c = Some (false, close (snd (_reject e c1))) /\
    _depth c1 = _depth c.
Proof.
  intros H. unfold _finishAccept, accept_steps_reject.
  set (c0 := set_cm_id true (setState STATE_CONNECTING c)).
  assert (H0 : _depth c0 = _depth c).
  { unfold c0. rewrite <- (proj2 (setState_frame STATE_CONNECTING c)).
    destruct (setState STATE_CONNECTING c); reflexivity. }
  clearbody c0. unfold and_then at 1.
  destruct (protocol_match cpd); [| now exists c0].
  unfold and_then at 1, lift at 1.
  pose proof (_depth_createNotifier e c0) as H1.
  destruct (_createNotifier e c0) as [[|] c1]; cbn [snd] in H1;
    [| exists c1; split; [reflexivity | congruence]].
  unfold and_then at 1, lift at 1.
  pose proof (_depth_createEventChannel e c1) as H2.
  destruct (_createEventChannel e c1) as [[|] c2]; cbn [snd] in H2;
    [| exists c2; split; [reflexivity | congruence]].
  unfold and_then at 1, lift at 1. unfold _migrateId.
  destruct (e_migrate_id_ok e);
    [| exists c2; split; [reflexivity | congruence]].
  unfold and_then at 1, lift at 1.
  rewrite (_initProtocol_small _ c2 H).
  exists c2; split; [reflexivity | congruence].
Qed.

(** C6: a proposed depth below 2 is not raised to 2: the accept fails, the
    request is rejected and the new connection is closed; an accept that
    succeeds runs with exactly the proposed depth, which is then at least
    2. *)
Theorem finishAccept_depth :
  (forall (e : Env) (cpd : RDMAConnParamData) (c : Conn),
      depth cpd < 2 ->
      exists c1 : Conn,
        _finishAccept e cpd c = Some (false, close (snd (_reject e c1))) /\
        _state (close (snd (_reject e c1))) = STATE_CLOSED /\
        (e_reject_ok e = true ->
         _trace (snd (_reject e c1)) = _trace c1 ++ [c_rdma_reject])) /\
  (forall (e : Env) (cpd : RDMAConnParamData) (c c' : Conn),
      _finishAccept e cpd c = Some (true, c') ->
      2 <= depth cpd /\ _depth c' = depth cpd /\
      _state c' = STATE_CONNECTED).
Proof.
  split.
  - intros e cpd c H.
    destruct (_finishAccept_small_depth e cpd c H) as (c1 & H1 & _).
    exists c1. split; [exact H1 |]. split; [apply close_state |].
    intros Hr. unfold _reject. rewrite Hr. destruct c1; reflexivity.
  - intros e cpd c c' H.
    destruct (_finishAccept_true e cpd c c' H) as (_ & H2 & H3 & H4).
    auto.
Qed.

Lemma connect_true e c c' :
  connect e c = Some (true, c') ->
  _state c' = STATE_CONNECTED /\
  exists c1 : Conn,
    connect_setup e (setState STATE_CONNECTING (_cleanup c)) = Some (true, c1) /\
    protocol_match (_cpd c1) = true /\ _cpd c' = _cpd c1.
Proof.
  unfold connect.
  destruct (negb (State_eqb STATE_CLOSED (_state c))); [discriminate |].
  destruct (0 =? _port c); [discriminate |].
  destruct (connect_steps e _) as [[[|] c2] |] eqn:E; try discriminate.
  intros [= <-]. unfold connect_steps in E.
  apply and_then_true_inv in E. destruct E as (c1 & Hsetup & E).
  apply and_then_true_inv in E. destruct E as (c1' & Hpm & E).
  injection Hpm as Hpm <-.
  apply and_then_true_inv in E. destruct E as (c3 & Hps & E).
  apply lift_inv in Hps. destruct Hps as [_ ->].
  apply and_then_true_inv in E. destruct E as (c4 & Hw & E).
  apply cpd_frame_waitRecvSetup in Hw. destruct Hw as [Hw _].
  injection E as <-.
  split; [apply setState_state |].
  exists c1. split; [exact Hsetup |]. split; [exact Hpm |].
  rewrite (proj1 (setState_frame _ _)), Hw.
  apply (proj1 (cpd_frame_postSetup _ _ _ _)).
Qed.

Lemma connect_mismatch e c c1 :
  _state c = STATE_CLOSED -> _port c <> 0 ->
  connect_setup e (setState STATE_CONNECTING (_cleanup c)) = Some (true, c1) ->
  protocol_match (_cpd c1) = false ->
  connect e c = Some (false, close c1).
Proof.
  intros Hs Hp Hsetup Hpm. unfold connect. rewrite Hs. cbn [State_eqb negb].
  destruct (0 =? _port c) eqn:E; [apply Z.eqb_eq in E; congruence |].
  unfold connect_steps.
  rewrite (and_then_true _ _ _ _ Hsetup).
  unfold and_then at 1. rewrite Hpm. reflexivity.
Qed.

(** C1: on both sides a magic byte other than 0xC0 or a version byte other
    than 0x03 in the private data of the peer makes the attempt fail.  The
    acceptor rejects the request and closes the new connection.  The
    initiator, once [_connect] has returned with the ESTABLISHED event,
    whose private data (or zeroes when it carries none) it then holds,
    closes and returns false.  No call returns true on such data. *)
Theorem handshake_rejects_mismatch :
  (forall (e : Env) (cpd : RDMAConnParamData) (c : Conn),
      magic cpd <> RDMA_PROTOCOL_MAGIC \/
      version cpd <> RDMA_PROTOCOL_VERSION ->
      let c0 := set_cm_id true (setState STATE_CONNECTING c) in
      _finishAccept e cpd c = Some (false, close (snd (_reject e c0))) /\
      _state (close (snd (_reject e c0))) = STATE_CLOSED /\
      (e_reject_ok e = true ->
       _trace (snd (_reject e c0)) = _trace c0 ++ [c_rdma_reject])) /\
  (forall (e : Env) (cpd : RDMAConnParamData) (c c' : Conn),
      _finishAccept e cpd c = Some (true, c') ->
      _state c' = STATE_CONNECTED /\
      magic cpd = RDMA_PROTOCOL_MAGIC /\
      version cpd = RDMA_PROTOCOL_VERSION) /\
  (forall (e : Env) (c c1 : Conn),
      connect_setup e c = Some (true, c1) ->
      _established c1 = true /\
      exists (t : Tick) (d : option RDMAConnParamData),
        In t (e_established_ticks e) /\
        t_cm_event t = Some (mkCmEvent RDMA_CM_EVENT_ESTABLISHED d) /\
        _cpd c1 = or_zero d) /\
  (forall (e : Env) (c c1 : Conn),
      _state c = STATE_CLOSED -> _port c <> 0 ->
      connect_setup e (setState STATE_CONNECTING (_cleanup c)) =
        Some (true, c1) ->
      magic (_cpd c1) <> RDMA_PROTOCOL_MAGIC \/
      version (_cpd c1) <> RDMA_PROTOCOL_VERSION ->
      connect e c = Some (false, close c1) /\
      _state (close c1) = STATE_CLOSED) /\
  (forall (e : Env) (c c' : Conn),
      connect e c = Some (true, c') ->
      _state c' = STATE_CONNECTED /\
      magic (_cpd c') = RDMA_PROTOCOL_MAGIC /\
      version (_cpd c') = RDMA_PROTOCOL_VERSION /\
      exists c1 : Conn,
        connect_setup e (setState STATE_CONNECTING (_cleanup c)) =
          Some (true, c1) /\
        _cpd c' = _cpd c1).
Proof.
  split; [| split; [| split; [| split]]].
  - intros e cpd c H c0. apply protocol_match_false in H.
    split; [now apply _finishAccept_mismatch |].
    split; [apply close_state |].
    intros Hr. unfold _reject. rewrite Hr. destruct c0; reflexivity.
  - intros e cpd c c' H.
    destruct (_finishAccept_true e cpd c c' H) as (Hpm & _ & _ & Hst).
    apply protocol_match_true in Hpm. tauto.
  - intros e c c1 H.
    destruct (connect_setup_connect e c c1 H) as (cp & Hc).
    destruct (_connect_established e cp c1 Hc) as (He & _ & Hx). auto.
  - intros e c c1 Hs Hp Hsetup H. apply protocol_match_false in H.
    split; [now apply connect_mismatch | apply close_state].
  - intros e c c' H.
    destruct (connect_true e c c' H) as (Hst & c1 & Hsetup & Hpm & Hcpd).
    apply protocol_match_true in Hpm. rewrite Hcpd.
    split; [exact Hst |]. split; [tauto |]. split; [tauto |].
    now exists c1.
Qed.

(** * Instances on the sample runs *)

Lemma result_eq {A : Type} (r : option (A * Conn)) (a : A) (d : Conn) :
  result_val r = Some a -> r = Some (a, result_conn r d).
Proof. destruct r as [[a' c] |]; cbn; [now intros [= ->] | discriminate]. Qed.

(** The handshake theorem on the sample run: an acceptor handed version
    0x02 and an initiator whose peer answers with magic 0xC1. *)
Lemma handshake_rejects_mismatch_witness :
  let e := sample_env (Some (mkCpd 0xC1 0x03 16)) in
  let bad := mkCpd 0xC0 0x02 16 in
  let c0 := setState STATE_CONNECTING (_cleanup sample_conn) in
  let c1 := result_conn (connect_setup e c0) c0 in
  (magic bad <> RDMA_PROTOCOL_MAGIC \/ version bad <> RDMA_PROTOCOL_VERSION) /\
  _finishAccept e bad RDMAConnection_new =
    Some (false,
          close (snd (_reject e (set_cm_id true
                   (setState STATE_CONNECTING RDMAConnection_new))))) /\
  (_state sample_conn = STATE_CLOSED /\ _port sample_conn <> 0 /\
   connect_setup e c0 = Some (true, c1) /\
   (magic (_cpd c1) <> RDMA_PROTOCOL_MAGIC \/
    version (_cpd c1) <> RDMA_PROTOCOL_VERSION)) /\
  connect e sample_conn = Some (false, close c1) /\
  _state (close c1) = STATE_CLOSED.
Proof.
  intros e bad c0 c1.
  assert (Hbad : magic bad <> RDMA_PROTOCOL_MAGIC \/
                 version bad <> RDMA_PROTOCOL_VERSION)
    by (right; vm_compute; discriminate).
  assert (Hs : _state sample_conn = STATE_CLOSED) by reflexivity.
  assert (Hp : _port sample_conn <> 0) by (vm_compute; discriminate).
  assert (Hsetup : connect_setup e c0 = Some (true, c1))
    by (apply result_eq; vm_compute; reflexivity).
  assert (Hm : magic (_cpd c1) <> RDMA_PROTOCOL_MAGIC \/
               version (_cpd c1) <> RDMA_PROTOCOL_VERSION)
    by (left; vm_compute; discriminate).
  split; [exact Hbad |].
  split; [exact (proj1 (proj1 handshake_rejects_mismatch e bad
                          RDMAConnection_new Hbad)) |].
  split; [exact (conj Hs (conj Hp (conj Hsetup Hm))) |].
  exact (proj1 (proj2 (proj2 (proj2 handshake_rejects_mismatch)))
           e sample_conn c1 Hs Hp Hsetup Hm).
Defined.

(** A connect request that proposes a depth of 1 is rejected: the depth is
    not raised to 2 and no connection comes out of the accept. *)
Lemma finishAccept_rejects_depth_1 :
  let e := sample_env (Some (mkCpd 0xC0 0x03 1)) in
  let r := _finishAccept e (mkCpd 0xC0 0x03 1) RDMAConnection_new in
  result_val r = Some false /\
  _state (result_conn r RDMAConnection_new) = STATE_CLOSED /\
  _depth (result_conn r RDMAConnection_new) = 0 /\
  In c_rdma_reject (_trace (result_conn r RDMAConnection_new)) /\
  ~ (exists c' : Conn, r = Some (true, c') /\ 2 <= _depth c').
Proof.
  intros e r.
  assert (H : result_val r = Some false) by (vm_compute; reflexivity).
  split; [exact H |].
  split; [vm_compute; reflexivity |].
  split; [vm_compute; reflexivity |].
  split; [vm_compute; now left |].
  intros (c' & Hc & _). rewrite Hc in H. discriminate H.
Qed.

(** The depth theorem on the sample run: a proposed depth of 1 and a
    proposed depth of 16. *)
Lemma finishAccept_depth_witness :
  let e := sample_env (Some (mkCpd 0xC0 0x03 16)) in
  let small := mkCpd 0xC0 0x03 1 in
  let good := mkCpd 0xC0 0x03 16 in
  let c' := result_conn (_finishAccept e good RDMAConnection_new)
              RDMAConnection_new in
  depth small < 2 /\
  (exists c1 : Conn,
      _finishAccept e small RDMAConnection_new =
        Some (false, close (snd (_reject e c1))) /\
      _state (close (snd (_reject e c1))) = STATE_CLOSED /\
      (e_reject_ok e = true ->
       _trace (snd (_reject e c1)) = _trace c1 ++ [c_rdma_reject])) /\
  _finishAccept e good RDMAConnection_new = Some (true, c') /\
  2 <= depth good /\ _depth c' = depth good /\ _state c' = STATE_CONNECTED.
Proof.
  intros e small good c'.
  assert (H1 : depth small < 2) by (vm_compute; reflexivity).
  assert (H2 : _finishAccept e good RDMAConnection_new = Some (true, c'))
    by (apply result_eq; vm_compute; reflexivity).
  split; [exact H1 |].
  split; [exact (proj1 finishAccept_depth e small RDMAConnection_new H1) |].
  split; [exact H2 |].
  exact (proj2 finishAccept_depth e good RDMAConnection_new c' H2).
Defined.

(** The immediate data theorem on the sample run: 20 pending FC messages
    and a write of three bytes. *)
Lemma rdma_write_immediate_limits_witness :
  let c := set_fcs 20 sample_connected in
  let imm := fst (_makeImm 1000 c) in
  let r := write [tick_idle] [1; 2; 3] 3 sample_connected in
  let c' := result_conn r sample_connected in
  (0 <= 1000 <= MAX_BS /\ 0 <= _fcs c < 2 ^ 31) /\
  (bytes_sent (imm_of_val (ntohl imm)) = 1000 /\
   fcs_received (imm_of_val (ntohl imm)) = Z.min MAX_FC (u16 (_fcs c)) /\
   _fcs (snd (_makeImm 1000 c)) + fcs_received (imm_of_val (ntohl imm)) =
     _fcs c) /\
  (0 <= 3 < 2 ^ 64 /\
   RingPtr.head (_sourceptr sample_connected) =
     RingPtr.middle (_sourceptr sample_connected) /\
   r = Some (3, c') /\ 0 <= 3) /\
  (0 < 3 <= Z.min 3 MAX_BS /\
   RingPtr.head (_sourceptr c') = RingPtr.middle (_sourceptr c') /\
   exists tr off imm' raddr,
     _trace c' = tr ++ [c_post_rdma_write off 3 imm' raddr] /\
     0 <= imm' < 2 ^ 32 /\
     bytes_sent (imm_of_val (ntohl imm')) = 3 /\
     0 <= fcs_received (imm_of_val (ntohl imm')) <= MAX_FC).
Proof.
  intros c imm r c'.
  assert (Hb : 0 <= 1000 <= MAX_BS) by (vm_compute; split; discriminate).
  assert (Hf : 0 <= _fcs c < 2 ^ 31)
    by (vm_compute; split; [discriminate | reflexivity]).
  assert (Hbytes : 0 <= 3 < 2 ^ 64) by lia.
  assert (Hhm : RingPtr.head (_sourceptr sample_connected) =
                RingPtr.middle (_sourceptr sample_connected))
    by (vm_compute; reflexivity).
  assert (Hr : r = Some (3, c')) by (apply result_eq; vm_compute; reflexivity).
  assert (Hn : 0 <= 3) by lia.
  pose proof (proj1 (proj2 (proj2 rdma_write_immediate_limits)) 1000 c Hb Hf)
    as W1.
  cbv zeta in W1. destruct W1 as (_ & _ & _ & W1b & W1f & _ & _ & W1c & _).
  pose proof (proj2 (proj2 (proj2 rdma_write_immediate_limits))
                [tick_idle] [1; 2; 3] 3 sample_connected 3 c' Hbytes Hhm Hr Hn)
    as W2.
  split; [exact (conj Hb Hf) |].
  split; [exact (conj W1b (conj W1f W1c)) |].
  split; [exact (conj Hbytes (conj Hhm (conj Hr Hn))) |].
  exact W2.
Defined.




(** The ring access theorem on rings of 8 bytes: a drain of 4 bytes at
    offset 6 wraps, a fill of 4 bytes at offset 6 stops after 2. *)
Lemma ring_access_flat_slices_witness :
  let b := _sinkbuf small_rings in
  (0 <= 6 < RingBuffer.size b /\ 0 <= 4 <= RingBuffer.size b) /\
  (RingBuffer.read b 6 4 = RingBuffer.read_circular b 6 4 /\
   RingBuffer.read b 6 4 = [7; 8; 1; 2]) /\
  (ring_ok (_sinkbuf small_rings) (_sinkptr small_rings) /\ 0 <= 4) /\
  (fst (fst (_drain 4 small_rings)) = 4 /\
   snd (fst (_drain 4 small_rings)) =
     RingBuffer.read_circular b (RingPtr.tail (_sinkptr small_rings)) 4 /\
   snd (fst (_drain 4 small_rings)) = [7; 8; 1; 2]) /\
  (ring_ok (_sourcebuf small_rings) (_sourceptr small_rings) /\
   0 <= 4 <= Z.of_nat (List.length [1; 2; 3; 4])) /\
  (fst (_fill [1; 2; 3; 4] 4 small_rings) = 2 /\
   RingPtr.ptr (_sourceptr small_rings) RingPtr.HEAD +
     fst (_fill [1; 2; 3; 4] 4 small_rings) <=
   RingBuffer.size (_sourcebuf small_rings)).
Proof.
  intros b.
  assert (Ho : 0 <= 6 < RingBuffer.size b)
    by (vm_compute; split; [discriminate | reflexivity]).
  assert (Hn : 0 <= 4 <= RingBuffer.size b)
    by (vm_compute; split; discriminate).
  assert (Hk : ring_ok (_sinkbuf small_rings) (_sinkptr small_rings)).
  { unfold ring_ok. vm_compute.
    repeat split; try discriminate; try reflexivity. }
  assert (H4 : 0 <= 4) by lia.
  assert (Hs : ring_ok (_sourcebuf small_rings) (_sourceptr small_rings)).
  { unfold ring_ok. vm_compute.
    repeat split; try discriminate; try reflexivity. }
  assert (Hb : 0 <= 4 <= Z.of_nat (List.length [1; 2; 3; 4]))
    by (vm_compute; split; discriminate).
  pose proof (proj1 ring_access_flat_slices b 6 4 Ho Hn) as (_ & _ & W1).
  pose proof (proj1 (proj2 ring_access_flat_slices) 4 small_rings Hk H4) as W2.
  cbv zeta in W2. destruct W2 as (_ & _ & _ & W2c & _).
  pose proof (proj2 (proj2 ring_access_flat_slices) [1; 2; 3; 4] 4
                small_rings Hs Hb) as W3.
  cbv zeta in W3. destruct W3 as (_ & _ & W3b & _).
  split; [exact (conj Ho Hn) |].
  split; [split; [exact W1 | vm_compute; reflexivity] |].
  split; [exact (conj Hk H4) |].
  split; [split; [vm_compute; reflexivity
                 | split; [exact W2c | vm_compute; reflexivity]] |].
  split; [exact (conj Hs Hb) |].
  split; [vm_compute; reflexivity | exact W3b].
Defined.

(** * Further properties of the connection code *)

(** ** What the setup steps preserve

    As for the polling code: a relation respected by every member update a
    step makes is respected by the step. *)
Section SetupFrame.

Variable R : Conn -> Conn -> Prop.
Hypothesis R_refl : forall c, R c c.
Hypothesis R_trans : forall a b c, R a b -> R b c -> R a c.
Hypothesis R_sinkptr : forall v c, R c (set_sinkptr v c).
Hypothesis R_sourceptr : forall v c, R c (set_sourceptr v c).
Hypothesis R_sinkbuf : forall v c, R c (set_sinkbuf v c).
Hypothesis R_sourcebuf : forall v c, R c (set_sourcebuf v c).
Hypothesis R_msgbuf : forall v c, R c (set_msgbuf v c).
Hypothesis R_pipe : forall v c, R c (set_pipe v c).
Hypothesis R_pipe_fd : forall v c, R c (set_pipe_fd v c).
Hypothesis R_depth : forall v c, R c (set_depth v c).
Hypothesis R_fcredits : forall v c, R c (set_fcredits v c).
Hypothesis R_wcredits : forall v c, R c (set_wcredits v c).
Hypothesis R_writes : forall v c, R c (set_writes v c).
Hypothesis R_fcs : forall v c, R c (set_fcs v c).
Hypothesis R_rptr : forall v c, R c (set_rptr v c).
Hypothesis R_rbase : forall v c, R c (set_rbase v c).
Hypothesis R_rkey : forall v c, R c (set_rkey v c).
Hypothesis R_trace : forall v c, R c (set_trace v c).
Hypothesis R_completions : forall v c, R c (set_completions v c).
Hypothesis R_established : forall v c, R c (set_established v c).
Hypothesis R_cpd : forall v c, R c (set_cpd v c).
Hypothesis R_new_cm_id : forall v c, R c (set_new_cm_id v c).
Hypothesis R_rai : forall v c, R c (set_rai v c).
Hypothesis R_notifier : forall v c, R c (set_notifier v c).
Hypothesis R_cm : forall v c, R c (set_cm v c).
Hypothesis R_cm_id : forall v c, R c (set_cm_id v c).
Hypothesis R_pd : forall v c, R c (set_pd v c).
Hypothesis R_cc : forall v c, R c (set_cc v c).
Hypothesis R_cq : forall v c, R c (set_cq v c).
Hypothesis R_wcs : forall v c, R c (set_wcs v c).

Lemma S_lookupAddress e c : R c (snd (_lookupAddress e c)).
Proof.
  unfold _lookupAddress.
  destruct (e_hostname_empty e), (e_getaddrinfo_ok e); cbn; auto.
Qed.

Lemma S_createNotifier e c : R c (snd (_createNotifier e c)).
Proof. unfold _createNotifier. destruct (e_epoll_create_ok e); cbn; auto. Qed.

Lemma S_createEventChannel e c : R c (snd (_createEventChannel e c)).
Proof.
  unfold _createEventChannel.
  destruct (e_create_event_channel_ok e), (e_cm_epoll_ctl_ok e); cbn; auto.
Qed.

Lemma S_createId e c : R c (snd (_createId e c)).
Proof. unfold _createId. destruct (e_create_id_ok e); cbn; auto. Qed.

Lemma S_initProtocol d c : R c (snd (_initProtocol d c)).
Proof.
  unfold _initProtocol. destruct (d <? 2); cbn [snd]; [auto |].
  eapply R_trans; [| apply R_fcredits].
  eapply R_trans; [| apply R_wcredits].
  eapply R_trans; [| apply R_fcs].
  eapply R_trans; [| apply R_writes]. apply R_depth.
Qed.

Lemma S_initVerbs e c : R c (snd (_initVerbs e c)).
Proof.
  unfold _initVerbs.
  destruct (e_alloc_pd_ok e); cbn [negb snd]; [| auto].
  destruct (e_create_comp_channel_ok e); cbn [negb snd]; [| auto].
  destruct (e_cc_epoll_ctl_ok e); cbn [negb snd];
    [| eapply R_trans; [apply R_pd | apply R_cc]].
  destruct (e_create_cq_ok e); cbn [negb snd];
    [| eapply R_trans; [apply R_pd | apply R_cc]].
  assert (H : R c (set_cq true (set_cc true (set_pd true c)))).
  { eapply R_trans; [| apply R_cq].
    eapply R_trans; [apply R_pd | apply R_cc]. }
  destruct (e_req_notify_ok e); cbn [negb snd]; [| exact H].
  eapply R_trans; [exact H | apply R_wcs].
Qed.

Lemma S_createBytesAvailableFD e c : R c (snd (_createBytesAvailableFD e c)).
Proof.
  unfold _createBytesAvailableFD.
  assert (H : R c (set_pipe [] (set_pipe_fd true c)))
    by (eapply R_trans; [apply R_pipe_fd | apply R_pipe]).
  destruct (e_pipe_ok e), (e_pipe_epoll_ctl_ok e); cbn; auto.
Qed.

Lemma S_log l c : R c (log l c).
Proof. apply R_trace. Qed.

Lemma S_initBuffers e c : R c (snd (_initBuffers e c)).
Proof.
  unfold _initBuffers.
  destruct (u64 (1024 * 1024 * IATTR_RDMA_RING_BUFFER_SIZE_MB e) =? 0);
    [apply R_refl |].
  destruct (RingBuffer.resize _ _ _) as [[ok1 b1] l1].
  assert (H1 : R c (log l1 (set_sourcebuf b1 c)))
    by (eapply R_trans; [apply R_sourcebuf | apply S_log]).
  destruct ok1; cbn [negb snd]; [| exact H1].
  destruct (RingBuffer.resize _ _ _) as [[ok2 b2] l2].
  set (c1 := log l1 (set_sourcebuf b1 c)) in *.
  assert (H2 : R c (log l2 (set_sinkbuf b2 c1))).
  { eapply R_trans; [exact H1 |].
    eapply R_trans; [apply R_sinkbuf | apply S_log]. }
  destruct ok2; cbn [negb snd]; [| exact H2].
  set (c2 := log l2 (set_sinkbuf b2 c1)) in *.
  destruct (BufferPool.resize _ _ _) as [[ok3 p3] l3]. cbn [snd].
  eapply R_trans; [exact H2 |].
  eapply R_trans; [| apply S_log].
  eapply R_trans; [| apply R_msgbuf].
  eapply R_trans; [apply R_sourceptr | apply R_sinkptr].
Qed.

Lemma S_postReceives ok n c : R c (snd (_postReceives ok n c)).
Proof. unfold _postReceives. destruct ok; cbn; auto using S_log. Qed.


Lemma S_doCMEvent expected ev c : R c (snd (_doCMEvent expected ev c)).
Proof.
  destruct ev as [[ty d] |]; cbn; [| auto].
  destruct ty, expected; cbn; auto;
    (eapply R_trans; [| apply R_cpd]); auto.
Qed.

Lemma S_waitForCMEvent expected ticks c r c' :
  _waitForCMEvent expected ticks c = Some (r, c') -> R c c'.
Proof.
  revert c. induction ticks as [| t ticks IH]; intros c; cbn; [discriminate |].
  destruct (_checkEvents t c) as [ev |]; [| intros [= <- <-]; auto].
  assert (H : R c (snd (if CM_EVENT ev
                        then _doCMEvent expected (t_cm_event t) c
                        else (false, c))))
    by (destruct (CM_EVENT ev); [apply S_doCMEvent | apply R_refl]).
  destruct (if CM_EVENT ev then _doCMEvent expected (t_cm_event t) c
            else (false, c)) as [done c1]. cbn [snd] in H.
  destruct (CM_EVENT ev && negb done); [intros [= <- <-]; exact H |].
  destruct done; [intros [= <- <-]; exact H |].
  destruct (t_expired t); [intros [= <- <-]; exact H |].
  intros H2. eapply R_trans; [exact H | now apply IH].
Qed.

Lemma S_resolveAddress e c r c' :
  _resolveAddress e c = Some (r, c') -> R c c'.
Proof.
  unfold _resolveAddress. destruct (negb (e_resolve_addr_ok e));
    [intros [= <- <-]; auto | apply S_waitForCMEvent].
Qed.

Lemma S_resolveRoute e c r c' :
  _resolveRoute e c = Some (r, c') -> R c c'.
Proof.
  unfold _resolveRoute. destruct (e_ib_route e); [intros [= <- <-]; auto |].
  destruct (negb (e_resolve_route_ok e));
    [intros [= <- <-]; auto | apply S_waitForCMEvent].
Qed.

Lemma S_connect e c r c' : _connect e c = Some (r, c') -> R c c'.
Proof.
  unfold _connect. destruct (negb (e_connect_ok e));
    [intros [= <- <-]; auto |].
  intros H. apply S_waitForCMEvent in H.
  eapply R_trans; [| exact H].
  eapply R_trans; [apply R_cpd | apply S_log].
Qed.

Lemma S_accept e c r c' : _accept e c = Some (r, c') -> R c c'.
Proof.
  unfold _accept. destruct (negb (e_accept_ok e));
    [intros [= <- <-]; auto |].
  intros H. apply S_waitForCMEvent in H.
  eapply R_trans; [| exact H].
  eapply R_trans; [apply R_cpd | apply S_log].
Qed.

Lemma S_waitRecvSetup ticks c r c' :
  _waitRecvSetup ticks c = Some (r, c') -> R c c'.
Proof.
  assert (Hst : forall n c0,
            R c0 (set_sourceptr (RingPtr.incrTail (_sourceptr c0) n) c0))
    by (intros; apply R_sourceptr).
  revert c. induction ticks as [| t ticks IH]; intros c; cbn; [discriminate |].
  assert (H1 : R c (snd (_checkDisconnected t c)))
    by (apply R_checkDisconnected; assumption).
  destruct (_checkDisconnected t c) as [[ok1 ev] c1]; cbn in H1.
  destruct ok1; cbn; [| intros [= <- <-]; exact H1].
  destruct (_established c1); cbn; [| intros [= <- <-]; exact H1].
  assert (H2 : R c1 (snd (_checkCQ true t c1)))
    by (apply R_checkCQ; assumption).
  destruct (_checkCQ true t c1) as [ok2 c2]; cbn in H2.
  assert (H12 : R c c2) by (eapply R_trans; eauto).
  destruct ok2; cbn; [| intros [= <- <-]; exact H12].
  destruct (_rkey c2 =? 0); [| intros [= <- <-]; exact H12].
  destruct (t_expired t); [intros [= <- <-]; exact H12 |].
  intros H. eapply R_trans; [exact H12 | now apply IH].
Qed.

Lemma S_and_then (s k : Step) :
  (forall c r c', s c = Some (r, c') -> R c c') ->
  (forall c r c', k c = Some (r, c') -> R c c') ->
  forall c r c', and_then s k c = Some (r, c') -> R c c'.
Proof.
  intros Hs Hk c r c'. unfold and_then.
  destruct (s c) as [[[|] c1] |] eqn:E; [| | discriminate].
  - intros H. eapply R_trans; [eapply Hs; exact E | eapply Hk; exact H].
  - intros [= <- <-]. eapply Hs; exact E.
Qed.

Lemma S_lift (f : Conn -> bool * Conn) :
  (forall c, R c (snd (f c))) ->
  forall c r c', lift f c = Some (r, c') -> R c c'.
Proof.
  intros Hf c r c' H. apply lift_inv in H. destruct H as [_ ->]. apply Hf.
Qed.

Lemma S_const (f : Conn -> bool) (c : Conn) (r : bool) (c' : Conn) :
  Some (f c, c) = Some (r, c') -> R c c'.
Proof. intros [= <- <-]. apply R_refl. Qed.

Lemma S_connect_setup e c r c' :
  connect_setup e c = Some (r, c') -> R c c'.
Proof.
  revert c r c'. unfold connect_setup.
  repeat apply S_and_then;
    try (apply S_lift; intros c;
         first [ apply S_lookupAddress | apply S_createNotifier
               | apply S_createEventChannel | apply S_createId
               | apply S_initProtocol | apply S_initVerbs
               | apply S_createBytesAvailableFD | apply S_initBuffers
               | apply R_refl ]).
  - intros c r c'. pose proof (S_lookupAddress e c) as H.
    destruct (_lookupAddress e c) as [ok c1]. intros [= <- <-]. exact H.
  - apply S_resolveAddress.
  - apply S_resolveRoute.
  - intros c r c' H.
    pose proof (S_postReceives (e_post_recv_ok e) (u32 (_depth c)) c) as H1.
    destruct (_postReceives _ _ c) as [ok c1]. injection H as <- <-. exact H1.
  - apply S_connect.
Qed.

Lemma S_postSetup ok b k c : R c (snd (_postSetup ok b k c)).
Proof. apply R_postSetup; assumption. Qed.

Lemma S_connect_steps_false e c c' :
  connect_steps e c = Some (false, c') -> R c c'.
Proof.
  unfold connect_steps. intros H.
  unfold and_then at 1 in H.
  destruct (connect_setup e c) as [[[|] c1] |] eqn:E1; [| | discriminate].
  2:{ injection H as <-. eapply S_connect_setup; exact E1. }
  apply S_connect_setup in E1.
  unfold and_then at 1 in H.
  destruct (protocol_match (_cpd c1)); [| injection H as <-; exact E1].
  unfold and_then at 1 in H.
  destruct (lift _ c1) as [[[|] c2] |] eqn:E2; [| | discriminate].
  2:{ injection H as <-. eapply R_trans; [exact E1 |].
      revert E2. apply S_lift. intros. apply S_postSetup. }
  assert (H2 : R c1 c2)
    by (revert E2; apply S_lift; intros; apply S_postSetup).
  unfold and_then in H.
  destruct (_waitRecvSetup _ c2) as [[[|] c3] |] eqn:E3; try discriminate.
  injection H as <-. apply S_waitRecvSetup in E3.
  eapply R_trans; [exact E1 |]. eapply R_trans; [exact H2 | exact E3].
Qed.



Lemma S_listen_steps_false e l c c' :
  listen_steps e l c = Some (false, c') -> R c c'.
Proof.
  unfold listen_steps. intros H.
  repeat (unfold and_then at 1 in H;
          match type of H with
          | match lift ?f ?x with _ => _ end = _ =>
              let E := fresh "E" in
              let c1 := fresh "c1" in
              destruct (lift f x) as [[[|] c1] |] eqn:E;
              [ apply S_lift in E;
                [ eapply R_trans; [exact E |]; clear E
                | intros;
                  first [ apply S_lookupAddress | apply S_createNotifier
                        | apply S_createEventChannel | apply S_createId
                        | apply R_refl ] ]
              | apply S_lift in E;
                [ injection H as <-; exact E
                | intros;
                  first [ apply S_lookupAddress | apply S_createNotifier
                        | apply S_createEventChannel | apply S_createId
                        | apply R_refl ] ]
              | discriminate ]
          end).
  discriminate.
Qed.

Lemma S_fill buffer bytes c : R c (snd (_fill buffer bytes c)).
Proof.
  unfold _fill. cbn [snd].
  eapply R_trans; [apply R_sourcebuf | apply R_sourceptr].
Qed.

Lemma S_postRDMAWrite ok c : R c (snd (_postRDMAWrite ok c)).
Proof.
  unfold _postRDMAWrite, _makeImm.
  match goal with
  | |- R c (snd (if ok then (true, log ?l ?x) else (false, ?y))) =>
      assert (H : R c x);
      [| destruct ok; cbn [snd];
         [eapply R_trans; [exact H | apply S_log] | exact H]]
  end.
  eapply R_trans; [| apply R_wcredits].
  eapply R_trans; [| apply R_rptr].
  eapply R_trans; [apply R_sourceptr | apply R_fcs].
Qed.

Lemma S_write_retry ticks buffer can_put c n c' :
  write_retry ticks buffer can_put c = Some (n, c') -> R c c'.
Proof.
  assert (Hst : forall m c0,
            R c0 (set_sourceptr (RingPtr.incrTail (_sourceptr c0) m) c0))
    by (intros; apply R_sourceptr).
  revert c. induction ticks as [| t ticks IH]; intros c; cbn [write_retry]; [discriminate |].
  assert (H1 : R c (snd (_checkDisconnected t c)))
    by (apply R_checkDisconnected; assumption).
  destruct (_checkDisconnected t c) as [[ok1 ev] c1]; cbn in H1.
  destruct ok1; cbn [negb]; [| intros [= <- <-]; exact H1].
  destruct (_established c1); cbn [negb]; [| intros [= <- <-]; exact H1].
  assert (H2 : R c1 (snd (_checkCQ false t c1)))
    by (apply R_checkCQ; assumption).
  destruct (_checkCQ false t c1) as [ok2 c2]; cbn in H2.
  assert (H12 : R c c2) by (eapply R_trans; eauto).
  destruct ok2; cbn [negb]; [| intros [= <- <-]; exact H12].
  destruct (0 =? _wcredits c2).
  { destruct (t_expired t); [intros [= <- <-]; exact H12 |].
    intros H. eapply R_trans; [exact H12 | now apply IH]. }
  pose proof (S_fill buffer can_put c2) as H3.
  destruct (_fill buffer can_put c2) as [put c3]. cbn [snd] in H3.
  assert (H13 : R c c3) by (eapply R_trans; eauto).
  destruct (0 =? put).
  { destruct (t_expired t); [intros [= <- <-]; exact H13 |].
    intros H. eapply R_trans; [exact H13 | now apply IH]. }
  pose proof (S_postRDMAWrite (t_post_send_ok t) c3) as H4.
  destruct (_postRDMAWrite (t_post_send_ok t) c3) as [ok4 c4]. cbn [snd] in H4.
  assert (H14 : R c c4) by (eapply R_trans; eauto).
  destruct ok4; cbn [negb]; intros [= <- <-]; exact H14.
Qed.

End SetupFrame.

(** ** Setup and teardown *)

Ltac state_side :=
  let x := fresh "x" in
  first
    [ solve [ intros; reflexivity ]
    | solve [ intros ? x; destruct x; reflexivity ]
    | solve [ unfold state_frame, pipe_fd_frame; intros; congruence ] ].

Lemma state_connect_steps_false e c c' :
  connect_steps e c = Some (false, c') -> state_frame c c'.
Proof. apply S_connect_steps_false; state_side. Qed.



Lemma state_listen_steps_false e l c c' :
  listen_steps e l c = Some (false, c') -> state_frame c c'.
Proof. apply S_listen_steps_false; state_side. Qed.


Lemma close_open_released c :
  _state c <> STATE_CLOSED -> _state (close c) = STATE_CLOSED /\ released (close c).
Proof.
  intros H. split; [apply close_state |].
  apply close_released. intros H1. contradiction.
Qed.

(** X1. A [connect] that fails after it started the setup (the connection
    was closed and has a port) leaves the connection closed with every
    handle and buffer given back, whichever step failed. *)
Theorem connect_failure_releases (e : Env) (c c' : Conn) :
  _state c = STATE_CLOSED -> _port c <> 0 ->
  connect e c = Some (false, c') ->
  _state c' = STATE_CLOSED /\ released c'.
Proof.
  intros Hs Hp. unfold connect. rewrite Hs. cbn [State_eqb negb].
  destruct (0 =? _port c) eqn:E; [apply Z.eqb_eq in E; congruence |].
  destruct (connect_steps e _) as [[[|] c1] |] eqn:E1; try discriminate.
  intros [= <-]. apply state_connect_steps_false in E1.
  unfold state_frame in E1. rewrite setState_state in E1.
  apply close_open_released. rewrite E1. discriminate.
Qed.


Lemma listen_steps_total e l c :
  exists r c', listen_steps e l c = Some (r, c').
Proof.
  unfold listen_steps, and_then, lift, _lookupAddress, _createNotifier,
    _createEventChannel, _createId, _bindAddress, _listen.
  destruct (e_hostname_empty e), (e_getaddrinfo_ok e), (e_epoll_create_ok e),
    (e_create_event_channel_ok e), (e_cm_epoll_ctl_ok e), (e_create_id_ok e),
    (l_bind_ok l), (l_listen_ok l); cbn [negb]; eauto.
Qed.

Lemma listen_steps_true e l c c' :
  listen_steps e l c = Some (true, c') <->
  (e_hostname_empty e || e_getaddrinfo_ok e) && e_epoll_create_ok e &&
  e_create_event_channel_ok e && e_cm_epoll_ctl_ok e && e_create_id_ok e &&
  l_bind_ok l && l_listen_ok l = true /\
  c' = setState STATE_LISTENING
         (set_cm_id true (set_cm true (set_notifier true
            (snd (_lookupAddress e c))))).
Proof.
  unfold listen_steps, and_then, lift, _lookupAddress, _createNotifier,
    _createEventChannel, _createId, _bindAddress, _listen.
  destruct (e_hostname_empty e), (e_getaddrinfo_ok e), (e_epoll_create_ok e),
    (e_create_event_channel_ok e), (e_cm_epoll_ctl_ok e), (e_create_id_ok e),
    (l_bind_ok l), (l_listen_ok l); cbn [negb orb andb snd];
    (split; [intros [= <-]; split; reflexivity
            | intros [H ->]; first [discriminate H | reflexivity]])
    || (split; [discriminate | intros [H _]; discriminate H]).
Qed.

(** X3. [listen] always returns.  From a closed connection it succeeds
    exactly when the address lookup, the notifier, the event channel, the
    identifier, the bind and the listen call all succeed, and then the
    connection is listening with its notifier, event channel and identifier
    in place; when it fails the connection is closed again with everything
    given back.  On a connection that is not closed it fails and changes
    nothing. *)
Theorem listen_outcome (e : Env) (l : ListenEnv) (c : Conn) :
  exists (r : bool) (c' : Conn),
    listen e l c = Some (r, c') /\
    (_state c <> STATE_CLOSED -> r = false /\ c' = c) /\
    (_state c = STATE_CLOSED ->
       (r = true <->
        (e_hostname_empty e || e_getaddrinfo_ok e) && e_epoll_create_ok e &&
        e_create_event_channel_ok e && e_cm_epoll_ctl_ok e && e_create_id_ok e &&
        l_bind_ok l && l_listen_ok l = true) /\
       (r = true ->
        _state c' = STATE_LISTENING /\ _notifier c' = true /\
        _cm c' = true /\ _cm_id c' = true) /\
       (r = false -> _state c' = STATE_CLOSED /\ released c')).
Proof.
  unfold listen.
  destruct (State_eqb STATE_CLOSED (_state c)) eqn:Es; cbn [negb].
  2:{ exists false, c. split; [reflexivity |]. split; [auto |].
      intros H. rewrite H in Es. discriminate. }
  apply State_eqb_eq in Es. symmetry in Es.
  set (c0 := setState STATE_CONNECTING (_cleanup c)).
  assert (H0 : _state c0 = STATE_CONNECTING) by apply setState_state.
  destruct (listen_steps_total e l c0) as (r & c1 & E).
  rewrite E. destruct r.
  - exists true, c1. split; [reflexivity |].
    split; [intros H; congruence |]. intros _.
    apply listen_steps_true in E. destruct E as [Hok ->].
    split; [tauto |]. split; [| discriminate]. intros _.
    split; [apply setState_state |].
    unfold setState.
    destruct (State_eqb _ _); destruct (snd (_lookupAddress e c0));
      repeat split.
  - exists false, (close c1). split; [reflexivity |].
    split; [intros H; congruence |]. intros _.
    split.
    { split; [discriminate |]. intros Hok.
      assert (Ht : listen_steps e l c0 = Some (true,
                setState STATE_LISTENING
                  (set_cm_id true (set_cm true (set_notifier true
                     (snd (_lookupAddress e c0)))))))
        by (apply listen_steps_true; split; [exact Hok | reflexivity]).
      rewrite Ht in E. discriminate. }
    split; [discriminate |]. intros _.
    apply state_listen_steps_false in E. unfold state_frame in E.
    apply close_open_released. rewrite E, H0. discriminate.
Qed.

(** A failing setup of the sample connection. *)
Lemma connect_failure_releases_witness :
  _state (result_conn (connect sample_env_fail sample_conn) sample_conn)
    = STATE_CLOSED /\
  released (result_conn (connect sample_env_fail sample_conn) sample_conn).
Proof.
  apply (connect_failure_releases sample_env_fail sample_conn).
  - reflexivity.
  - discriminate.
  - apply result_eq. vm_compute. reflexivity.
Defined.

Ltac field_side :=
  let x := fresh "x" in
  first
    [ solve [ intros; reflexivity ]
    | solve [ intros ? x; destruct x; reflexivity ]
    | solve [ unfold established_frame, rkey_frame; intros; congruence ] ].

Lemma established_checkCQ d t c : established_frame c (snd (_checkCQ d t c)).
Proof. apply R_checkCQ; field_side. Qed.

Lemma established_postSetup ok b k c :
  established_frame c (snd (_postSetup ok b k c)).
Proof. apply R_postSetup; field_side. Qed.

Lemma rkey_postSetup ok b k c : rkey_frame c (snd (_postSetup ok b k c)).
Proof. apply R_postSetup; field_side. Qed.

Lemma setState_other s c :
  _established (setState s c) = _established c /\
  _rkey (setState s c) = _rkey c /\
  _pipe_fd (setState s c) = _pipe_fd c /\
  _port (setState s c) = _port c /\
  _trace (setState s c) = _trace c.
Proof.
  unfold setState. destruct (State_eqb _ _); destruct c; repeat split.
Qed.

Lemma _waitRecvSetup_true ticks c c' :
  _waitRecvSetup ticks c = Some (true, c') ->
  _established c' = true /\ _rkey c' <> 0.
Proof.
  revert c. induction ticks as [| t ticks IH]; intros c; cbn; [discriminate |].
  destruct (_checkDisconnected t c) as [[ok1 ev] c1].
  destruct ok1; cbn; [| discriminate].
  destruct (_established c1) eqn:Ee; cbn; [| discriminate].
  pose proof (established_checkCQ true t c1) as H2.
  destruct (_checkCQ true t c1) as [ok2 c2]; cbn in H2.
  unfold established_frame in H2.
  destruct ok2; cbn; [| discriminate].
  destruct (_rkey c2 =? 0) eqn:Ek.
  - destruct (t_expired t); [discriminate | apply IH].
  - intros [= <-]. split; [congruence |]. now apply Z.eqb_neq.
Qed.

(** X4. [_waitForCMEvent] returns true exactly when, after turns in which
    nothing happened, the connection manager delivers an event of the
    expected type; the connection is then the one it was on entry, updated
    by that one event. *)
Theorem waitForCMEvent_true_iff (expected : rdma_cm_event_type)
    (ticks : list Tick) (c c' : Conn) :
  _waitForCMEvent expected ticks c = Some (true, c') <->
  exists (pre : list Tick) (t : Tick) (post : list Tick)
         (d : option RDMAConnParamData),
    ticks = pre ++ t :: post /\
    Forall (idle_tick c) pre /\
    t_epoll_ok t = true /\ _cm c && t_cm_ready t = true /\
    t_cm_event t = Some (mkCmEvent expected d) /\
    c' = snd (_doCMEvent expected (Some (mkCmEvent expected d)) c).
Proof.
  revert c c'. induction ticks as [| t ticks IH]; intros c c'.
  { split; [discriminate |].
    intros (pre & t & post & d & H & _). destruct pre; discriminate. }
  cbn [_waitForCMEvent]. unfold _checkEvents.
  destruct (t_epoll_ok t) eqn:Ep; cbn [negb CM_EVENT].
  2:{ split; [discriminate |].
      intros (pre & t1 & post & d & H & Hpre & Hep & _).
      destruct pre as [| p pre]; cbn in H; injection H as -> ->.
      - congruence.
      - inversion Hpre as [| ? ? [Hp _] _]. congruence. }
  destruct (_cm c && t_cm_ready t) eqn:Ec.
  - destruct (_doCMEvent expected (t_cm_event t) c) as [done c1] eqn:Ed.
    destruct done; cbn [andb negb].
    + assert (Hev : exists d, t_cm_event t = Some (mkCmEvent expected d)).
      { unfold _doCMEvent in Ed. destruct (t_cm_event t) as [[ty d] |];
          [| discriminate].
        cbn [event] in Ed. injection Ed as Ht _.
        exists d. f_equal. f_equal.
        destruct ty, expected; try discriminate; reflexivity. }
      destruct Hev as [d Hev].
      split.
      * intros [= <-]. exists [], t, ticks, d.
        repeat split; auto. rewrite <- Hev, Ed. reflexivity.
      * intros (pre & t1 & post & d1 & H & Hpre & Hep & Hc & He & ->).
        destruct pre as [| p pre]; cbn in H; injection H as -> ->.
        -- rewrite <- He, Ed. reflexivity.
        -- inversion Hpre as [| ? ? [_ [Hp _]] _]. congruence.
    + split; [discriminate |].
      intros (pre & t1 & post & d1 & H & Hpre & Hep & Hc & He & ->).
      destruct pre as [| p pre]; cbn in H; injection H as -> ->.
      * rewrite He in Ed. unfold _doCMEvent in Ed. cbn [event] in Ed.
        injection Ed as Ht _. destruct expected; discriminate.
      * inversion Hpre as [| ? ? [_ [Hp _]] _]. congruence.
  - cbn [andb]. destruct (t_expired t) eqn:Ex.
    + split; [discriminate |].
      intros (pre & t1 & post & d1 & H & Hpre & Hep & Hc & He & ->).
      destruct pre as [| p pre]; cbn in H; injection H as -> ->.
      * congruence.
      * inversion Hpre as [| ? ? [_ [_ Hp]] _]. congruence.
    + rewrite IH. split.
      * intros (pre & t1 & post & d1 & -> & Hpre & Hep & Hc & He & ->).
        exists (t :: pre), t1, post, d1. repeat split; auto.
        constructor; [repeat split; assumption | assumption].
      * intros (pre & t1 & post & d1 & H & Hpre & Hep & Hc & He & ->).
        destruct pre as [| p pre]; cbn in H; injection H as -> ->.
        -- congruence.
        -- exists pre, t1, post, d1. inversion Hpre; subst.
           repeat split; auto.
Qed.

Ltac pipe_fd_side :=
  let x := fresh "x" in
  first
    [ solve [ intros; reflexivity ]
    | solve [ intros ? x; destruct x; reflexivity ]
    | solve [ unfold pipe_fd_frame, depth_frame; intros; congruence ] ].

Lemma pipe_fd_initBuffers e c : pipe_fd_frame c (snd (_initBuffers e c)).
Proof. apply S_initBuffers; pipe_fd_side. Qed.

Lemma pipe_fd_resolveRoute e c r c' :
  _resolveRoute e c = Some (r, c') -> pipe_fd_frame c c'.
Proof. apply S_resolveRoute; pipe_fd_side. Qed.

Lemma depth_resolveRoute e c r c' :
  _resolveRoute e c = Some (r, c') -> depth_frame c c'.
Proof. apply S_resolveRoute; pipe_fd_side. Qed.

Lemma pipe_fd_postReceives ok n c : pipe_fd_frame c (snd (_postReceives ok n c)).
Proof. apply S_postReceives; pipe_fd_side. Qed.

Lemma pipe_fd_connect e c r c' :
  _connect e c = Some (r, c') -> pipe_fd_frame c c'.
Proof. apply S_connect; pipe_fd_side. Qed.

Lemma pipe_fd_accept e c r c' :
  _accept e c = Some (r, c') -> pipe_fd_frame c c'.
Proof. apply S_accept; pipe_fd_side. Qed.

Lemma pipe_fd_postSetup ok b k c : pipe_fd_frame c (snd (_postSetup ok b k c)).
Proof. apply S_postSetup; pipe_fd_side. Qed.

Lemma pipe_fd_waitRecvSetup ticks c r c' :
  _waitRecvSetup ticks c = Some (r, c') -> pipe_fd_frame c c'.
Proof. apply S_waitRecvSetup; pipe_fd_side. Qed.

Lemma _createBytesAvailableFD_true e c :
  fst (_createBytesAvailableFD e c) = true ->
  _pipe_fd (snd (_createBytesAvailableFD e c)) = true.
Proof.
  unfold _createBytesAvailableFD.
  destruct (e_pipe_ok e), (e_pipe_epoll_ctl_ok e), c; cbn; congruence.
Qed.

(** X5. A [connect] that returns true started from a closed connection with
    a port; the connection it leaves is connected and established, runs with
    the configured queue depth, which is at least 2, holds the pipe of the
    byte counter and has received the SETUP message of the peer (the remote
    key is set). *)
Theorem connect_success (e : Env) (c c' : Conn) :
  connect e c = Some (true, c') ->
  _state c = STATE_CLOSED /\ _port c <> 0 /\
  _state c' = STATE_CONNECTED /\ _established c' = true /\
  _depth c' = IATTR_RDMA_SEND_QUEUE_DEPTH e /\ 2 <= _depth c' /\
  _pipe_fd c' = true /\ _rkey c' <> 0.
Proof.
  unfold connect.
  destruct (State_eqb STATE_CLOSED (_state c)) eqn:Es; [| discriminate].
  cbn [negb]. apply State_eqb_eq in Es.
  destruct (0 =? _port c) eqn:Ep; [discriminate |]. apply Z.eqb_neq in Ep.
  destruct (connect_steps e _) as [[[|] c2] |] eqn:E; try discriminate.
  intros [= <-]. split; [now symmetry |]. split; [congruence |].
  unfold connect_steps in E.
  apply and_then_true_inv in E. destruct E as (c1 & Hsetup & E).
  apply and_then_true_inv in E. destruct E as (c1' & Hpm & E).
  injection Hpm as Hpm <-.
  apply and_then_true_inv in E. destruct E as (c3 & Hps & E).
  apply lift_inv in Hps. destruct Hps as [_ ->].
  apply and_then_true_inv in E. destruct E as (c4 & Hw & E).
  injection E as <-.
  pose proof (_waitRecvSetup_true _ _ _ Hw) as [Hest Hrk].
  pose proof (pipe_fd_waitRecvSetup _ _ _ _ Hw) as Hpw.
  apply cpd_frame_waitRecvSetup in Hw. destruct Hw as [_ Hdw].
  destruct (setState_other STATE_CONNECTED c4) as (He & Hk & Hp & _).
  rewrite He, Hk, Hp, (proj2 (setState_frame _ _)), setState_state.
  unfold pipe_fd_frame in Hpw. rewrite Hpw, Hdw.
  rewrite (pipe_fd_postSetup _ _ _ c1),
    (proj2 (cpd_frame_postSetup _ _ _ c1)).
  clear Hpw Hdw He Hk Hp.
  unfold connect_setup in Hsetup. peel Hsetup.
  repeat match goal with
  | H : lift _ _ = Some _ |- _ => apply lift_inv in H; destruct H as [? ?]
  end.
  match goal with
  | H : Some (_postReceives ?a ?b ?x) = Some (true, ?y) |- _ =>
      assert (Hc1 : y = snd (_postReceives a b x))
        by (injection H as H; now rewrite H);
      clear H
  end.
  match goal with
  | H : _connect _ _ = Some _ |- _ =>
      pose proof (pipe_fd_connect _ _ _ _ H) as Hpc;
      apply _connect_established in H; destruct H as (_ & Hdc & _)
  end.
  match goal with
  | H : _resolveRoute _ _ = Some _ |- _ =>
      pose proof (pipe_fd_resolveRoute _ _ _ _ H) as Hpr;
      apply depth_resolveRoute in H; rename H into Hdr
  end.
  match goal with
  | H : true = fst (_initProtocol _ _) |- _ =>
      symmetry in H; apply _initProtocol_true in H; destruct H as [Hd2 Hd]
  end.
  match goal with
  | H : true = fst (_createBytesAvailableFD _ _) |- _ =>
      symmetry in H; apply _createBytesAvailableFD_true in H;
      rename H into Hfd
  end.
  unfold pipe_fd_frame in Hpc, Hpr. unfold depth_frame in Hdr.
  assert (Hdepth : _depth c1 = IATTR_RDMA_SEND_QUEUE_DEPTH e).
  { rewrite Hdc. subst. rewrite _depth_postReceives, Hdr, _depth_initBuffers,
      _depth_createBytesAvailableFD.
    unfold _createQP; cbn [snd]. rewrite _depth_initVerbs. exact Hd. }
  assert (Hpipe : _pipe_fd c1 = true).
  { rewrite Hpc. subst. rewrite (pipe_fd_postReceives _ _ _), Hpr.
    rewrite (pipe_fd_initBuffers e _). exact Hfd. }
  rewrite Hdepth, Hpipe. repeat split; auto.
Qed.

Lemma connect_success_witness :
  let c' := sample_connected in
  _state sample_conn = STATE_CLOSED /\ _port sample_conn <> 0 /\
  _state c' = STATE_CONNECTED /\ _established c' = true /\
  _depth c' = 16 /\ 2 <= _depth c' /\ _pipe_fd c' = true /\ _rkey c' <> 0.
Proof.
  apply (connect_success (sample_env (Some (mkCpd 0xC0 0x03 16))) sample_conn).
  apply result_eq. vm_compute. reflexivity.
Defined.

Lemma state_waitForCMEvent expected ticks c r c' :
  _waitForCMEvent expected ticks c = Some (r, c') -> state_frame c c'.
Proof. apply S_waitForCMEvent; state_side. Qed.

Lemma _waitForCMEvent_request ticks c c' :
  _waitForCMEvent RDMA_CM_EVENT_CONNECT_REQUEST ticks c = Some (true, c') ->
  exists t d,
    In t ticks /\
    t_cm_event t = Some (mkCmEvent RDMA_CM_EVENT_CONNECT_REQUEST d) /\
    _cpd c' = or_zero d.
Proof.
  revert c. induction ticks as [| t ticks IH]; intros c; cbn; [discriminate |].
  destruct (_checkEvents t c) as [ev |]; [| discriminate].
  destruct (CM_EVENT ev).
  - destruct (t_cm_event t) as [[ty d] |] eqn:Ev; cbn; [| discriminate].
    destruct ty; cbn; try discriminate.
    intros [= <-]. exists t, d. split; [now left |]. split; [exact Ev |].
    destruct c; reflexivity.
  - cbn. destruct (t_expired t); [discriminate |]. intros H.
    destruct (IH _ H) as (t1 & d & Hin & H1). exists t1, d.
    split; [now right | exact H1].
Qed.

Lemma _accept_established e c c1 :
  _accept e c = Some (true, c1) -> _established c1 = true.
Proof.
  unfold _accept. destruct (negb (e_accept_ok e)); [discriminate |].
  intros H. now apply _waitForCMEvent_established in H.
Qed.

Lemma _finishAccept_link e cpd c c' :
  _finishAccept e cpd c = Some (true, c') ->
  _established c' = true /\ _rkey c' <> 0.
Proof.
  unfold _finishAccept.
  destruct (accept_steps_reject _ _ _) as [[[|] c1] |] eqn:E1;
    try discriminate.
  destruct (accept_steps e c1) as [[[|] c2] |] eqn:E2; try discriminate.
  intros [= <-]. clear E1.
  unfold accept_steps in E2. peel E2.
  apply lift_inv in E2. destruct E2 as [_ ->].
  match goal with
  | H : _waitRecvSetup _ _ = Some _ |- _ =>
      apply _waitRecvSetup_true in H; destruct H as [He Hk]
  end.
  destruct (setState_other STATE_CONNECTED
              (snd (_postSetup (e_post_setup_ok e) (e_sink_base e)
                      (e_sink_rkey e) cx0))) as (H1 & H2 & _).
  rewrite H1, H2, (established_postSetup _ _ _ cx0),
    (rkey_postSetup _ _ _ cx0).
  split; assumption.
Qed.

(** X6. [acceptSync] leaves the listening connection in its state, with the
    pending identifier cleared.  A connection is handed out only by a
    listening connection, for a connect request whose private data carry the
    protocol's magic and version and a depth of at least 2; it is connected
    and established, runs with that depth and has received the SETUP message
    of the peer. *)
Theorem acceptSync_outcome (ticks : list Tick) (e : Env) (c : Conn)
    (r : option Conn) (c' : Conn) :
  acceptSync ticks e c = Some (r, c') ->
  _state c' = _state c /\ _new_cm_id c' = false /\
  forall n : Conn, r = Some n ->
    _state c = STATE_LISTENING /\
    (exists t d,
        In t ticks /\
        t_cm_event t = Some (mkCmEvent RDMA_CM_EVENT_CONNECT_REQUEST d) /\
        _cpd c' = or_zero d) /\
    protocol_match (_cpd c') = true /\ 2 <= depth (_cpd c') /\
    _state n = STATE_CONNECTED /\ _depth n = depth (_cpd c') /\
    _established n = true /\ _rkey n <> 0.
Proof.
  assert (Hn : forall x, _state (set_new_cm_id false x) = _state x /\
                         _new_cm_id (set_new_cm_id false x) = false /\
                         _cpd (set_new_cm_id false x) = _cpd x)
    by (intros x; destruct x; repeat split).
  unfold acceptSync.
  destruct (State_eqb STATE_LISTENING (_state c)) eqn:Es; cbn [negb].
  2:{ intros [= <- <-]. destruct (Hn c) as (H1 & H2 & _).
      split; [exact H1 |]. split; [exact H2 |]. discriminate. }
  apply State_eqb_eq in Es.
  destruct (_waitForCMEvent _ ticks c) as [[[|] c1] |] eqn:Ew;
    try discriminate.
  2:{ intros [= <- <-]. destruct (Hn c1) as (H1 & H2 & _).
      apply state_waitForCMEvent in Ew.
      split; [rewrite H1; exact Ew |]. split; [exact H2 |]. discriminate. }
  pose proof (state_waitForCMEvent _ _ _ _ _ Ew) as Hst.
  apply _waitForCMEvent_request in Ew.
  destruct (_finishAccept e (_cpd c1) RDMAConnection_new)
    as [[[|] n0] |] eqn:Ef; try discriminate.
  2:{ intros [= <- <-]. destruct (Hn c1) as (H1 & H2 & _).
      split; [rewrite H1; exact Hst |]. split; [exact H2 |]. discriminate. }
  intros [= <- <-]. destruct (Hn c1) as (H1 & H2 & H3).
  split; [rewrite H1; exact Hst |]. split; [exact H2 |].
  intros n [= <-]. rewrite H3.
  destruct (_finishAccept_true _ _ _ _ Ef) as (Hpm & Hd2 & Hd & Hs).
  destruct (_finishAccept_link _ _ _ _ Ef) as (He & Hk).
  split; [now symmetry |]. split; [exact Ew |].
  repeat split; assumption.
Qed.

Lemma accepted_eq (r : option (option Conn * Conn)) (d1 d2 : Conn) :
  accepted r = true ->
  r = Some (Some (accepted_conn r d1), result_conn r d2).
Proof. destruct r as [[[n |] c] |]; try discriminate. reflexivity. Qed.

Lemma acceptSync_outcome_witness :
  let r := acceptSync sample_request_ticks (sample_env None) sample_listener in
  _state (result_conn r sample_listener) = _state sample_listener /\
  _state sample_listener = STATE_LISTENING /\
  _state (accepted_conn r RDMAConnection_new) = STATE_CONNECTED.
Proof.
  intros r.
  assert (Heq : r = Some (Some (accepted_conn r RDMAConnection_new),
                          result_conn r sample_listener))
    by (apply accepted_eq; vm_compute; reflexivity).
  pose proof (acceptSync_outcome sample_request_ticks (sample_env None)
                sample_listener _ _ Heq) as H.
  exact (conj (proj1 H)
           (conj (proj1 (proj2 (proj2 H) _ eq_refl))
              (proj1 (proj2 (proj2 (proj2 (proj2
                 (proj2 (proj2 H) _ eq_refl)))))))).
Defined.

(** ** The data path *)

Lemma state_write_retry ticks buffer can_put c n c' :
  write_retry ticks buffer can_put c = Some (n, c') -> state_frame c c'.
Proof. apply S_write_retry; state_side. Qed.

Lemma depth_write_retry ticks buffer can_put c n c' :
  write_retry ticks buffer can_put c = Some (n, c') -> depth_frame c c'.
Proof. apply S_write_retry; pipe_fd_side. Qed.

(** X7. [write] never changes the state of the connection or its depth,
    whatever it returns: unlike [readSync] it does not close on an error.
    On a connection that is not connected it returns -1 and touches
    nothing. *)
Theorem write_keeps_state (ticks : list Tick) (buffer : list Z) (bytes : Z)
    (c : Conn) (n : Z) (c' : Conn) :
  write ticks buffer bytes c = Some (n, c') ->
  _state c' = _state c /\ _depth c' = _depth c /\
  (_state c <> STATE_CONNECTED -> n = -1 /\ c' = c).
Proof.
  unfold write.
  destruct (State_eqb STATE_CONNECTED (_state c)) eqn:Es; cbn [negb].
  - apply State_eqb_eq in Es. intros H.
    split; [exact (state_write_retry _ _ _ _ _ _ H) |].
    split; [exact (depth_write_retry _ _ _ _ _ _ H) |]. congruence.
  - intros [= <- <-]. auto.
Qed.

Lemma write_keeps_state_witness :
  let r := write [tick_send_fails] [1; 2; 3] 3 sample_connected in
  let c' := result_conn r sample_connected in
  r = Some (-1, c') /\
  _state c' = _state sample_connected /\ _depth c' = _depth sample_connected.
Proof.
  intros r c'.
  assert (Hr : r = Some (-1, c')) by (apply result_eq; vm_compute; reflexivity).
  pose proof (write_keeps_state [tick_send_fails] [1; 2; 3] 3 sample_connected
                (-1) c' Hr) as H.
  exact (conj Hr (conj (proj1 H) (proj1 (proj2 H)))).
Defined.

Lemma readSync_retry_zero ticks bytes block ee ab c data c' :
  readSync_retry ticks bytes block ee ab c = Some (0, data, c') ->
  block = false /\ _established c' = true.
Proof.
  revert ee ab c.
  induction ticks as [| t ticks IH]; intros ee ab c; cbn [readSync_retry];
    [discriminate |].
  destruct (readSync_poll t c) as [[ok1 ev] c1].
  destruct ok1; cbn [negb]; [| discriminate].
  destruct (_established c1 && _needFC c1 && (0 =? _fcredits c1)).
  { destruct (t_expired t); [discriminate | apply IH]. }
  destruct (_established c1 && negb (BUF_EVENT ev)) eqn:Ee.
  { destruct (ee && negb block) eqn:Eb; [| apply IH].
    intros [= <- <-].
    apply andb_true_iff in Ee. apply andb_true_iff in Eb.
    destruct block; [destruct Eb; discriminate | tauto]. }
  destruct (if BUF_EVENT ev then _getAvailableBytes (t_pipe_read_ok t) c1
            else (ab, c1)) as [ab2 c2].
  destruct (BUF_EVENT ev && (0 =? ab2)); [discriminate |].
  destruct (_drain (u32 bytes) c2) as [[bytes_taken dat] c3].
  destruct (0 =? bytes_taken) eqn:E0.
  { destruct (RingPtr.isEmpty (_sinkptr c3) && negb (_established c3));
      [discriminate |].
    destruct (t_expired t); [discriminate | apply IH]. }
  intros [= -> _ _]. discriminate E0.
Qed.

(** X8. [readSync] returns 0 only to a caller that did not ask to block,
    and only on a connection that is still established; nothing is stored
    in the caller's buffer and the connection stays connected. *)
Theorem readSync_zero (ticks : list Tick) (bytes : Z) (block : bool) (c : Conn)
    (data : list Z) (c' : Conn) :
  readSync ticks bytes block c = Some (0, data, c') ->
  block = false /\ data = [] /\
  _state c' = STATE_CONNECTED /\ _established c' = true /\
  _depth c' = _depth c.
Proof.
  unfold readSync.
  destruct (State_eqb STATE_CONNECTED (_state c)) eqn:Es; cbn [negb];
    [| discriminate].
  apply State_eqb_eq in Es. intros H.
  destruct (readSync_retry_zero _ _ _ _ _ _ _ _ H) as [Hb He].
  destruct (readSync_retry_result _ _ _ _ _ _ _ _ _ H) as
    [(Hn & _) | [(_ & Hd & Hf) | (c0 & _ & Hn & _)]];
    [discriminate | | congruence].
  destruct Hf as (Hs & Hdp & _).
  repeat split; auto. congruence.
Qed.

Lemma readSync_zero_witness :
  let r := readSync [tick_idle; tick_idle] 3 false sample_connected in
  let c' := result_conn r sample_connected in
  r = Some (0, [], c') /\
  _state c' = STATE_CONNECTED /\ _established c' = true.
Proof.
  intros r c'.
  assert (Hr : r = Some (0, [], c'))
    by (apply (result_eq r (0, [])); vm_compute; reflexivity).
  pose proof (readSync_zero [tick_idle; tick_idle] 3 false sample_connected
                [] c' Hr) as H.
  exact (conj Hr (conj (proj1 (proj2 (proj2 H)))
                       (proj1 (proj2 (proj2 (proj2 H)))))).
Defined.

Lemma drain_count_range bytes c :
  0 <= fst (fst (_drain (u32 bytes) c)).
Proof.
  unfold _drain. cbn [fst].
  pose proof (u32_range bytes). pose proof (available_nonneg (_sinkptr c)). lia.
Qed.


Lemma i32_sub_u32 (w : Z) : i32 (w - u32 w) = 0.
Proof.
  unfold i32, u32.
  rewrite (Z.div_mod w (2 ^ 32)) at 1 by lia.
  replace (2 ^ 32 * (w / 2 ^ 32) + w mod 2 ^ 32 - w mod 2 ^ 32 + 2 ^ 31)
    with (2 ^ 31 + (w / 2 ^ 32) * 2 ^ 32) by lia.
  rewrite Z.mod_add by lia. rewrite Z.mod_small by lia. lia.
Qed.

Lemma _postFC_effect ok n c :
  let c' := snd (_postFC ok n c) in
  fst (_postFC ok n c) = ok /\
  _writes c' = 0 /\ _fcredits c' = i32 (_fcredits c - 1) /\
  _established c' = _established c /\
  _trace c' =
    _trace c ++
    (if ok
     then [c_post_message
             (mkMsg sizeof_RDMAFCPayload (P_FC (mkFC n (u32 (_writes c)))))]
     else []).
Proof.
  cbv zeta. unfold _postFC, _postMessage.
  pose proof (i32_sub_u32 (_writes c)) as Hw.
  destruct c, ok; cbn in *; rewrite ?app_nil_r; repeat split; exact Hw.
Qed.



(** ** Completions *)

(** X10. Completions flushed by a teardown are skipped: a batch is handled
    exactly as the batch without them.  A batch is refused exactly when it
    holds a completion with another error status. *)
Theorem checkCQ_batch_status (t : Tick) (wcs : list ibv_wc) (n : Z) (c : Conn) :
  _checkCQ_batch t wcs n c =
    _checkCQ_batch t (filter (fun wc => negb (is_flush wc)) wcs) n c /\
  (fst (_checkCQ_batch t wcs n c) = None <->
   exists wc, In wc wcs /\ is_fatal wc = true).
Proof.
  split.
  - revert n c. induction wcs as [| wc wcs IH]; intros n c; [reflexivity |].
    cbn [filter _checkCQ_batch]. unfold is_flush at 1.
    destruct (status wc) eqn:Es; cbn [negb _checkCQ_batch];
      rewrite ?Es; [apply IH | apply IH | reflexivity].
  - revert n c. induction wcs as [| wc wcs IH]; intros n c.
    { cbn. split; [discriminate | intros (wc & [] & _)]. }
    cbn [_checkCQ_batch].
    destruct (status wc) eqn:Es.
    + rewrite IH. split.
      * intros (w & Hin & Hf). exists w. split; [now right | exact Hf].
      * intros (w & [-> | Hin] & Hf).
        -- unfold is_fatal in Hf. rewrite Es in Hf. discriminate.
        -- now exists w.
    + rewrite IH. split.
      * intros (w & Hin & Hf). exists w. split; [now right | exact Hf].
      * intros (w & [-> | Hin] & Hf).
        -- unfold is_fatal in Hf. rewrite Es in Hf. discriminate.
        -- now exists w.
    + cbn [fst]. split; [| reflexivity]. intros _. exists wc.
      split; [now left |]. unfold is_fatal. now rewrite Es.
Qed.

Lemma _checkCQ_batch_trace t wcs n c :
  _trace (snd (_checkCQ_batch t wcs n c)) = _trace c /\
  _cq (snd (_checkCQ_batch t wcs n c)) = _cq c.
Proof.
  revert n c. induction wcs as [| wc wcs IH]; intros n c; [split; reflexivity |].
  cbn [_checkCQ_batch].
  destruct (status wc); [| apply IH | split; reflexivity].
  match goal with
  | |- context [_checkCQ_batch t wcs ?m ?x] =>
      destruct (IH m x) as [H1 H2]; rewrite H1, H2
  end.
  destruct (opcode wc); [split; reflexivity | | | | split; reflexivity].
  - destruct c; split; reflexivity.
  - unfold _recvMessage.
    destruct (payload (wr_msg wc)) as [s | f |]; [| | split; reflexivity].
    + destruct (_ =? _); destruct c; split; reflexivity.
    + destruct (_ =? _); destruct c; split; reflexivity.
  - unfold _recvRDMAWrite, _incrAvailableBytes.
    destruct (t_pipe_write_ok t); destruct c; split; reflexivity.
Qed.

Lemma _checkCQ_batch_count t wcs n c :
  Forall (fun wc => is_fatal wc = false) wcs ->
  0 <= n -> n + Z.of_nat (List.length wcs) < 2 ^ 32 ->
  fst (_checkCQ_batch t wcs n c) =
    Some (n + Z.of_nat (List.length (filter is_recv wcs))).
Proof.
  revert n c. induction wcs as [| wc wcs IH]; intros n c Hf Hn Hl.
  { cbn. f_equal. lia. }
  inversion Hf as [| ? ? Hwc Hrest]; subst.
  cbn [List.length] in Hl.
  cbn [_checkCQ_batch filter]. unfold is_fatal in Hwc. unfold is_recv at 1.
  destruct (status wc); [| | discriminate].
  - destruct (has_recv_bit (opcode wc)).
    + rewrite IH; [| assumption | rewrite u32_small; lia | rewrite u32_small; lia].
      rewrite u32_small by lia. cbn [List.length]. f_equal. lia.
    + rewrite IH; [reflexivity | assumption | lia | lia].
  - rewrite IH; [reflexivity | assumption | lia | lia].
Qed.

(** X11. Every receive that completed is posted again: when a poll of the
    completion queue yields a batch without a fatal status, the connection
    hands [ibv_post_recv] exactly as many work requests as the batch holds
    successful receive completions, in one call, and makes no other call. *)
Theorem checkCQ_reposts_receives (t : Tick) (wcs : list ibv_wc)
    (rest : list (option (list ibv_wc))) (c : Conn) :
  _cq c = true -> t_polls t = Some wcs :: rest ->
  Forall (fun wc => is_fatal wc = false) wcs ->
  Z.of_nat (List.length wcs) < 2 ^ 32 ->
  let k := Z.of_nat (List.length (filter is_recv wcs)) in
  let c' := snd (_checkCQ false t c) in
  fst (_checkCQ false t c) = (if 0 <? k then t_post_recv_ok t else true) /\
  _trace c' =
    _trace c ++
    (if (0 <? k) && t_post_recv_ok t then [c_ibv_post_recv k] else []).
Proof.
  intros Hcq Hp Hf Hl k c'. subst c'.
  assert (Hk : k = Z.of_nat (List.length (filter is_recv wcs))) by reflexivity.
  clearbody k.
  unfold _checkCQ. rewrite Hcq, Hp. cbn [negb _checkCQ_repoll].
  pose proof (_checkCQ_batch_count t wcs 0 c Hf ltac:(lia) ltac:(lia)) as Hc.
  pose proof (_checkCQ_batch_trace t wcs 0 c) as [Ht _].
  destruct (_checkCQ_batch t wcs 0 c) as [[m |] c1]; cbn [fst snd] in *;
    [| discriminate].
  rewrite Z.add_0_l, <- Hk in Hc. injection Hc as ->.
  destruct (0 <? k); cbn [andb].
  - unfold _postReceives. destruct (t_post_recv_ok t); cbn [negb andb fst snd].
    + split; [reflexivity |]. rewrite <- Ht. destruct c1; reflexivity.
    + split; [reflexivity |]. now rewrite app_nil_r.
  - cbn [negb andb fst snd]. split; [reflexivity |]. now rewrite app_nil_r.
Qed.

Lemma checkCQ_reposts_receives_witness :
  let t := tick_cq [setup_wc; write_wc 5] in
  let c' := snd (_checkCQ false t sample_connected) in
  fst (_checkCQ false t sample_connected) = true /\
  _trace c' = _trace sample_connected ++ [c_ibv_post_recv 2].
Proof.
  intros t c'.
  assert (H1 : _cq sample_connected = true) by (vm_compute; reflexivity).
  assert (H2 : t_polls t = Some [setup_wc; write_wc 5] :: []) by reflexivity.
  assert (H3 : Forall (fun wc => is_fatal wc = false) [setup_wc; write_wc 5])
    by (repeat constructor).
  assert (H4 : Z.of_nat (List.length [setup_wc; write_wc 5]) < 2 ^ 32)
    by (vm_compute; reflexivity).
  exact (checkCQ_reposts_receives t [setup_wc; write_wc 5] []
           sample_connected H1 H2 H3 H4).
Defined.

Lemma acked_app l1 l2 : acked (l1 ++ l2) = acked l1 + acked l2.
Proof.
  unfold acked.
  induction l1 as [| k l1 IH]; cbn [app fold_right]; [reflexivity |].
  rewrite IH. lia.
Qed.

Lemma acked_if (b : bool) (k : Call) :
  acked (if b then [k] else []) = if b then ack_of k else 0.
Proof. destruct b; cbn; lia. Qed.

Lemma if_same {A : Type} (b : bool) (x : A) : (if b then x else x) = x.
Proof. now destruct b. Qed.

Lemma acked_ring_clear b : acked (snd (RingBuffer.clear b)) = 0.
Proof.
  unfold RingBuffer.clear. cbn [snd]. rewrite acked_app, acked_if.
  destruct (RingBuffer.mr b), (RingBuffer.map b); reflexivity.
Qed.

Lemma acked_pool_clear p : acked (snd (BufferPool.clear p)) = 0.
Proof.
  unfold BufferPool.clear. cbn [snd]. rewrite acked_app, !acked_if.
  destruct (BufferPool.mr p), (BufferPool.buffer p); reflexivity.
Qed.

Lemma _cleanup_acks c :
  0 <= _completions c ->
  acked (_trace (_cleanup c)) = acked (_trace c) + _completions c /\
  _completions (_cleanup c) = 0.
Proof.
  intros H.
  pose proof (acked_ring_clear (_sourcebuf c)) as H1.
  pose proof (acked_ring_clear (_sinkbuf c)) as H2.
  pose proof (acked_pool_clear (_msgbuf c)) as H3.
  unfold RingBuffer.clear in H1, H2. unfold BufferPool.clear in H3.
  destruct c. cbn [snd _sourcebuf _sinkbuf _msgbuf _completions] in *.
  cbn -[acked Z.add Z.ltb].
  repeat rewrite acked_app in *. repeat rewrite acked_if in *.
  cbn [ack_of] in *. repeat rewrite if_same in *.
  destruct (0 <? _completions0) eqn:E; [split; lia |].
  apply Z.ltb_ge in E. split; lia.
Qed.

(** X12. Every completion event that [_rearmCQ] takes from the channel is
    acknowledged exactly once.  The count of events not yet acknowledged
    stays below UINT_MAX: a successful [ibv_get_cq_event] adds one to the
    events acknowledged in the trace plus the events pending, and
    [_cleanup] acknowledges all that are pending. *)
Theorem cq_events_acknowledged (t : Tick) (c : Conn) :
  0 <= _completions c < 2 ^ 32 - 1 ->
  let c1 := snd (_rearmCQ t c) in
  0 <= _completions c1 < 2 ^ 32 - 1 /\
  acked (_trace c1) + _completions c1 =
    acked (_trace c) + _completions c +
    (if t_get_cq_event_ok t then 1 else 0) /\
  acked (_trace (_cleanup c1)) = acked (_trace c1) + _completions c1 /\
  _completions (_cleanup c1) = 0.
Proof.
  intros H c1.
  assert (H1 : 0 <= _completions c1 < 2 ^ 32 - 1 /\
               acked (_trace c1) + _completions c1 =
                 acked (_trace c) + _completions c +
                 (if t_get_cq_event_ok t then 1 else 0)).
  { subst c1. unfold _rearmCQ.
    destruct (t_get_cq_event_ok t); cbn [negb snd]; [| lia].
    assert (Hu : u32 (_completions c + 1) = _completions c + 1)
      by (apply u32_small; lia).
    match goal with
    | |- context [if negb ?b then (false, ?x) else (true, ?x)] =>
        replace (snd (if negb b then (false, x) else (true, x))) with x
          by (now destruct b)
    end.
    destruct c. cbn [_completions] in *. cbn -[acked Z.add Z.eqb Z.sub Z.pow u32].
    rewrite Hu.
    rewrite acked_app, acked_if. cbn [ack_of].
    destruct (2 ^ 32 - 1 =? _completions0 + 1) eqn:E.
    - apply Z.eqb_eq in E. lia.
    - apply Z.eqb_neq in E. lia. }
  destruct H1 as [Hr He].
  split; [exact Hr |]. split; [exact He |].
  apply _cleanup_acks. lia.
Qed.

Lemma _cleanup_fixed (c : Conn) :
  fst (RingBuffer.clear (_sourcebuf c)) = _sourcebuf c ->
  snd (RingBuffer.clear (_sourcebuf c)) = [] ->
  fst (RingBuffer.clear (_sinkbuf c)) = _sinkbuf c ->
  snd (RingBuffer.clear (_sinkbuf c)) = [] ->
  fst (BufferPool.clear (_msgbuf c)) = _msgbuf c ->
  snd (BufferPool.clear (_msgbuf c)) = [] ->
  (0 <? _completions c) = false ->
  _wcs c = false -> _cm_id c = false -> _cq c = false -> _cc c = false ->
  _pd c = false -> _cm c = false -> _rai c = false -> _notifier c = false ->
  _rptr c = RingPtr.clear 0 -> _rbase c = 0 -> _rkey c = 0 ->
  _cleanup c = c.
Proof.
  destruct c. cbn [_sourcebuf _sinkbuf _msgbuf _completions _wcs _cm_id _cq
                   _cc _pd _cm _rai _notifier _rptr _rbase _rkey].
  intros H1 H2 H3 H4 H5 H6 H7. intros. subst.
  unfold _cleanup.
  cbv -[app Z.ltb RingBuffer.clear BufferPool.clear RingPtr.clear].
  destruct (RingBuffer.clear _sourcebuf0) as [sb sl].
  destruct (RingBuffer.clear _sinkbuf0) as [kb kl].
  destruct (BufferPool.clear _msgbuf0) as [mb ml].
  cbn [fst snd] in *. subst.
  rewrite H7. repeat rewrite app_nil_r. reflexivity.
Qed.

Lemma _cleanup_twice (c : Conn) : _cleanup (_cleanup c) = _cleanup c.
Proof.
  apply _cleanup_fixed.
  all: destruct c.
  all: try (vm_compute; reflexivity).
  destruct _completions0; reflexivity.
Qed.

(** X13. [_cleanup] gives nothing back twice: a second [_cleanup] changes
    nothing and makes no call. *)
Theorem cleanup_idempotent (c : Conn) :
  _cleanup (_cleanup c) = _cleanup c /\
  _trace (_cleanup (_cleanup c)) = _trace (_cleanup c).
Proof.
  exact (conj (_cleanup_twice c) (f_equal _trace (_cleanup_twice c))).
Qed.

Lemma cq_events_acknowledged_witness :
  let c := set_completions (2 ^ 32 - 2) sample_conn in
  let c1 := snd (_rearmCQ tick_idle c) in
  0 <= _completions c < 2 ^ 32 - 1 /\
  0 <= _completions c1 < 2 ^ 32 - 1 /\
  acked (_trace c1) + _completions c1 = acked (_trace c) + _completions c + 1 /\
  _completions (_cleanup c1) = 0.
Proof.
  intros c c1.
  assert (H : 0 <= _completions c < 2 ^ 32 - 1)
    by (vm_compute; split; [discriminate | reflexivity]).
  pose proof (cq_events_acknowledged tick_idle c H) as W.
  exact (conj H (conj (proj1 W) (conj (proj1 (proj2 W))
                                   (proj2 (proj2 (proj2 W)))))).
Defined.

Lemma close_keeps (c : Conn) :
  _established (close c) = _established c /\
  _pipe_fd (close c) = _pipe_fd c /\
  _port (close c) = _port c /\ _depth (close c) = _depth c.
Proof.
  unfold close, _close. destruct c. cbn [_state].
  match goal with
  | |- context [State_eqb STATE_CLOSED ?s] => destruct s
  end; vm_compute; repeat split.
Qed.

Lemma close_disconnects (c : Conn) :
  _state c <> STATE_CLOSED -> _established c = true ->
  In c_rdma_disconnect (_trace (close c)).
Proof.
  intros Hs He. unfold close, _close.
  destruct (State_eqb STATE_CLOSED (_state c)) eqn:E.
  { apply State_eqb_eq in E. congruence. }
  assert (Ht : forall x, exists l, _trace (_cleanup x) = _trace x ++ l).
  { intros x. destruct x. unfold _cleanup. cbn.
    repeat rewrite <- app_assoc. eexists. reflexivity. }
  match goal with |- In _ (_trace (_cleanup ?x)) =>
    destruct (Ht x) as [l Hl]; rewrite Hl end.
  apply in_or_app. left.
  destruct (setState_other STATE_CLOSED
              (log (if _established (setState STATE_CLOSING c)
                    then [c_rdma_disconnect] else [])
                 (setState STATE_CLOSING c))) as (_ & _ & _ & _ & Htr).
  rewrite Htr.
  destruct (setState_other STATE_CLOSING c) as (He2 & _ & _ & _ & Htr2).
  rewrite He2, He.
  destruct (setState STATE_CLOSING c). cbn. apply in_or_app. right. now left.
Qed.

(** X14. Closing a connection that [connect] set up leaves it closed with
    its handles and buffers given back after an [rdma_disconnect]; the
    close neither clears [_established] nor closes the pipe of the byte
    counter, which the connection still holds. *)
Theorem close_after_connect (e : Env) (c c' : Conn) :
  connect e c = Some (true, c') ->
  _state (close c') = STATE_CLOSED /\ released (close c') /\
  In c_rdma_disconnect (_trace (close c')) /\
  _established (close c') = true /\ _pipe_fd (close c') = true.
Proof.
  intros H.
  assert (H1 : _state c' = STATE_CONNECTED /\ _established c' = true /\
               _pipe_fd c' = true).
  { unfold connect in H.
    destruct (negb (State_eqb STATE_CLOSED (_state c))); [discriminate |].
    destruct (0 =? _port c); [discriminate |].
    destruct (connect_steps e _) as [[[|] c2] |] eqn:E; try discriminate.
    injection H as <-. unfold connect_steps in E.
    apply and_then_true_inv in E. destruct E as (c1 & Hsetup & E).
    apply and_then_true_inv in E. destruct E as (c1' & Hpm & E).
    injection Hpm as Hpm <-.
    apply and_then_true_inv in E. destruct E as (c3 & Hps & E).
    apply lift_inv in Hps. destruct Hps as [_ ->].
    apply and_then_true_inv in E. destruct E as (c4 & Hw & E).
    injection E as <-.
    pose proof (_waitRecvSetup_true _ _ _ Hw) as [Hest _].
    pose proof (pipe_fd_waitRecvSetup _ _ _ _ Hw) as Hpw.
    destruct (setState_other STATE_CONNECTED c4) as (He & _ & Hp & _).
    rewrite He, Hp, setState_state.
    split; [reflexivity |]. split; [exact Hest |].
    unfold pipe_fd_frame in Hpw. rewrite Hpw, (pipe_fd_postSetup _ _ _ c1).
    unfold connect_setup in Hsetup. peel Hsetup.
    repeat match goal with
    | H : lift _ _ = Some _ |- _ => apply lift_inv in H; destruct H as [? ?]
    end.
    match goal with
    | H : Some (_postReceives ?a ?b ?x) = Some (true, ?y) |- _ =>
        assert (Hc1 : y = snd (_postReceives a b x))
          by (injection H as H; now rewrite H);
        clear H
    end.
    match goal with
    | H : _connect _ _ = Some _ |- _ =>
        apply pipe_fd_connect in H; rename H into Hpc
    end.
    match goal with
    | H : _resolveRoute _ _ = Some _ |- _ =>
        apply pipe_fd_resolveRoute in H; rename H into Hpr
    end.
    match goal with
    | H : true = fst (_createBytesAvailableFD _ _) |- _ =>
        symmetry in H; apply _createBytesAvailableFD_true in H;
        rename H into Hfd
    end.
    unfold pipe_fd_frame in Hpc, Hpr.
    rewrite Hpc. subst. rewrite (pipe_fd_postReceives _ _ _), Hpr.
    rewrite (pipe_fd_initBuffers e _). exact Hfd. }
  destruct H1 as (Hs & He & Hp).
  destruct (close_keeps c') as (Hk1 & Hk2 & _).
  assert (Hn : _state c' <> STATE_CLOSED) by (rewrite Hs; discriminate).
  destruct (close_open_released c' Hn) as [Hc Hr].
  split; [exact Hc |]. split; [exact Hr |].
  split; [apply close_disconnects; assumption |].
  split; congruence.
Qed.

Lemma close_after_connect_witness :
  _state (close sample_connected) = STATE_CLOSED /\
  released (close sample_connected) /\
  In c_rdma_disconnect (_trace (close sample_connected)) /\
  _established (close sample_connected) = true /\
  _pipe_fd (close sample_connected) = true.
Proof.
  apply (close_after_connect (sample_env (Some (mkCpd 0xC0 0x03 16)))
           sample_conn).
  apply result_eq. vm_compute. reflexivity.
Defined.

(** ** Credits, buffers and the messages of the protocol *)

(** X15. The credits [_initProtocol] hands out.  For every accepted depth
    there are depth/2 - 2 write credits and depth/2 + 2 flow control
    credits; they add up to the depth rounded down to an even number, so
    both kinds of work request fit the send queue together; the write
    credits are not negative exactly from a depth of 4 on, and a first write
    is possible exactly from a depth of 6 on. *)
Theorem initProtocol_credits (d : Z) (c : Conn) :
  2 <= d ->
  let c' := snd (_initProtocol d c) in
  fst (_initProtocol d c) = true /\
  _depth c' = d /\ _writes c' = 0 /\ _fcs c' = 0 /\
  _wcredits c' = d / 2 - 2 /\ _fcredits c' = d / 2 + 2 /\
  _wcredits c' + _fcredits c' = 2 * (d / 2) /\
  _wcredits c' + _fcredits c' <= d /\
  4 <= _fcredits c' - _wcredits c' /\
  (0 <= _wcredits c' <-> 4 <= d) /\
  (0 < _wcredits c' <-> 6 <= d).
Proof.
  intros H c'. subst c'. unfold _initProtocol.
  destruct (d <? 2) eqn:E; [apply Z.ltb_lt in E; lia |].
  destruct c. cbn -[Z.quot Z.div Z.mul].
  rewrite Z.quot_div_nonneg by lia.
  pose proof (Z.div_mod d 2 ltac:(lia)) as Hd.
  pose proof (Z.mod_pos_bound d 2 ltac:(lia)) as Hm.
  repeat split; lia.
Qed.

Lemma initProtocol_credits_witness :
  let c' := snd (_initProtocol 5 RDMAConnection_new) in
  2 <= 5 /\ _wcredits c' = 0 /\ _fcredits c' = 4 /\
  _wcredits c' + _fcredits c' = 2 * (5 / 2).
Proof.
  intros c'.
  assert (H : 2 <= 5) by lia.
  pose proof (initProtocol_credits 5 RDMAConnection_new H) as W.
  split; [exact H |].
  split; [vm_compute; reflexivity |].
  split; [vm_compute; reflexivity |].
  exact (proj1 (proj2 (proj2 (proj2 (proj2 (proj2 (proj2 W))))))).
Defined.

(** X16. [RingBuffer::resize] to a size that is not 0 first releases what
    the buffer held, and succeeds exactly when all seven system calls
    succeed.  The buffer it leaves then is registered and zeroed but for the
    marker byte 0x45 at offset 0, and every byte shows a second time
    [size] bytes further on: the marker is read back at offset [size], as the
    assertion at the end of the function expects.  On a failure nothing is
    registered. *)
Theorem ring_resize_outcome (e : RingBuffer.ResizeEnv) (b : RingBuffer.t)
    (sz : Z) :
  0 < sz ->
  let ok := fst (fst (RingBuffer.resize e b sz)) in
  let b' := snd (fst (RingBuffer.resize e b sz)) in
  snd (RingBuffer.resize e b sz) = snd (RingBuffer.clear b) /\
  RingBuffer.size b' = sz /\ RingBuffer.access b' = RingBuffer.access b /\
  (ok = true <->
   RingBuffer.mkstemp_ok e = true /\ RingBuffer.unlink_ok e = true /\
   RingBuffer.ftruncate_ok e = true /\ RingBuffer.mmap_reserve_ok e = true /\
   RingBuffer.mmap1_ok e = true /\ RingBuffer.mmap2_ok e = true /\
   RingBuffer.reg_mr_ok e = true) /\
  (ok = true ->
   RingBuffer.mr b' = true /\ RingBuffer.map b' <> None /\
   RingBuffer.virt b' 0 = 0x45 /\ RingBuffer.virt b' sz = 0x45 /\
   forall v : Z, 0 <= v < sz ->
     RingBuffer.virt b' (v + sz) = RingBuffer.virt b' v /\
     (0 < v -> RingBuffer.virt b' v = 0)) /\
  (ok = false -> RingBuffer.mr b' = false).
Proof.
  intros Hsz ok b'. subst ok b'.
  unfold RingBuffer.resize, RingBuffer.clear.
  destruct (sz =? 0) eqn:E0; [apply Z.eqb_eq in E0; lia |].
  destruct e as [e1 e2 e3 e4 e5 e6 e7].
  cbn [RingBuffer.mkstemp_ok RingBuffer.unlink_ok RingBuffer.ftruncate_ok
       RingBuffer.mmap_reserve_ok RingBuffer.mmap1_ok RingBuffer.mmap2_ok
       RingBuffer.reg_mr_ok].
  destruct e1, e2, e3, e4, e5, e6, e7;
    cbn [negb fst snd RingBuffer.size RingBuffer.access RingBuffer.mr
         RingBuffer.map];
    (split; [reflexivity |]); (split; [reflexivity |]);
    (split; [reflexivity |]);
    (split; [split; [try discriminate; tauto
                    | intros (? & ? & ? & ? & ? & ? & ?);
                      try discriminate; reflexivity] |]);
    (split; [| intros; try discriminate; reflexivity]);
    try (intros; discriminate).
  intros _. split; [reflexivity |]. split; [discriminate |].
  unfold RingBuffer.virt, RingBuffer.pages, RingBuffer.page_of,
    RingBuffer.store.
  cbn [RingBuffer.size RingBuffer.map].
  split.
  { destruct (0 <? sz) eqn:E; [reflexivity | apply Z.ltb_ge in E; lia]. }
  split.
  { rewrite Z.ltb_irrefl. replace (sz - sz) with 0 by lia. reflexivity. }
  intros v Hv.
  assert (E1 : (v + sz <? sz) = false) by (apply Z.ltb_ge; lia).
  assert (E2 : (v <? sz) = true) by (apply Z.ltb_lt; lia).
  rewrite E1, E2. replace (v + sz - sz) with v by lia.
  split; [reflexivity |]. intros Hv0.
  destruct (v =? 0) eqn:E3; [apply Z.eqb_eq in E3; lia | reflexivity].
Qed.

Lemma ring_resize_outcome_witness :
  let r := RingBuffer.resize resize_ok (RingBuffer.init 3) 8 in
  0 < 8 /\ fst (fst r) = true /\
  RingBuffer.virt (snd (fst r)) 0 = 0x45 /\
  RingBuffer.virt (snd (fst r)) 8 = 0x45.
Proof.
  intros r.
  assert (H : 0 < 8) by lia.
  pose proof (ring_resize_outcome resize_ok (RingBuffer.init 3) 8 H) as W.
  cbv zeta in W.
  destruct W as (_ & _ & _ & _ & W & _).
  assert (Hok : fst (fst r) = true) by reflexivity.
  exact (conj H (conj Hok (conj (proj1 (proj2 (proj2 (W Hok))))
                                (proj1 (proj2 (proj2 (proj2 (W Hok)))))))).
Defined.

(** X17. The SETUP message as the peer reads it: what [_postSetup] hands to
    [rdma_post_send] makes [_recvMessage] on the other side record the
    sender's base address and key, and start the mirror of the sender's sink
    ring empty, with as much free space as that ring has bytes. *)
Theorem setup_round_trip (base key : Z) (a b : Conn) :
  0 <= RingBuffer.size (_sinkbuf a) < 2 ^ 32 ->
  exists m : RDMAMessage,
    _trace (snd (_postSetup true base key a)) =
      _trace a ++ [c_post_message m] /\
    _rbase (_recvMessage m b) = base /\
    _rkey (_recvMessage m b) = key /\
    _rptr (_recvMessage m b) = RingPtr.clear (RingBuffer.size (_sinkbuf a)) /\
    RingPtr.available (_rptr (_recvMessage m b)) = 0 /\
    RingPtr.negAvailable (_rptr (_recvMessage m b)) =
      RingBuffer.size (_sinkbuf a) /\
    _wcredits (_recvMessage m b) = _wcredits b /\
    _fcs (_recvMessage m b) = _fcs b.
Proof.
  intros Hs.
  exists (mkMsg sizeof_RDMASetupPayload
            (P_SETUP (mkSetup base (RingBuffer.size (_sinkbuf a)) key))).
  split; [destruct a; reflexivity |].
  unfold _recvMessage. cbn [payload msg_length].
  rewrite Z.eqb_refl. unfold _recvSetup. cbn [rbase rlen rkey].
  destruct b. cbn.
  unfold RingPtr.negAvailable, RingPtr.available, RingPtr.available2,
    RingPtr.clear. cbn.
  rewrite (u32_small (RingBuffer.size (_sinkbuf a))) by exact Hs.
  change (u32 0) with 0. rewrite Z.sub_0_r.
  rewrite (u32_small (RingBuffer.size (_sinkbuf a))) by exact Hs.
  repeat split.
Qed.

Lemma setup_round_trip_witness :
  0 <= RingBuffer.size (_sinkbuf small_rings) < 2 ^ 32 /\
  exists m : RDMAMessage,
    _trace (snd (_postSetup true 4096 77 small_rings)) =
      _trace small_rings ++ [c_post_message m] /\
    _rbase (_recvMessage m sample_conn) = 4096 /\
    _rkey (_recvMessage m sample_conn) = 77.
Proof.
  assert (H : 0 <= RingBuffer.size (_sinkbuf small_rings) < 2 ^ 32)
    by (vm_compute; split; [discriminate | reflexivity]).
  destruct (setup_round_trip 4096 77 small_rings sample_conn H)
    as (m & W1 & W2 & W3 & _).
  exact (conj H (ex_intro _ m (conj W1 (conj W2 W3)))).
Defined.

(** X18. One RDMA write, seen from both sides.  The write [a] posts is
    aimed at the head of its mirror of [b]'s sink ring; when its completion
    reaches [b], both heads have moved by the length written, [b] has
    counted one write for the credit [a] spent, and the flow control credits
    that [a] passed along are the ones [b] gains: the write credits and the
    flow control credits of the pair are conserved. *)
Theorem rdma_write_round_trip (pipe_ok : bool) (a b : Conn) :
  let n := RingPtr.available2 (_sourceptr a) RingPtr.HEAD RingPtr.MIDDLE in
  n <= MAX_BS -> 0 <= _fcs a < 2 ^ 31 ->
  - 2 ^ 31 < _wcredits a < 2 ^ 31 -> - 2 ^ 31 <= _writes b < 2 ^ 31 - 1 ->
  - 2 ^ 31 <= _fcredits b < 2 ^ 31 - MAX_FC ->
  exists off imm : Z,
    _trace (snd (_postRDMAWrite true a)) =
      _trace a ++
      [c_post_rdma_write off n imm
         (u64 (_rbase a + RingPtr.ptr (_rptr a) RingPtr.HEAD))] /\
    let a' := snd (_postRDMAWrite true a) in
    let b' := _recvRDMAWrite pipe_ok imm b in
    _rptr a' = RingPtr.incrHead (_rptr a) n /\
    _sinkptr b' = RingPtr.incrHead (_sinkptr b) n /\
    _wcredits a' + _writes b' = _wcredits a + _writes b /\
    _fcs a' + _fcredits b' = _fcs a + _fcredits b /\
    0 <= _fcs a' /\
    _pipe b' = _pipe b ++ (if pipe_ok then [n] else []).
Proof.
  intros n Hn Hf Hw Hwr Hfc.
  assert (Hn0 : 0 <= n) by apply u32_range.
  destruct (_makeImm_decode n a (conj Hn0 Hn)) as (_ & Hdec & Hfcs).
  pose proof (makeImm_fcs_bounds a) as Hmin.
  assert (HMAX : MAX_FC = 15) by reflexivity.
  assert (Hu16 : 0 <= u16 (_fcs a) <= _fcs a).
  { unfold u16. split; [apply Z.mod_pos_bound; lia |].
    apply Z.mod_le; lia. }
  exists (RingPtr.ptr (_sourceptr a) RingPtr.MIDDLE), (fst (_makeImm n a)).
  destruct (_postRDMAWrite_effect true a) as (_ & _ & _ & Hwc & Hfs & Htr).
  fold n in Hfs, Htr.
  split; [exact Htr |]. cbv zeta.
  unfold _recvRDMAWrite. rewrite Hdec. cbn [bytes_sent fcs_received].
  rewrite Hwc, Hfs, Hfcs.
  assert (Hr : _rptr (snd (_postRDMAWrite true a)) =
               RingPtr.incrHead (_rptr a) n).
  { unfold _postRDMAWrite, _makeImm. fold n. destruct a; reflexivity. }
  split; [exact Hr |].
  unfold _incrAvailableBytes.
  assert (Hu64 : u64 n = n).
  { unfold u64. apply Z.mod_small. unfold MAX_BS in Hn. cbn in Hn. lia. }
  rewrite (i32_small (_wcredits a - 1)) by lia.
  rewrite (i32_small (_fcs a - Z.min MAX_FC (u16 (_fcs a)))) by lia.
  destruct pipe_ok, b; cbn [snd]; cbn -[Z.min i32 Z.add Z.sub];
    cbn [_writes _fcredits _fcs _wcredits] in *;
    rewrite ?Hu64;
    rewrite (i32_small (_writes0 + 1)) by lia;
    rewrite (i32_small (_fcredits0 + Z.min MAX_FC (u16 (_fcs a)))) by lia;
    rewrite ?app_nil_r;
    repeat split; try lia.
Qed.

Lemma rdma_write_round_trip_witness :
  let a := snd (_fill [1; 2; 3] 3 sample_connected) in
  let b := sample_connected in
  let n := RingPtr.available2 (_sourceptr a) RingPtr.HEAD RingPtr.MIDDLE in
  (n <= MAX_BS /\ 0 <= _fcs a < 2 ^ 31 /\
   - 2 ^ 31 < _wcredits a < 2 ^ 31 /\ - 2 ^ 31 <= _writes b < 2 ^ 31 - 1 /\
   - 2 ^ 31 <= _fcredits b < 2 ^ 31 - MAX_FC) /\
  exists imm : Z,
    _sinkptr (_recvRDMAWrite true imm b) = RingPtr.incrHead (_sinkptr b) n /\
    _wcredits (snd (_postRDMAWrite true a)) +
      _writes (_recvRDMAWrite true imm b) = _wcredits a + _writes b.
Proof.
  intros a b n.
  assert (H1 : n <= MAX_BS) by (vm_compute; discriminate).
  assert (H2 : 0 <= _fcs a < 2 ^ 31)
    by (vm_compute; split; [discriminate | reflexivity]).
  assert (H3 : - 2 ^ 31 < _wcredits a < 2 ^ 31)
    by (vm_compute; split; reflexivity).
  assert (H4 : - 2 ^ 31 <= _writes b < 2 ^ 31 - 1)
    by (vm_compute; split; [discriminate | reflexivity]).
  assert (H5 : - 2 ^ 31 <= _fcredits b < 2 ^ 31 - MAX_FC)
    by (vm_compute; split; [discriminate | reflexivity]).
  destruct (rdma_write_round_trip true a b H1 H2 H3 H4 H5)
    as (off & imm & _ & _ & W2 & W3 & _).
  exact (conj (conj H1 (conj H2 (conj H3 (conj H4 H5))))
           (ex_intro _ imm (conj W2 W3))).
Defined.

(** X19. One flow control message, seen from both sides.  The FC message
    that the reader [b] posts for [n] bytes makes the writer [a] free [n]
    bytes in its mirror of the sink ring and gain as write credits the
    writes that [b] had counted, which [b] forgets; [b] spends the flow
    control credit that [a] will hand back with a later write.  The write
    credits and the flow control credits of the pair are conserved. *)
Theorem fc_round_trip (n : Z) (a b : Conn) :
  0 <= _writes b < 2 ^ 31 ->
  - 2 ^ 31 <= _wcredits a -> _wcredits a + _writes b < 2 ^ 31 ->
  - 2 ^ 31 <= _fcs a < 2 ^ 31 - 1 -> - 2 ^ 31 < _fcredits b < 2 ^ 31 ->
  exists m : RDMAMessage,
    _trace (snd (_postFC true n b)) = _trace b ++ [c_post_message m] /\
    let b' := snd (_postFC true n b) in
    let a' := _recvMessage m a in
    _rptr a' = RingPtr.incrTail (_rptr a) n /\
    _writes b' = 0 /\
    _wcredits a' + _writes b' = _wcredits a + _writes b /\
    _fcs a' + _fcredits b' = _fcs a + _fcredits b /\
    _rbase a' = _rbase a /\ _rkey a' = _rkey a.
Proof.
  intros Hw Hc1 Hc2 Hf Hfc.
  exists (mkMsg sizeof_RDMAFCPayload (P_FC (mkFC n (u32 (_writes b))))).
  destruct (_postFC_effect true n b) as (_ & Hw0 & Hfc' & _ & Htr).
  split; [exact Htr |]. cbv zeta.
  rewrite Hw0, Hfc'.
  unfold _recvMessage. cbn [payload msg_length]. rewrite Z.eqb_refl.
  unfold _recvFC. cbn [bytes_received writes_received].
  rewrite (u32_small (_writes b)) by lia.
  rewrite (i32_small (_fcredits b - 1)) by lia.
  destruct a. cbn [_wcredits _fcs] in *. cbn -[i32 Z.add Z.sub].
  rewrite (i32_small (_wcredits0 + _writes b)) by lia.
  rewrite (i32_small (_fcs0 + 1)) by lia.
  repeat split; lia.
Qed.

Lemma fc_round_trip_witness :
  let a := sample_connected in
  let b := set_writes 2 sample_connected in
  (0 <= _writes b < 2 ^ 31 /\ - 2 ^ 31 <= _wcredits a /\
   _wcredits a + _writes b < 2 ^ 31 /\ - 2 ^ 31 <= _fcs a < 2 ^ 31 - 1 /\
   - 2 ^ 31 < _fcredits b < 2 ^ 31) /\
  exists m : RDMAMessage,
    _rptr (_recvMessage m a) = RingPtr.incrTail (_rptr a) 3 /\
    _wcredits (_recvMessage m a) + _writes (snd (_postFC true 3 b)) =
      _wcredits a + _writes b.
Proof.
  intros a b.
  assert (H1 : 0 <= _writes b < 2 ^ 31)
    by (vm_compute; split; [discriminate | reflexivity]).
  assert (H2 : - 2 ^ 31 <= _wcredits a) by (vm_compute; discriminate).
  assert (H3 : _wcredits a + _writes b < 2 ^ 31) by (vm_compute; reflexivity).
  assert (H4 : - 2 ^ 31 <= _fcs a < 2 ^ 31 - 1)
    by (vm_compute; split; [discriminate | reflexivity]).
  assert (H5 : - 2 ^ 31 < _fcredits b < 2 ^ 31)
    by (vm_compute; split; reflexivity).
  destruct (fc_round_trip 3 a b H1 H2 H3 H4 H5)
    as (m & _ & W1 & _ & W3 & _).
  exact (conj (conj H1 (conj H2 (conj H3 (conj H4 H5))))
           (ex_intro _ m (conj W1 W3))).
Defined.


(** ** Waiting *)

Lemma quiet_checkDisconnected t c :
  quiet_tick t ->
  _checkDisconnected t c =
    (true, mkEvents (_pipe_fd c && match _pipe c with [] => false | _ => true end)
                    false false, c).
Proof.
  intros (H1 & H2 & H3 & _). unfold _checkDisconnected, _checkEvents.
  rewrite H1, H2, H3. cbn [negb]. rewrite !andb_false_r. reflexivity.
Qed.

Lemma quiet_checkCQ d t c : quiet_tick t -> _checkCQ d t c = (true, c).
Proof.
  intros (_ & _ & _ & H4). unfold _checkCQ. rewrite H4.
  destruct (_cq c); reflexivity.
Qed.

Lemma quiet_readSync_poll t c :
  quiet_tick t -> _pipe c = [] ->
  readSync_poll t c = (true, mkEvents false false false, c).
Proof.
  intros Hq Hp. unfold readSync_poll.
  rewrite (quiet_checkDisconnected t c Hq), Hp, andb_false_r.
  cbn [negb CQ_EVENT]. rewrite (quiet_checkCQ false t c Hq). reflexivity.
Qed.

Lemma quiet_readSync_poll_events t c :
  quiet_tick t ->
  readSync_poll t c =
    (true,
     mkEvents (_pipe_fd c && match _pipe c with [] => false | _ => true end)
       false false, c).
Proof.
  intros Hq. unfold readSync_poll.
  rewrite (quiet_checkDisconnected t c Hq).
  cbn [negb CQ_EVENT]. rewrite (quiet_checkCQ false t c Hq). reflexivity.
Qed.

(** X20. Timeouts on an idle connection.  While the outside world is
    silent, a [write] without write credit gives up with -1 at the first
    turn at which the timeout has expired, leaving the connection as it
    was, and keeps spinning until then; a [readSync] without flow control
    credit does the same and closes the connection.  A blocking [readSync]
    with flow control credit never looks at the timeout: it spins through
    any number of silent turns, expired or not; a [readSync] that does not
    block returns 0 at the second turn. *)
Theorem idle_timeouts (c : Conn) (bytes : Z) :
  _state c = STATE_CONNECTED -> _established c = true ->
  (forall (ticks : list Tick) (buffer : list Z),
      Forall quiet_tick ticks -> _wcredits c = 0 ->
      write ticks buffer bytes c =
        if existsb t_expired ticks then Some (-1, c) else None) /\
  (forall (ticks : list Tick) (block : bool),
      Forall quiet_tick ticks -> _fcredits c = 0 ->
      readSync ticks bytes block c =
        if existsb t_expired ticks then Some (-1, [], close c) else None) /\
  (forall ticks : list Tick,
      Forall quiet_tick ticks -> _fcredits c <> 0 -> _pipe c = [] ->
      readSync ticks bytes true c = None) /\
  (forall (t1 t2 : Tick) (rest : list Tick),
      quiet_tick t1 -> quiet_tick t2 -> _fcredits c <> 0 -> _pipe c = [] ->
      readSync (t1 :: t2 :: rest) bytes false c = Some (0, [], c)).
Proof.
  intros Hs He.
  assert (Hst : State_eqb STATE_CONNECTED (_state c) = true)
    by (rewrite Hs; reflexivity).
  split; [| split; [| split]].
  - intros ticks buffer Hq Hw. unfold write. rewrite Hst. cbn [negb].
    induction Hq as [| t ticks Ht Hq IH]; [reflexivity |].
    cbn [write_retry existsb].
    rewrite (quiet_checkDisconnected t c Ht). cbn [negb]. rewrite He.
    cbn [negb]. rewrite (quiet_checkCQ false t c Ht). cbn [negb].
    rewrite Hw. cbn [Z.eqb].
    destruct (t_expired t); [reflexivity | exact IH].
  - intros ticks block Hq Hf. unfold readSync. rewrite Hst. cbn [negb].
    generalize false as ee. generalize 0 as ab.
    induction Hq as [| t ticks Ht Hq IH]; intros ab ee; [reflexivity |].
    cbn [readSync_retry existsb].
    rewrite (quiet_readSync_poll_events t c Ht). cbn [negb].
    rewrite He, Hf. unfold _needFC. cbn [andb Z.eqb].
    destruct (t_expired t); [reflexivity | apply IH].
  - intros ticks Hq Hf Hp. unfold readSync. rewrite Hst. cbn [negb].
    generalize false as ee.
    induction Hq as [| t ticks Ht Hq IH]; intros ee; [reflexivity |].
    cbn [readSync_retry].
    rewrite (quiet_readSync_poll t c Ht Hp). cbn [negb BUF_EVENT].
    rewrite He. unfold _needFC. cbn [andb].
    destruct (0 =? _fcredits c) eqn:E; [apply Z.eqb_eq in E; congruence |].
    cbn [negb andb]. rewrite andb_false_r. apply IH.
  - intros t1 t2 rest H1 H2 Hf Hp. unfold readSync. rewrite Hst. cbn [negb].
    cbn [readSync_retry].
    rewrite (quiet_readSync_poll t1 c H1 Hp). cbn [negb BUF_EVENT].
    rewrite He. unfold _needFC. cbn [andb].
    destruct (0 =? _fcredits c) eqn:E; [apply Z.eqb_eq in E; congruence |].
    cbn [negb andb].
    rewrite (quiet_readSync_poll t2 c H2 Hp). cbn [negb BUF_EVENT].
    rewrite He. cbn [andb]. rewrite E. cbn [negb andb]. reflexivity.
Qed.

Lemma idle_timeouts_witness :
  let c := set_wcredits 0 sample_connected in
  (_state c = STATE_CONNECTED /\ _established c = true) /\
  write [tick_idle; tick_late; tick_idle] [1; 2; 3] 3 c = Some (-1, c) /\
  readSync [tick_late; tick_late; tick_late] 3 true c = None.
Proof.
  intros c.
  assert (H1 : _state c = STATE_CONNECTED) by (vm_compute; reflexivity).
  assert (H2 : _established c = true) by (vm_compute; reflexivity).
  assert (Hi : quiet_tick tick_idle) by (repeat split).
  assert (Hl : quiet_tick tick_late) by (repeat split).
  assert (Hw : _wcredits c = 0) by (vm_compute; reflexivity).
  assert (Hf : _fcredits c <> 0) by (vm_compute; discriminate).
  assert (Hp : _pipe c = []) by (vm_compute; reflexivity).
  pose proof (idle_timeouts c 3 H1 H2) as (W1 & _ & W2 & _).
  exact (conj (conj H1 H2)
           (conj (W1 [tick_idle; tick_late; tick_idle] [1; 2; 3]
                    (Forall_cons _ Hi (Forall_cons _ Hl
                       (Forall_cons _ Hi (Forall_nil _)))) Hw)
                 (W2 [tick_late; tick_late; tick_late]
                    (Forall_cons _ Hl (Forall_cons _ Hl
                       (Forall_cons _ Hl (Forall_nil _)))) Hf Hp))).
Defined.

Lemma _recvMessage_no_fc (m : RDMAMessage) (c : Conn) :
  match payload m with P_FC _ => False | _ => True end ->
  _wcredits (_recvMessage m c) = _wcredits c.
Proof.
  unfold _recvMessage. destruct (payload m) as [s | f |]; [| contradiction |].
  - intros _. destruct (_ =? _); destruct c; reflexivity.
  - reflexivity.
Qed.

Lemma _checkCQ_batch_wcredits t wcs n c :
  Forall (fun wc => is_fc wc = false) wcs ->
  _wcredits (snd (_checkCQ_batch t wcs n c)) = _wcredits c.
Proof.
  intros H. revert n c.
  induction H as [| wc wcs Hwc _ IH]; intros n c; [reflexivity |].
  cbn [_checkCQ_batch]. unfold is_fc in Hwc.
  destruct (status wc); [| apply IH | reflexivity].
  rewrite IH.
  destruct (opcode wc) eqn:Eo; try reflexivity.
  - apply _recvMessage_no_fc.
    destruct (payload (wr_msg wc)); [exact I | discriminate | exact I].
  - unfold _recvRDMAWrite, _incrAvailableBytes.
    destruct (t_pipe_write_ok t); destruct c; reflexivity.
Qed.

Lemma _checkCQ_repoll_wcredits t d polls c :
  Forall (fun p => match p with
                   | Some wcs => Forall (fun wc => is_fc wc = false) wcs
                   | None => True
                   end) polls ->
  _wcredits (snd (_checkCQ_repoll t d polls c)) = _wcredits c.
Proof.
  intros H. revert c.
  induction H as [| p polls Hp _ IH]; intros c; [reflexivity |].
  cbn [_checkCQ_repoll]. destruct p as [wcs |]; [| reflexivity].
  pose proof (_checkCQ_batch_wcredits t wcs 0 c Hp) as H1.
  destruct (_checkCQ_batch t wcs 0 c) as [[k |] c1]; cbn [snd] in H1;
    [| exact H1].
  assert (H2 : _wcredits
                 (snd (if 0 <? k then _postReceives (t_post_recv_ok t) k c1
                       else (true, c1))) = _wcredits c).
  { rewrite <- H1. destruct (0 <? k); [| reflexivity].
    unfold _postReceives. destruct (t_post_recv_ok t), c1; reflexivity. }
  destruct (if 0 <? k then _postReceives (t_post_recv_ok t) k c1
            else (true, c1)) as [posted c2]. cbn [snd] in H2.
  destruct posted; cbn [negb]; [| exact H2].
  destruct (d && _); [| exact H2].
  rewrite IH. exact H2.
Qed.

Lemma _checkDisconnected_wcredits t c :
  _wcredits (snd (_checkDisconnected t c)) = _wcredits c /\
  _sourcebuf (snd (_checkDisconnected t c)) = _sourcebuf c.
Proof.
  unfold _checkDisconnected. destruct (_checkEvents t c) as [ev |];
    [| split; reflexivity].
  destruct (CM_EVENT ev); [| split; reflexivity].
  unfold _doCMEvent. destruct (t_cm_event t) as [[ty d] |];
    [| split; reflexivity].
  destruct ty; destruct c; split; reflexivity.
Qed.

Lemma _checkCQ_sourcebuf d t c :
  _sourcebuf (snd (_checkCQ d t c)) = _sourcebuf c.
Proof.
  apply (R_checkCQ (fun x y => _sourcebuf y = _sourcebuf x));
    try (intros; reflexivity);
    try (intros ? x; destruct x; reflexivity).
  intros x y z H1 H2. congruence.
Qed.

(** X21. Write credits come from flow control messages only: as long as no
    completion delivers an FC message, a [write] on a connection without
    write credit posts nothing.  If it returns at all it returns -1, the
    connection still has no credit and nothing was copied into its source
    ring. *)
Theorem write_needs_fc (ticks : list Tick) (buffer : list Z) (bytes : Z)
    (c : Conn) (n : Z) (c' : Conn) :
  _wcredits c = 0 -> Forall no_fc_tick ticks ->
  write ticks buffer bytes c = Some (n, c') ->
  n = -1 /\ _wcredits c' = 0 /\ _sourcebuf c' = _sourcebuf c.
Proof.
  intros Hw Hq. unfold write.
  destruct (negb (State_eqb STATE_CONNECTED (_state c)));
    [intros [= <- <-]; auto |].
  generalize (u32 (Z.min bytes MAX_BS)) as can_put. intros can_put.
  assert (Hb : _sourcebuf c = _sourcebuf c) by reflexivity.
  revert Hw Hb. generalize c at 1 2 4 as c0.
  induction Hq as [| t ticks Ht Hq IH]; intros c0 Hw Hb;
    cbn [write_retry]; [discriminate |].
  destruct (_checkDisconnected_wcredits t c0) as [H1 H1b].
  destruct (_checkDisconnected t c0) as [[ok1 ev] c1]. cbn [snd] in H1, H1b.
  destruct ok1; cbn [negb];
    [| intros [= <- <-]; repeat split; congruence].
  destruct (_established c1); cbn [negb];
    [| intros [= <- <-]; repeat split; congruence].
  pose proof (_checkCQ_sourcebuf false t c1) as H2b.
  assert (H2 : _wcredits (snd (_checkCQ false t c1)) = _wcredits c1).
  { unfold _checkCQ. destruct (_cq c1); cbn [negb]; [| reflexivity].
    apply _checkCQ_repoll_wcredits. exact Ht. }
  destruct (_checkCQ false t c1) as [ok2 c2]. cbn [snd] in H2, H2b.
  destruct ok2; cbn [negb];
    [| intros [= <- <-]; repeat split; congruence].
  assert (E : (0 =? _wcredits c2) = true) by (apply Z.eqb_eq; congruence).
  rewrite E.
  destruct (t_expired t); [intros [= <- <-]; repeat split; congruence |].
  apply IH; congruence.
Qed.

Lemma write_needs_fc_witness :
  let c := set_wcredits 0 sample_connected in
  let ticks := [tick_cq [write_wc 5]; tick_late] in
  let r := write ticks [1; 2; 3] 3 c in
  (_wcredits c = 0 /\ Forall no_fc_tick ticks /\
   r = Some (-1, result_conn r c)) /\
  _wcredits (result_conn r c) = 0 /\
  _sourcebuf (result_conn r c) = _sourcebuf c.
Proof.
  intros c ticks r.
  assert (H1 : _wcredits c = 0) by (vm_compute; reflexivity).
  assert (H2 : Forall no_fc_tick ticks) by (repeat constructor).
  assert (H3 : r = Some (-1, result_conn r c))
    by (apply result_eq; vm_compute; reflexivity).
  pose proof (write_needs_fc ticks [1; 2; 3] 3 c (-1) (result_conn r c)
                H1 H2 H3) as W.
  exact (conj (conj H1 (conj H2 H3)) (proj2 W)).
Defined.

Lemma ring_resize_true (e : RingBuffer.ResizeEnv) (b : RingBuffer.t) (sz : Z) :
  sz <> 0 ->
  fst (fst (RingBuffer.resize e b sz)) = true ->
  RingBuffer.size (snd (fst (RingBuffer.resize e b sz))) = sz /\
  RingBuffer.mr (snd (fst (RingBuffer.resize e b sz))) = true /\
  RingBuffer.map (snd (fst (RingBuffer.resize e b sz))) <> None.
Proof.
  intros Hsz. unfold RingBuffer.resize, RingBuffer.clear.
  destruct (sz =? 0) eqn:E0; [apply Z.eqb_eq in E0; contradiction |].
  destruct (RingBuffer.mkstemp_ok e), (RingBuffer.unlink_ok e),
    (RingBuffer.ftruncate_ok e), (RingBuffer.mmap_reserve_ok e),
    (RingBuffer.mmap1_ok e), (RingBuffer.mmap2_ok e), (RingBuffer.reg_mr_ok e);
    cbn; try discriminate.
  intros _. repeat split. discriminate.
Qed.

Lemma pool_resize_true (e : BufferPool.ResizeEnv) (p : BufferPool.t) (n : Z) :
  fst (fst (BufferPool.resize e p n)) = true ->
  BufferPool.num_bufs (snd (fst (BufferPool.resize e p n))) = n /\
  (n <> 0 ->
   BufferPool.buffer (snd (fst (BufferPool.resize e p n))) = true /\
   BufferPool.mr (snd (fst (BufferPool.resize e p n))) = true).
Proof.
  unfold BufferPool.resize, BufferPool.clear.
  destruct (n =? 0) eqn:E0.
  - apply Z.eqb_eq in E0. subst. cbn. intros _. split; [reflexivity |].
    intros H; contradiction.
  - destruct (BufferPool.memalign_ok e), (BufferPool.reg_mr_ok e); cbn;
      try discriminate.
    intros _. repeat split.
Qed.


Ltac sink_side :=
  let x := fresh "x" in
  first
    [ solve [ intros; repeat split ]
    | solve [ intros ? x; destruct x; repeat split ]
    | solve [ unfold sink_frame; intros ? ? ? (? & ? & ?) (? & ? & ?);
              repeat split; congruence ] ].

Lemma sink_frame_counter c c' : sink_frame c c' -> counter_ok c -> counter_ok c'.
Proof.
  intros (H1 & H2 & H3) (Hf & Hs). unfold counter_ok, bytes_signalled in *.
  rewrite H1, H2, H3. split; assumption.
Qed.

Lemma sink_frame_trans a b c : sink_frame a b -> sink_frame b c -> sink_frame a c.
Proof. revert a b c. sink_side. Qed.

Lemma sink_frame_checkDisconnected t c :
  sink_frame c (snd (_checkDisconnected t c)).
Proof. apply R_checkDisconnected; sink_side. Qed.

Lemma sink_frame_rearmCQ t c : sink_frame c (snd (_rearmCQ t c)).
Proof. apply R_rearmCQ; sink_side. Qed.

Lemma sink_frame_postReceives ok n c : sink_frame c (snd (_postReceives ok n c)).
Proof. apply R_postReceives; sink_side. Qed.

Lemma sink_frame_recvMessage m c : sink_frame c (_recvMessage m c).
Proof. apply R_recvMessage; sink_side. Qed.

Lemma sink_frame_postFC ok n c : sink_frame c (snd (_postFC ok n c)).
Proof. apply R_postFC; sink_side. Qed.

Lemma fold_add_app (l : list Z) (x a : Z) :
  fold_left Z.add (l ++ [x]) a = fold_left Z.add l a + x.
Proof. rewrite fold_left_app. reflexivity. Qed.

Lemma u32_add_l (a b : Z) : u32 (u32 a + b) = u32 (a + b).
Proof. unfold u32. rewrite Zplus_mod_idemp_l. reflexivity. Qed.

Lemma u32_sub_l (a b : Z) : u32 (u32 a - b) = u32 (a - b).
Proof. unfold u32. rewrite Zminus_mod_idemp_l. reflexivity. Qed.

Lemma u32_sub_r (a b : Z) : u32 (a - u32 b) = u32 (a - b).
Proof. unfold u32. rewrite Zminus_mod_idemp_r. reflexivity. Qed.

Lemma counter_recvRDMAWrite imm c :
  counter_ok c -> counter_ok (_recvRDMAWrite true imm c).
Proof.
  intros (Hf & Hs). unfold counter_ok, bytes_signalled in *.
  unfold _recvRDMAWrite, _incrAvailableBytes.
  set (b := bytes_sent (imm_of_val (ntohl imm))).
  assert (Hb : 0 <= b < 2 ^ 28).
  { unfold b, imm_of_val. cbn [bytes_sent]. apply land_ones_range. lia. }
  assert (Hu : u64 b = b) by (unfold u64; apply Z.mod_small; lia).
  clearbody b. destruct c. cbn [_pipe_fd _pipe _sinkptr] in *. cbn -[u32 u64 Z.add].
  split; [exact Hf |].
  rewrite fold_add_app, Hu.
  unfold RingPtr.available, RingPtr.available2, RingPtr.incrHead, RingPtr.incr
    in *.
  cbn [RingPtr.counter RingPtr.head RingPtr.tail_ctr] in *.
  rewrite u32_sub_l, <- u32_add_l, Hs, u32_add_l. f_equal. lia.
Qed.



Lemma sink_frame_sourceptr v c : sink_frame c (set_sourceptr v c).
Proof. destruct c. repeat split. Qed.

Lemma counter_checkCQ_batch t wcs n c :
  t_pipe_write_ok t = true -> counter_ok c ->
  counter_ok (snd (_checkCQ_batch t wcs n c)).
Proof.
  intros Hp. revert n c.
  induction wcs as [| wc wcs IH]; intros n c Hc; [exact Hc |].
  cbn [_checkCQ_batch].
  destruct (status wc); [| now apply IH | exact Hc].
  apply IH.
  destruct (opcode wc); try exact Hc.
  - eapply sink_frame_counter; [apply sink_frame_recvMessage | exact Hc].
  - rewrite Hp. now apply counter_recvRDMAWrite.
Qed.

Lemma counter_checkCQ_repoll t d polls c :
  t_pipe_write_ok t = true -> counter_ok c ->
  counter_ok (snd (_checkCQ_repoll t d polls c)).
Proof.
  intros Hp. revert c.
  induction polls as [| p polls IH]; intros c Hc; [exact Hc |].
  cbn [_checkCQ_repoll]. destruct p as [wcs |]; [| exact Hc].
  pose proof (counter_checkCQ_batch t wcs 0 c Hp Hc) as H1.
  destruct (_checkCQ_batch t wcs 0 c) as [[k |] c1]; cbn [snd] in H1;
    [| exact H1].
  assert (H2 : counter_ok
                 (snd (if 0 <? k then _postReceives (t_post_recv_ok t) k c1
                       else (true, c1)))).
  { destruct (0 <? k); [| exact H1].
    eapply sink_frame_counter; [apply sink_frame_postReceives | exact H1]. }
  destruct (if 0 <? k then _postReceives (t_post_recv_ok t) k c1
            else (true, c1)) as [posted c2]. cbn [snd] in H2.
  destruct posted; cbn [negb]; [| exact H2].
  destruct (d && _); [| exact H2].
  now apply IH.
Qed.

Lemma counter_readSync_poll t c :
  t_pipe_write_ok t = true -> counter_ok c ->
  counter_ok (snd (readSync_poll t c)).
Proof.
  intros Hp Hc. unfold readSync_poll.
  pose proof (sink_frame_counter _ _ (sink_frame_checkDisconnected t c) Hc)
    as H1.
  destruct (_checkDisconnected t c) as [[ok1 ev] c1]. cbn [snd] in H1.
  destruct ok1; cbn [negb]; [| exact H1].
  assert (H2 : counter_ok
                 (snd (if CQ_EVENT ev then _rearmCQ t c1 else (true, c1)))).
  { destruct (CQ_EVENT ev); [| exact H1].
    eapply sink_frame_counter; [apply sink_frame_rearmCQ | exact H1]. }
  destruct (if CQ_EVENT ev then _rearmCQ t c1 else (true, c1)) as [ok2 c2].
  cbn [snd] in H2.
  destruct ok2; cbn [negb]; [| exact H2].
  assert (H3 : counter_ok (snd (_checkCQ (CQ_EVENT ev) t c2))).
  { unfold _checkCQ. destruct (_cq c2); cbn [negb]; [| exact H2].
    now apply counter_checkCQ_repoll. }
  destruct (_checkCQ (CQ_EVENT ev) t c2) as [ok3 c3]. exact H3.
Qed.

Lemma readSync_poll_events t c :
  fst (fst (readSync_poll t c)) = true ->
  BUF_EVENT (snd (fst (readSync_poll t c))) =
    _pipe_fd c && match _pipe c with [] => false | _ => true end.
Proof.
  unfold readSync_poll, _checkDisconnected, _checkEvents.
  destruct (t_epoll_ok t); cbn [negb]; [| discriminate].
  match goal with
  | |- context [if CM_EVENT ?e then _ else _] => set (ev := e)
  end.
  destruct (CM_EVENT ev).
  - destruct (_doCMEvent _ _ c) as [ok1 c1].
    destruct ok1; cbn [negb]; [| discriminate].
    destruct (if CQ_EVENT ev then _rearmCQ t c1 else (true, c1)) as [ok2 c2].
    destruct ok2; cbn [negb]; [| discriminate].
    destruct (_checkCQ (CQ_EVENT ev) t c2). reflexivity.
  - cbn [negb].
    destruct (if CQ_EVENT ev then _rearmCQ t c else (true, c)) as [ok2 c2].
    destruct ok2; cbn [negb]; [| discriminate].
    destruct (_checkCQ (CQ_EVENT ev) t c2). reflexivity.
Qed.

Lemma u32_u64 (z : Z) : u32 (u64 z) = u32 z.
Proof.
  unfold u32, u64. apply Z.mod_mod_divide.
  exists (2 ^ 32). reflexivity.
Qed.

Lemma available_incrTail (p : RingPtr.t) (n : Z) :
  RingPtr.available (RingPtr.incrTail p n) = u32 (RingPtr.available p - n).
Proof.
  unfold RingPtr.available, RingPtr.available2, RingPtr.incrTail, RingPtr.incr.
  cbn [RingPtr.counter RingPtr.head RingPtr.tail_ctr].
  rewrite u32_sub_r, u32_sub_l. f_equal. lia.
Qed.

Lemma counter_drain_tail (t : Tick) (ab n : Z) (c1 : Conn) :
  counter_ok c1 ->
  ab = u64 (bytes_signalled c1) ->
  0 < n <= RingPtr.available (_sinkptr c1) ->
  counter_ok
    (let c3 := set_sinkptr (RingPtr.incrTail (_sinkptr c1) n)
                 (set_pipe [] c1) in
     if n <? ab
     then snd (_incrAvailableBytes true (ab - n) c3)
     else c3).
Proof.
  intros (Hf & Hs) Hab Hn. cbv zeta.
  assert (Hab0 : 0 <= ab < 2 ^ 64) by (subst ab; apply Z.mod_pos_bound; lia).
  assert (Hu : u32 ab = RingPtr.available (_sinkptr c1))
    by (subst ab; rewrite u32_u64; exact Hs).
  assert (Hle : RingPtr.available (_sinkptr c1) <= ab).
  { rewrite <- Hu. unfold u32. apply Z.mod_le; lia. }
  unfold counter_ok, bytes_signalled, _incrAvailableBytes.
  destruct (n <? ab) eqn:E.
  - apply Z.ltb_lt in E. destruct c1.
    cbn [_pipe_fd _sinkptr _pipe] in *. cbn -[u32 u64 Z.add Z.sub RingPtr.available RingPtr.incrTail].
    split; [exact Hf |].
    rewrite available_incrTail, <- Hu, u32_sub_l.
    f_equal. unfold u64. rewrite Z.mod_small; lia.
  - apply Z.ltb_ge in E. destruct c1.
    cbn [_pipe_fd _sinkptr _pipe] in *. cbn -[u32 u64 Z.add Z.sub RingPtr.available RingPtr.incrTail].
    split; [exact Hf |].
    rewrite available_incrTail.
    replace (RingPtr.available _sinkptr0 - n) with 0 by lia. reflexivity.
Qed.

Lemma counter_drain_zero (c : Conn) (p : list Z) :
  counter_ok c -> u32 (fold_left Z.add p 0) = u32 (bytes_signalled c) ->
  counter_ok (set_sinkptr (RingPtr.incrTail (_sinkptr c) 0) (set_pipe p c)).
Proof.
  intros (Hf & Hs) Hp. unfold counter_ok, bytes_signalled in *.
  destruct c. cbn [_pipe_fd _sinkptr _pipe] in *.
  cbn -[u32 Z.add Z.sub RingPtr.available RingPtr.incrTail fold_left].
  split; [exact Hf |].
  rewrite available_incrTail, Z.sub_0_r, Hp, Hs.
  unfold RingPtr.available, RingPtr.available2. now rewrite u32_idem.
Qed.

Lemma readSync_retry_counter ticks bytes block ee ab c n data c' :
  0 < bytes < 2 ^ 32 ->
  Forall (fun t => t_pipe_write_ok t = true) ticks ->
  counter_ok c ->
  readSync_retry ticks bytes block ee ab c = Some (n, data, c') ->
  0 <= n -> _established c' = true -> counter_ok c'.
Proof.
  intros Hb Hq. revert ee ab c.
  induction Hq as [| t ticks Ht Hq IH]; intros ee ab c Hc;
    cbn [readSync_retry]; [discriminate |].
  pose proof (counter_readSync_poll t c Ht Hc) as H1.
  pose proof (readSync_poll_events t c) as Hev.
  destruct (readSync_poll t c) as [[ok1 ev] c1]. cbn [fst snd] in H1, Hev.
  destruct ok1; cbn [negb]; [| intros [= <- _ _]; lia].
  specialize (Hev eq_refl).
  destruct (_established c1 && _needFC c1 && (0 =? _fcredits c1)).
  { destruct (t_expired t); [intros [= <- _ _]; lia | now apply IH]. }
  destruct (_established c1 && negb (BUF_EVENT ev)) eqn:Ee.
  { destruct (ee && negb block); [| now apply IH].
    intros [= <- <- <-]. intros _ _. exact H1. }
  assert (Hu : u32 bytes = bytes) by (apply u32_small; lia).
  destruct (BUF_EVENT ev) eqn:Eb.
  - unfold _getAvailableBytes.
    destruct (t_pipe_read_ok t); [| cbn [andb Z.eqb]; intros [= <- _ _]; lia].
    cbn [andb].
    destruct (0 =? u64 (fold_left Z.add (_pipe c1) 0)) eqn:E0;
      [intros [= <- _ _]; lia |].
    apply Z.eqb_neq in E0.
    unfold _drain.
    assert (Hk : _sinkptr (set_pipe [] c1) = _sinkptr c1 /\
                 _sinkbuf (set_pipe [] c1) = _sinkbuf c1)
      by (destruct c1; split; reflexivity).
    destruct Hk as [Hk1 Hk2]. rewrite Hk1, Hk2, Hu.
    set (k := Z.min bytes (RingPtr.available (_sinkptr c1))).
    destruct (0 =? k) eqn:Ek.
    + apply Z.eqb_eq in Ek.
      match goal with
      | |- context [RingPtr.isEmpty ?p && negb ?e] =>
          destruct (RingPtr.isEmpty p && negb e);
          [intros [= <- _ _]; lia |]
      end.
      destruct (t_expired t); [intros [= <- _ _]; lia |].
      apply IH. rewrite <- Ek.
      apply counter_drain_zero; [exact H1 |].
      destruct H1 as [_ Hs]. rewrite Hs.
      pose proof (available_nonneg (_sinkptr c1)). cbn. unfold k in Ek.
      change (u32 0) with 0. lia.
    + apply Z.eqb_neq in Ek.
      pose proof (available_nonneg (_sinkptr c1)) as Ha.
      assert (Hk : 0 < k <= RingPtr.available (_sinkptr c1))
        by (unfold k in *; lia).
      pose proof (counter_drain_tail t (u64 (bytes_signalled c1)) k c1 H1
                    eq_refl Hk) as H3.
      cbv zeta in H3. unfold bytes_signalled in H3. rewrite Ht.
      match goal with
      | |- Some (_, _, (if _established ?x && _ then _ else _)) = _ -> _ =>
          set (c4 := x) in *
      end.
      intros [= <- <- <-] _ He.
      unfold _needFC. rewrite andb_true_r.
      destruct (_established c4); [| exact H3].
      eapply sink_frame_counter; [apply sink_frame_postFC | exact H3].
  - cbn [andb negb] in *. rewrite andb_true_r in Ee.
    unfold _drain. rewrite Hu.
    set (k := Z.min bytes (RingPtr.available (_sinkptr c1))).
    destruct (0 =? k) eqn:Ek.
    + apply Z.eqb_eq in Ek.
      match goal with
      | |- context [RingPtr.isEmpty ?p && negb ?e] =>
          destruct (RingPtr.isEmpty p && negb e);
          [intros [= <- _ _]; lia |]
      end.
      destruct (t_expired t); [intros [= <- _ _]; lia |].
      apply IH. rewrite <- Ek.
      assert (Hp : set_sinkptr (RingPtr.incrTail (_sinkptr c1) 0) c1 =
                   set_sinkptr (RingPtr.incrTail (_sinkptr c1) 0)
                     (set_pipe (_pipe c1) c1)) by (destruct c1; reflexivity).
      rewrite Hp. apply counter_drain_zero; [exact H1 | reflexivity].
    + intros [= <- <- <-] _ He. exfalso.
      match type of He with
      | _established (if _ then _ else ?x) = true =>
          assert (Hx : _established x = false)
      end.
      { match goal with
        | |- _established (if ?b then _ else _) = false => destruct b
        end.
        - unfold _incrAvailableBytes.
          destruct (t_pipe_write_ok t); destruct c1; exact Ee.
        - destruct c1; exact Ee. }
      rewrite Hx in He. cbn [andb] in He. rewrite Hx in He. discriminate.
Qed.

(** X23. The byte counter stays in step with the sink ring.  When the pipe
    announces what the sink ring holds, it still does after a [readSync]
    that returns a count on an established connection, whatever completions
    arrived meanwhile: the bytes of incoming writes are added to both, the
    bytes handed to the caller are taken off both, and what was not taken is
    put back.  So bytes left in the ring leave the pipe readable, and the
    notifier stays hot. *)
Theorem readSync_keeps_counter (ticks : list Tick) (bytes : Z) (block : bool)
    (c : Conn) (n : Z) (data : list Z) (c' : Conn) :
  counter_ok c -> 0 < bytes < 2 ^ 32 ->
  Forall (fun t => t_pipe_write_ok t = true) ticks ->
  readSync ticks bytes block c = Some (n, data, c') ->
  0 <= n -> _established c' = true ->
  counter_ok c' /\
  (RingPtr.available (_sinkptr c') <> 0 -> _pipe c' <> []).
Proof.
  intros Hc Hb Hq H Hn He.
  assert (Hc' : counter_ok c').
  { unfold readSync in H.
    destruct (negb (State_eqb STATE_CONNECTED (_state c)));
      [injection H as <- _ _; lia |].
    exact (readSync_retry_counter _ _ _ _ _ _ _ _ _ Hb Hq Hc H Hn He). }
  split; [exact Hc' |].
  intros Ha Hp. destruct Hc' as [_ Hs]. unfold bytes_signalled in Hs.
  rewrite Hp in Hs. cbn in Hs. congruence.
Qed.

Lemma readSync_keeps_counter_witness :
  let ticks := [tick_cq [write_wc 5]; tick_idle] in
  let r := readSync ticks 3 true sample_connected in
  let c' := result_conn r sample_connected in
  (counter_ok sample_connected /\ 0 < 3 < 2 ^ 32 /\
   Forall (fun t => t_pipe_write_ok t = true) ticks /\
   r = Some (3, [0x45; 0; 0], c') /\ 0 <= 3 /\ _established c' = true) /\
  counter_ok c' /\ _pipe c' = [2] /\ RingPtr.available (_sinkptr c') = 2.
Proof.
  intros ticks r c'.
  assert (H1 : counter_ok sample_connected)
    by (split; vm_compute; reflexivity).
  assert (H2 : 0 < 3 < 2 ^ 32) by lia.
  assert (H3 : Forall (fun t => t_pipe_write_ok t = true) ticks)
    by (repeat constructor).
  assert (H4 : r = Some (3, [0x45; 0; 0], c'))
    by (apply (result_eq r (3, [0x45; 0; 0])); vm_compute; reflexivity).
  assert (H5 : 0 <= 3) by lia.
  assert (H6 : _established c' = true) by (vm_compute; reflexivity).
  assert (H7 : _pipe c' = [2]) by (vm_compute; reflexivity).
  assert (H8 : RingPtr.available (_sinkptr c') = 2) by (vm_compute; reflexivity).
  pose proof (readSync_keeps_counter ticks 3 true sample_connected 3
                [0x45; 0; 0] c' H1 H2 H3 H4 H5 H6) as W.
  exact (conj (conj H1 (conj H2 (conj H3 (conj H4 (conj H5 H6)))))
           (conj (proj1 W) (conj H7 H8))).
Defined.

(** ** The order of the library calls *)























Lemma trace_log (l : list Call) (c : Conn) : _trace (log l c) = _trace c ++ l.
Proof. destruct c. reflexivity. Qed.



Lemma _postReceives_trace n c c' :
  _postReceives true n c = (true, c') ->
  _trace c' = _trace c ++ [c_ibv_post_recv n] /\ silent_frame c (set_trace (_trace c) c').
Proof.
  unfold _postReceives. intros [= <-]. split; [apply trace_log |].
  destruct c; repeat split.
Qed.










(** ** Progress *)

(** X26. [write] makes progress: on an established connection with write
    credit, free space in the source ring and in the mirror of the peer's
    sink ring, a [write] of at least one byte returns at the first turn, if
    that turn is silent and the post succeeds.  It returns the number of
    bytes it copied, which is positive: the smallest of the bytes asked
    for, the protocol's limit, the free space on either side and the
    distance to the end of the source ring. *)
Theorem write_progress (t : Tick) (rest : list Tick) (buffer : list Z)
    (bytes : Z) (c : Conn) :
  _state c = STATE_CONNECTED -> _established c = true ->
  quiet_tick t -> t_post_send_ok t = true ->
  _wcredits c <> 0 -> 0 < bytes ->
  ring_ok (_sourcebuf c) (_sourceptr c) ->
  0 < RingPtr.negAvailable (_sourceptr c) ->
  0 < RingPtr.negAvailable (_rptr c) ->
  let n := Z.min (Z.min (Z.min bytes MAX_BS)
                    (Z.min (RingPtr.negAvailable (_sourceptr c))
                           (RingPtr.negAvailable (_rptr c))))
             (RingBuffer.size (_sourcebuf c) -
              RingPtr.ptr (_sourceptr c) RingPtr.HEAD) in
  0 < n /\
  exists c' : Conn, write (t :: rest) buffer bytes c = Some (n, c').
Proof.
  intros Hs He Hq Hp Hw Hb (Hmap & Hlen & Hsz & Hav) Hn1 Hn2 n.
  assert (HMAX : MAX_BS = 2 ^ 28 - 1) by reflexivity.
  pose proof (ptr_range (_sourceptr c) RingPtr.HEAD ltac:(lia)) as Hptr.
  assert (Hcp : u32 (Z.min bytes MAX_BS) = Z.min bytes MAX_BS)
    by (apply u32_small; lia).
  assert (Hd : u32 (RingBuffer.size (_sourcebuf c) -
                    RingPtr.ptr (_sourceptr c) RingPtr.HEAD) =
               RingBuffer.size (_sourcebuf c) -
               RingPtr.ptr (_sourceptr c) RingPtr.HEAD)
    by (apply u32_small; lia).
  assert (Hfill : fst (_fill buffer (u32 (Z.min bytes MAX_BS)) c) = n)
    by (rewrite _fill_count, Hcp, Hd; reflexivity).
  assert (Hpos : 0 < n) by (unfold n; lia).
  split; [exact Hpos |].
  unfold write. rewrite Hs. cbn [State_eqb negb write_retry].
  rewrite (quiet_checkDisconnected t c Hq). cbn [negb]. rewrite He.
  cbn [negb]. rewrite (quiet_checkCQ false t c Hq). cbn [negb].
  destruct (0 =? _wcredits c) eqn:E; [apply Z.eqb_eq in E; congruence |].
  destruct (_fill buffer (u32 (Z.min bytes MAX_BS)) c) as [put c3].
  cbn [fst] in Hfill. subst put.
  destruct (0 =? n) eqn:E0; [apply Z.eqb_eq in E0; lia |].
  rewrite Hp.
  destruct (_postRDMAWrite_effect true c3) as (Hok & _).
  destruct (_postRDMAWrite true c3) as [ok c4]. cbn [fst] in Hok. subst ok.
  cbn [negb]. now exists c4.
Qed.

Lemma write_progress_witness :
  let c := sample_connected in
  (_state c = STATE_CONNECTED /\ _established c = true /\
   quiet_tick tick_idle /\ t_post_send_ok tick_idle = true /\
   _wcredits c <> 0 /\ 0 < 3 /\ ring_ok (_sourcebuf c) (_sourceptr c) /\
   0 < RingPtr.negAvailable (_sourceptr c) /\
   0 < RingPtr.negAvailable (_rptr c)) /\
  exists c' : Conn, write [tick_idle] [1; 2; 3] 3 c = Some (3, c').
Proof.
  intros c.
  assert (H1 : _state c = STATE_CONNECTED) by (vm_compute; reflexivity).
  assert (H2 : _established c = true) by (vm_compute; reflexivity).
  assert (H3 : quiet_tick tick_idle) by (repeat split).
  assert (H4 : t_post_send_ok tick_idle = true) by reflexivity.
  assert (H5 : _wcredits c <> 0) by (vm_compute; discriminate).
  assert (H6 : 0 < 3) by lia.
  assert (H7 : ring_ok (_sourcebuf c) (_sourceptr c)).
  { split; [vm_compute; discriminate |].
    split; [vm_compute; reflexivity |].
    split; [vm_compute; split; reflexivity |].
    vm_compute; discriminate. }
  assert (H8 : 0 < RingPtr.negAvailable (_sourceptr c))
    by (vm_compute; reflexivity).
  assert (H9 : 0 < RingPtr.negAvailable (_rptr c)) by (vm_compute; reflexivity).
  pose proof (write_progress tick_idle [] [1; 2; 3] 3 c
                H1 H2 H3 H4 H5 H6 H7 H8 H9) as W.
  cbv zeta in W. destruct W as [_ (c' & W)].
  match type of W with
  | write _ _ _ _ = Some (?n, _) =>
      assert (Hn : n = 3) by (vm_compute; reflexivity); rewrite Hn in W
  end.
  exact (conj (conj H1 (conj H2 (conj H3 (conj H4 (conj H5 (conj H6
            (conj H7 (conj H8 H9)))))))) (ex_intro _ c' W)).
Defined.


(** X27. [readSync] makes progress: when the sink ring holds bytes and the
    pipe announces them, a [readSync] of at least one byte returns at the
    first turn, if that turn is silent and the pipe can be read.  It
    returns the smaller of the bytes asked for and the bytes in the ring,
    hands out the bytes that start at the tail of the sink ring, and moves
    the tail by the count returned. *)
Theorem readSync_progress (t : Tick) (rest : list Tick) (bytes : Z)
    (block : bool) (c : Conn) :
  _state c = STATE_CONNECTED -> quiet_tick t -> t_pipe_read_ok t = true ->
  (_established c = true -> _fcredits c <> 0) ->
  counter_ok c -> 0 < bytes < 2 ^ 32 ->
  0 < RingPtr.available (_sinkptr c) ->
  let n := Z.min bytes (RingPtr.available (_sinkptr c)) in
  0 < n /\
  exists c' : Conn,
    readSync (t :: rest) bytes block c =
      Some (n, RingBuffer.read (_sinkbuf c) (RingPtr.tail (_sinkptr c)) n, c') /\
    _sinkptr c' = RingPtr.incrTail (_sinkptr c) n.
Proof.
  intros Hs Hq Hr Hf (Hfd & Hsum) Hb Ha n.
  assert (Hn : 0 < n) by (unfold n; lia).
  split; [exact Hn |].
  assert (Hu : u32 bytes = bytes) by (apply u32_small; lia).
  assert (Hp : match _pipe c with [] => false | _ => true end = true).
  { unfold bytes_signalled in Hsum. destruct (_pipe c); [| reflexivity].
    cbn in Hsum. change (u32 0) with 0 in Hsum. lia. }
  assert (Hab : u64 (fold_left Z.add (_pipe c) 0) <> 0).
  { intros H0. unfold bytes_signalled in Hsum.
    rewrite <- u32_u64, H0 in Hsum. change (u32 0) with 0 in Hsum. lia. }
  unfold readSync. rewrite Hs. cbn [State_eqb negb readSync_retry].
  rewrite (quiet_readSync_poll_events t c Hq), Hfd, Hp.
  cbn [negb andb BUF_EVENT]. unfold _needFC. rewrite !andb_true_r.
  assert (E1 : _established c && (0 =? _fcredits c) = false).
  { destruct (_established c); [| reflexivity]. cbn [andb].
    apply Z.eqb_neq. intros H0. now apply Hf. }
  rewrite E1, andb_false_r.
  unfold _getAvailableBytes. rewrite Hr.
  destruct (0 =? u64 (fold_left Z.add (_pipe c) 0)) eqn:E2;
    [apply Z.eqb_eq in E2; congruence |].
  unfold _drain.
  assert (Hk : _sinkptr (set_pipe [] c) = _sinkptr c /\
               _sinkbuf (set_pipe [] c) = _sinkbuf c)
    by (destruct c; split; reflexivity).
  destruct Hk as [Hk1 Hk2]. rewrite Hk1, Hk2, Hu. fold n.
  destruct (0 =? n) eqn:E3; [apply Z.eqb_eq in E3; lia |].
  eexists. split; [reflexivity |].
  match goal with
  | |- _sinkptr (if ?e then snd (_postFC ?ok ?m ?x) else ?y) = _ =>
      assert (X : _sinkptr (if e then snd (_postFC ok m x) else y) = _sinkptr y)
        by (destruct e; [apply _sinkptr_postFC | reflexivity]);
      rewrite X; clear X
  end.
  match goal with
  | |- _sinkptr (if ?b then snd (_incrAvailableBytes ?ok ?m ?x) else ?y) = _ =>
      assert (X : _sinkptr (if b then snd (_incrAvailableBytes ok m x) else y)
                  = _sinkptr y)
        by (destruct b; [apply _sinkptr_incrAvailableBytes | reflexivity]);
      rewrite X; clear X
  end.
  destruct c; reflexivity.
Qed.

Lemma readSync_progress_witness :
  let c := sample_received in
  (_state c = STATE_CONNECTED /\ quiet_tick tick_idle /\
   t_pipe_read_ok tick_idle = true /\
   (_established c = true -> _fcredits c <> 0) /\
   counter_ok c /\ 0 < 3 < 2 ^ 32 /\ 0 < RingPtr.available (_sinkptr c)) /\
  exists c' : Conn,
    readSync [tick_idle] 3 true c =
      Some (3, RingBuffer.read (_sinkbuf c) (RingPtr.tail (_sinkptr c)) 3, c') /\
    _sinkptr c' = RingPtr.incrTail (_sinkptr c) 3.
Proof.
  intros c.
  assert (H1 : _state c = STATE_CONNECTED) by (vm_compute; reflexivity).
  assert (H2 : quiet_tick tick_idle) by (repeat split).
  assert (H3 : t_pipe_read_ok tick_idle = true) by reflexivity.
  assert (H4 : _established c = true -> _fcredits c <> 0)
    by (intros _; vm_compute; discriminate).
  assert (H5 : counter_ok c) by (split; vm_compute; reflexivity).
  assert (H6 : 0 < 3 < 2 ^ 32) by lia.
  assert (H7 : 0 < RingPtr.available (_sinkptr c)) by (vm_compute; reflexivity).
  pose proof (readSync_progress tick_idle [] 3 true c H1 H2 H3 H4 H5 H6 H7)
    as W.
  cbv zeta in W. destruct W as [_ W].
  assert (Hn : Z.min 3 (RingPtr.available (_sinkptr c)) = 3)
    by (vm_compute; reflexivity).
  rewrite Hn in W.
  exact (conj (conj H1 (conj H2 (conj H3 (conj H4 (conj H5 (conj H6 H7))))))
           W).
Defined.

(** X28. Connection manager events on a connected side.  The only event
    the data path accepts is DISCONNECTED.  When the connection manager
    delivers any other event, or the event cannot be fetched, [readSync]
    closes the connection and returns -1 and [write] returns -1, both
    without touching anything else.  When it delivers DISCONNECTED,
    [write] returns -1 at once, the connection no longer established. *)
Theorem cm_event_on_data_path (t : Tick) (ticks : list Tick) (c : Conn) :
  _state c = STATE_CONNECTED -> t_epoll_ok t = true ->
  _cm c = true -> t_cm_ready t = true ->
  ((forall d, t_cm_event t <> Some (mkCmEvent RDMA_CM_EVENT_DISCONNECTED d)) ->
   (forall (bytes : Z) (block : bool),
       readSync (t :: ticks) bytes block c = Some (-1, [], close c)) /\
   (forall (buffer : list Z) (bytes : Z),
       write (t :: ticks) buffer bytes c = Some (-1, c))) /\
  (forall d, t_cm_event t = Some (mkCmEvent RDMA_CM_EVENT_DISCONNECTED d) ->
   forall (buffer : list Z) (bytes : Z),
     write (t :: ticks) buffer bytes c = Some (-1, set_established false c)).
Proof.
  intros Hs He Hcm Hr.
  assert (Hst : State_eqb STATE_CONNECTED (_state c) = true)
    by (rewrite Hs; reflexivity).
  assert (Hev : _checkEvents t c =
                Some (mkEvents
                        (_pipe_fd c &&
                         match _pipe c with [] => false | _ => true end)
                        (_cc c && t_cq_ready t) true)).
  { unfold _checkEvents. rewrite He, Hcm, Hr. reflexivity. }
  split.
  - intros Hne.
    assert (Hd : _doCMEvent RDMA_CM_EVENT_DISCONNECTED (t_cm_event t) c
                 = (false, c)).
    { unfold _doCMEvent. destruct (t_cm_event t) as [[ty d] |]; [| reflexivity].
      destruct ty; try reflexivity. exfalso. now apply (Hne d). }
    assert (Hcd : _checkDisconnected t c =
                  (false,
                   mkEvents
                     (_pipe_fd c &&
                      match _pipe c with [] => false | _ => true end)
                     (_cc c && t_cq_ready t) true, c)).
    { unfold _checkDisconnected. rewrite Hev. cbn [CM_EVENT]. now rewrite Hd. }
    split.
    + intros bytes block. unfold readSync. rewrite Hst.
      cbn [negb readSync_retry]. unfold readSync_poll. rewrite Hcd.
      reflexivity.
    + intros buffer bytes. unfold write. rewrite Hst.
      cbn [negb write_retry]. rewrite Hcd. reflexivity.
  - intros d Hd buffer bytes. unfold write. rewrite Hst.
    cbn [negb write_retry]. unfold _checkDisconnected. rewrite Hev.
    cbn [CM_EVENT]. rewrite Hd. unfold _doCMEvent.
    cbn [event cm_type_eqb andb negb].
    assert (X : _established (set_established false c) = false)
      by (destruct c; reflexivity).
    rewrite X. reflexivity.
Qed.

Lemma cm_event_on_data_path_witness :
  let c := sample_connected in
  (_state c = STATE_CONNECTED /\ t_epoll_ok tick_rejected = true /\
   _cm c = true /\ t_cm_ready tick_rejected = true /\
   forall d, t_cm_event tick_rejected <>
             Some (mkCmEvent RDMA_CM_EVENT_DISCONNECTED d)) /\
  readSync [tick_rejected] 3 true c = Some (-1, [], close c) /\
  write [tick_rejected] [1; 2; 3] 3 c = Some (-1, c).
Proof.
  intros c.
  assert (H1 : _state c = STATE_CONNECTED) by (vm_compute; reflexivity).
  assert (H2 : t_epoll_ok tick_rejected = true) by reflexivity.
  assert (H3 : _cm c = true) by (vm_compute; reflexivity).
  assert (H4 : t_cm_ready tick_rejected = true) by reflexivity.
  assert (H5 : forall d, t_cm_event tick_rejected <>
                         Some (mkCmEvent RDMA_CM_EVENT_DISCONNECTED d))
    by (intros d; discriminate).
  pose proof (proj1 (cm_event_on_data_path tick_rejected [] c H1 H2 H3 H4) H5)
    as W.
  exact (conj (conj H1 (conj H2 (conj H3 (conj H4 H5))))
           (conj (proj1 W 3 true) (proj2 W [1; 2; 3] 3))).
Defined.

Lemma page_of_apart (sz a b : Z) :
  0 <= a -> a < b -> b < 2 * sz -> b - a < sz ->
  RingBuffer.page_of sz a <> RingBuffer.page_of sz b.
Proof.
  intros H1 H2 H3 H4. unfold RingBuffer.page_of.
  destruct (a <? sz) eqn:Ea, (b <? sz) eqn:Eb;
    rewrite ?Z.ltb_lt, ?Z.ltb_ge in *; lia.
Qed.

Lemma write_pages_other (sz : Z) (src : list Z) (m : Z -> Z) (off j : Z) :
  (forall i, 0 <= i < Z.of_nat (List.length src) ->
             RingBuffer.page_of sz (off + i) <> j) ->
  RingBuffer.write_pages sz m off src j = m j.
Proof.
  revert m off. induction src as [| x r IH]; intros m off H; [reflexivity |].
  cbn [RingBuffer.write_pages]. rewrite IH.
  - unfold RingBuffer.store.
    destruct (j =? RingBuffer.page_of sz off) eqn:E; [| reflexivity].
    apply Z.eqb_eq in E. exfalso. apply (H 0).
    + cbn [List.length]. lia.
    + now rewrite Z.add_0_r.
  - intros i Hi. replace (off + 1 + i) with (off + (i + 1)) by lia.
    apply H. cbn [List.length]. lia.
Qed.

Lemma write_pages_nth (sz : Z) (src : list Z) (m : Z -> Z) (off : Z) (i : nat) :
  0 <= off -> off + Z.of_nat (List.length src) <= 2 * sz ->
  Z.of_nat (List.length src) <= sz -> (i < List.length src)%nat ->
  RingBuffer.write_pages sz m off src (RingBuffer.page_of sz (off + Z.of_nat i)) =
    nth i src 0.
Proof.
  revert m off i. induction src as [| x r IH]; intros m off i H0 H1 H2 Hi;
    [cbn in Hi; lia |].
  cbn [RingBuffer.write_pages List.length] in *.
  destruct i as [| i].
  - cbn [nth]. rewrite Z.add_0_r. rewrite write_pages_other.
    + unfold RingBuffer.store. now rewrite Z.eqb_refl.
    + intros k Hk Heq. symmetry in Heq. revert Heq.
      apply page_of_apart; lia.
  - cbn [nth]. replace (off + Z.of_nat (S i)) with (off + 1 + Z.of_nat i) by lia.
    apply IH; lia.
Qed.

Lemma nth_map_seq {A : Type} (f : nat -> A) (n i : nat) (d : A) :
  (i < n)%nat -> nth i (List.map f (seq 0 n)) d = f i.
Proof.
  intros Hi.
  rewrite (nth_indep _ d (f 0%nat)) by (now rewrite length_map, length_seq).
  rewrite map_nth, seq_nth by exact Hi. reflexivity.
Qed.

(** X29. What is written into a ring is read back from it, also across
    the end of the buffer: a copy of at most [size] bytes to an offset of
    the first view, which may run into the second view, followed by a copy
    out of the same length from the same offset returns the bytes written;
    and the two views of the buffer show the same bytes afterwards. *)
Theorem ring_write_read (b : RingBuffer.t) (off : Z) (src : list Z) :
  RingBuffer.map b <> None ->
  0 <= off < RingBuffer.size b ->
  Z.of_nat (List.length src) <= RingBuffer.size b ->
  RingBuffer.read (RingBuffer.write b off src) off
    (Z.of_nat (List.length src)) = src /\
  forall v : Z, 0 <= v < RingBuffer.size b ->
    RingBuffer.virt (RingBuffer.write b off src) (v + RingBuffer.size b) =
    RingBuffer.virt (RingBuffer.write b off src) v.
Proof.
  intros Hm Ho Hl. split.
  - unfold RingBuffer.read. rewrite Nat2Z.id.
    apply nth_ext with (d := 0) (d' := 0).
    + now rewrite length_map, length_seq.
    + intros i Hi. rewrite length_map, length_seq in Hi.
      rewrite nth_map_seq by exact Hi.
      unfold RingBuffer.virt, RingBuffer.pages, RingBuffer.write.
      cbn [RingBuffer.size RingBuffer.map].
      destruct (RingBuffer.map b) as [m |]; [| contradiction].
      apply write_pages_nth; lia.
  - intros v Hv. unfold RingBuffer.virt, RingBuffer.write.
    cbn [RingBuffer.size]. f_equal. unfold RingBuffer.page_of.
    destruct (v + RingBuffer.size b <? RingBuffer.size b) eqn:E1;
      [apply Z.ltb_lt in E1; lia |].
    destruct (v <? RingBuffer.size b) eqn:E2;
      [lia | apply Z.ltb_ge in E2; lia].
Qed.

Lemma ring_write_read_witness :
  let b := _sinkbuf small_rings in
  (RingBuffer.map b <> None /\ 0 <= 6 < RingBuffer.size b /\
   Z.of_nat (List.length [21; 22; 23; 24]) <= RingBuffer.size b) /\
  RingBuffer.read (RingBuffer.write b 6 [21; 22; 23; 24]) 6 4 =
    [21; 22; 23; 24] /\
  RingBuffer.read (RingBuffer.write b 6 [21; 22; 23; 24]) 0 2 = [23; 24].
Proof.
  intros b.
  assert (H1 : RingBuffer.map b <> None) by (vm_compute; discriminate).
  assert (H2 : 0 <= 6 < RingBuffer.size b)
    by (vm_compute; split; [discriminate | reflexivity]).
  assert (H3 : Z.of_nat (List.length [21; 22; 23; 24]) <= RingBuffer.size b)
    by (vm_compute; discriminate).
  pose proof (ring_write_read b 6 [21; 22; 23; 24] H1 H2 H3) as W.
  exact (conj (conj H1 (conj H2 H3)) (conj (proj1 W) eq_refl)).
Defined.

Ltac kept_side :=
  let x := fresh "x" in
  first
    [ solve [ intros; repeat split ]
    | solve [ intros ? x; destruct x; repeat split ]
    | solve [ unfold kept; intros ? ? ? H1 H2;
              decompose [and] H1; decompose [and] H2;
              repeat split; congruence ] ].

Lemma kept_trans a b c : kept a b -> kept b c -> kept a c.
Proof. revert a b c. kept_side. Qed.

Lemma kept_resolveAddress e c r c' :
  _resolveAddress e c = Some (r, c') -> kept c c'.
Proof. apply S_resolveAddress; kept_side. Qed.

Lemma kept_initProtocol d c : kept c (snd (_initProtocol d c)).
Proof. apply S_initProtocol; kept_side. Qed.

Lemma kept_createBytesAvailableFD e c :
  kept c (snd (_createBytesAvailableFD e c)).
Proof. apply S_createBytesAvailableFD; kept_side. Qed.

Lemma kept_resolveRoute e c r c' :
  _resolveRoute e c = Some (r, c') -> kept c c'.
Proof. apply S_resolveRoute; kept_side. Qed.

Lemma kept_postReceives ok n c : kept c (snd (_postReceives ok n c)).
Proof. apply S_postReceives; kept_side. Qed.

Lemma kept_connect e c r c' : _connect e c = Some (r, c') -> kept c c'.
Proof. apply S_connect; kept_side. Qed.

Lemma kept_postSetup ok b k c : kept c (snd (_postSetup ok b k c)).
Proof. apply S_postSetup; kept_side. Qed.

Lemma kept_waitRecvSetup ticks c r c' :
  _waitRecvSetup ticks c = Some (r, c') -> kept c c'.
Proof. apply S_waitRecvSetup; kept_side. Qed.

Lemma kept_setState s c : kept c (setState s c).
Proof. unfold setState. destruct (State_eqb _ _); destruct c; repeat split. Qed.

Lemma handles_kept_initBuffers e c : handles_kept c (snd (_initBuffers e c)).
Proof.
  apply S_initBuffers;
    first
      [ solve [ intros; repeat split ]
      | solve [ intros ? x; destruct x; repeat split ]
      | solve [ unfold handles_kept; intros ? ? ? H1 H2;
                decompose [and] H1; decompose [and] H2;
                repeat split; congruence ] ].
Qed.

Lemma _initBuffers_held (e : Env) (c c' : Conn) :
  _initBuffers e c = (true, c') -> u32 (_depth c * 2) <> 0 ->
  RingBuffer.mr (_sourcebuf c') = true /\ RingBuffer.map (_sourcebuf c') <> None /\
  RingBuffer.mr (_sinkbuf c') = true /\ RingBuffer.map (_sinkbuf c') <> None /\
  BufferPool.mr (_msgbuf c') = true /\ BufferPool.buffer (_msgbuf c') = true.
Proof.
  intros H Hd. unfold _initBuffers in H.
  set (rbs := u64 (1024 * 1024 * IATTR_RDMA_RING_BUFFER_SIZE_MB e)) in *.
  destruct (rbs =? 0) eqn:E0; [discriminate |]. apply Z.eqb_neq in E0.
  pose proof (ring_resize_true (e_source_resize e) (_sourcebuf c) rbs E0) as R1.
  destruct (RingBuffer.resize (e_source_resize e) (_sourcebuf c) rbs)
    as [[ok1 b1] l1]. cbn [fst snd] in R1.
  destruct ok1; cbn [negb] in H; [| discriminate].
  destruct (R1 eq_refl) as (_ & M1 & P1). clear R1.
  set (c1 := log l1 (set_sourcebuf b1 c)) in *.
  assert (Hk : _sinkbuf c1 = _sinkbuf c) by (destruct c; reflexivity).
  rewrite Hk in H.
  pose proof (ring_resize_true (e_sink_resize e) (_sinkbuf c) rbs E0) as R2.
  destruct (RingBuffer.resize (e_sink_resize e) (_sinkbuf c) rbs)
    as [[ok2 b2] l2]. cbn [fst snd] in R2.
  destruct ok2; cbn [negb] in H; [| discriminate].
  destruct (R2 eq_refl) as (_ & M2 & P2). clear R2.
  set (c2 := log l2 (set_sinkbuf b2 c1)) in *.
  assert (Hs2 : _sourcebuf c2 = b1) by (destruct c; reflexivity).
  assert (Hk2 : _sinkbuf c2 = b2) by (destruct c; reflexivity).
  assert (Hd2 : _depth c2 = _depth c) by (destruct c; reflexivity).
  assert (Hm2 : _msgbuf c2 = _msgbuf c) by (destruct c; reflexivity).
  clearbody c2. rewrite Hs2 in H.
  set (c3 := set_sourceptr (RingPtr.clear (RingBuffer.size b1)) c2) in *.
  assert (Hk3 : _sinkbuf c3 = b2) by (rewrite <- Hk2; destruct c2; reflexivity).
  rewrite Hk3 in H.
  set (c4 := set_sinkptr (RingPtr.clear (RingBuffer.size b2)) c3) in *.
  assert (H4 : _sourcebuf c4 = b1 /\ _sinkbuf c4 = b2 /\
               _depth c4 = _depth c /\ _msgbuf c4 = _msgbuf c).
  { rewrite <- Hs2, <- Hk2, <- Hd2, <- Hm2. subst c4 c3.
    destruct c2; repeat split. }
  destruct H4 as (A1 & A2 & A5 & A6). clearbody c4.
  rewrite A5, A6 in H.
  pose proof (pool_resize_true (e_msg_resize e) (_msgbuf c)
                (u32 (_depth c * 2))) as R3.
  destruct (BufferPool.resize (e_msg_resize e) (_msgbuf c)
              (u32 (_depth c * 2))) as [[ok3 p3] l3]. cbn [fst snd] in R3.
  injection H as -> <-.
  destruct (R3 eq_refl) as (_ & N3). destruct (N3 Hd) as [N4 N5].
  assert (F : _sourcebuf (log l3 (set_msgbuf p3 c4)) = _sourcebuf c4 /\
              _sinkbuf (log l3 (set_msgbuf p3 c4)) = _sinkbuf c4 /\
              _msgbuf (log l3 (set_msgbuf p3 c4)) = p3)
    by (destruct c4; repeat split).
  destruct F as (F1 & F2 & F6).
  rewrite F1, F2, F6, A1, A2. repeat split; assumption.
Qed.

Lemma front_steps_held (e : Env) (c0 c1 c2 c3 c4 : Conn) :
  (let '(ok, x) := _lookupAddress e c0 in Some (ok && _rai x, x)) =
    Some (true, c1) ->
  _createNotifier e c1 = (true, c2) ->
  _createEventChannel e c2 = (true, c3) ->
  _createId e c3 = (true, c4) ->
  (_rai c4 = true /\ _cm c4 = true /\ _cm_id c4 = true /\ _notifier c4 = true) /\
  _cc c4 = _cc c0 /\ _cq c4 = _cq c0 /\ _pd c4 = _pd c0 /\ _wcs c4 = _wcs c0 /\
  _completions c4 = _completions c0 /\
  _sourcebuf c4 = _sourcebuf c0 /\ _sinkbuf c4 = _sinkbuf c0 /\
  _msgbuf c4 = _msgbuf c0.
Proof.
  unfold _lookupAddress, _createNotifier, _createEventChannel, _createId.
  destruct (e_hostname_empty e), (e_getaddrinfo_ok e), (e_epoll_create_ok e),
    (e_create_event_channel_ok e), (e_cm_epoll_ctl_ok e), (e_create_id_ok e);
    cbn [negb andb]; try discriminate;
    intros H1 H2 H3 H4;
    injection H1; injection H2; injection H3; injection H4; intros;
    subst c4 c3 c2 c1;
    destruct c0; cbn in *; try discriminate; repeat split; assumption.
Qed.

Lemma _initVerbs_held (e : Env) (c c' : Conn) :
  _initVerbs e c = (true, c') ->
  (_cc c' = true /\ _cq c' = true /\ _pd c' = true /\ _wcs c' = true) /\
  _rai c' = _rai c /\ _cm c' = _cm c /\ _cm_id c' = _cm_id c /\
  _notifier c' = _notifier c /\ _completions c' = _completions c /\
  _sourcebuf c' = _sourcebuf c /\ _sinkbuf c' = _sinkbuf c /\
  _msgbuf c' = _msgbuf c.
Proof.
  unfold _initVerbs.
  destruct (e_alloc_pd_ok e), (e_create_comp_channel_ok e),
    (e_cc_epoll_ctl_ok e), (e_create_cq_ok e), (e_req_notify_ok e);
    cbn [negb]; try discriminate.
  intros [= <-]. destruct c; repeat split.
Qed.

Lemma cleanup_trace_held (c : Conn) :
  all_held c ->
  _trace (_cleanup c) = _trace c ++ tl teardown_calls.
Proof.
  intros ((H1 & H2 & H3 & H4) & (H5 & H6 & H7 & H8 & H9) &
          (B1 & B2 & B3 & B4 & B5 & B6)).
  destruct c. cbn [_rai _cm _cm_id _notifier _cc _cq _pd _wcs _completions
                   _sourcebuf _sinkbuf _msgbuf] in *.
  destruct _sourcebuf0 as [a1 s1 m1 r1], _sinkbuf0 as [a2 s2 m2 r2],
    _msgbuf0 as [bs nb bf mr].
  cbn [RingBuffer.mr RingBuffer.map BufferPool.mr BufferPool.buffer] in *.
  destruct m1 as [m1 |]; [| contradiction].
  destruct m2 as [m2 |]; [| contradiction].
  subst. unfold _cleanup.
  cbv -[app Z.ltb]. rewrite H9.
  repeat rewrite <- app_assoc. reflexivity.
Qed.

Lemma all_held_kept (c c' : Conn) : kept c c' -> all_held c -> all_held c'.
Proof.
  intros K H. unfold kept in K. unfold all_held in *.
  decompose [and] K. decompose [and] H.
  repeat match goal with H : _ ?x = _ ?y |- _ => rewrite H end.
  repeat split; assumption.
Qed.

Lemma close_trace_held (c : Conn) :
  _state c = STATE_CONNECTED -> _established c = true -> all_held c ->
  _trace (close c) = _trace c ++ teardown_calls.
Proof.
  intros Hs He Hh. unfold close, _close. rewrite Hs. cbn [State_eqb].
  set (c1 := setState STATE_CLOSING c).
  assert (K1 : kept c c1) by apply kept_setState.
  destruct (setState_other STATE_CLOSING c) as (E1 & _ & _ & _ & T1).
  fold c1 in E1, T1. rewrite E1, He.
  set (c2 := log [c_rdma_disconnect] c1).
  assert (K2 : kept c1 c2 /\ _trace c2 = _trace c1 ++ [c_rdma_disconnect])
    by (unfold c2; destruct c1; repeat split).
  destruct K2 as [K2 T2].
  set (c3 := setState STATE_CLOSED c2).
  assert (K3 : kept c2 c3) by apply kept_setState.
  destruct (setState_other STATE_CLOSED c2) as (_ & _ & _ & _ & T3).
  fold c3 in T3.
  assert (H3 : all_held c3).
  { eapply all_held_kept; [exact K3 |].
    eapply all_held_kept; [exact K2 |].
    eapply all_held_kept; [exact K1 | exact Hh]. }
  clearbody c3. rewrite (cleanup_trace_held c3 H3), T3, T2, T1.
  rewrite <- app_assoc. reflexivity.
Qed.

Lemma connect_all_held (e : Env) (c c' : Conn) :
  IATTR_RDMA_SEND_QUEUE_DEPTH e < 2 ^ 31 ->
  connect e c = Some (true, c') ->
  _state c' = STATE_CONNECTED /\ _established c' = true /\ all_held c'.
Proof.
  intros Hdepth H.
  assert (Hse : _state c' = STATE_CONNECTED /\ _established c' = true).
  { unfold connect in H.
    destruct (negb (State_eqb STATE_CLOSED (_state c))); [discriminate |].
    destruct (0 =? _port c); [discriminate |].
    destruct (connect_steps e _) as [[[|] c2] |] eqn:E; try discriminate.
    injection H as <-. unfold connect_steps in E.
    apply and_then_true_inv in E. destruct E as (c1 & _ & E).
    apply and_then_true_inv in E. destruct E as (c1' & _ & E).
    apply and_then_true_inv in E. destruct E as (c3 & _ & E).
    apply and_then_true_inv in E. destruct E as (c4 & Hw & E).
    injection E as <-.
    pose proof (_waitRecvSetup_true _ _ _ Hw) as [Hest _].
    destruct (setState_other STATE_CONNECTED c4) as (He & _).
    rewrite He, setState_state. split; [reflexivity | exact Hest]. }
  destruct Hse as [Hs He]. split; [exact Hs |]. split; [exact He |].
  unfold connect in H.
  destruct (negb (State_eqb STATE_CLOSED (_state c))); [discriminate |].
  destruct (0 =? _port c); [discriminate |].
  destruct (connect_steps e _) as [[[|] c2] |] eqn:E; try discriminate.
  injection H as <-. unfold connect_steps in E.
  apply and_then_true_inv in E. destruct E as (c1 & Hsetup & E).
  apply and_then_true_inv in E. destruct E as (c1' & Hpm & E).
  injection Hpm as _ <-.
  apply and_then_true_inv in E. destruct E as (c3 & Hps & E).
  apply lift_inv in Hps. destruct Hps as [_ ->].
  apply and_then_true_inv in E. destruct E as (c4 & Hw & E).
  injection E as <-.
  apply kept_waitRecvSetup in Hw.
  pose proof (kept_postSetup (e_post_setup_ok e) (e_sink_base e)
                (e_sink_rkey e) c1) as Kps.
  pose proof (kept_setState STATE_CONNECTED c4) as Kst.
  eapply all_held_kept; [exact Kst |].
  eapply all_held_kept; [exact Hw |].
  eapply all_held_kept; [exact Kps |].
  clear Kst Hw Kps Hs He.
  set (c0 := setState STATE_CONNECTING (_cleanup c)) in *.
  assert (H0 : (0 <? _completions c0) = false).
  { destruct (kept_setState STATE_CONNECTING (_cleanup c))
      as (_ & _ & _ & _ & _ & _ & _ & _ & Hc & _).
    fold c0 in Hc. rewrite Hc. destruct c. cbn -[Z.ltb].
    destruct (0 <? _completions0) eqn:E; [reflexivity | exact E]. }
  clearbody c0.
  unfold connect_setup in Hsetup.
  apply and_then_true_inv in Hsetup. destruct Hsetup as (x1 & S1 & Hsetup).
  apply and_then_true_inv in Hsetup. destruct Hsetup as (x2 & S2 & Hsetup).
  apply and_then_true_inv in Hsetup. destruct Hsetup as (x3 & S3 & Hsetup).
  apply and_then_true_inv in Hsetup. destruct Hsetup as (x4 & S4 & Hsetup).
  apply and_then_true_inv in Hsetup. destruct Hsetup as (x5 & S5 & Hsetup).
  apply and_then_true_inv in Hsetup. destruct Hsetup as (x6 & S6 & Hsetup).
  apply and_then_true_inv in Hsetup. destruct Hsetup as (x7 & S7 & Hsetup).
  apply and_then_true_inv in Hsetup. destruct Hsetup as (x8 & S8 & Hsetup).
  apply and_then_true_inv in Hsetup. destruct Hsetup as (x9 & S9 & Hsetup).
  apply and_then_true_inv in Hsetup. destruct Hsetup as (x10 & S10 & Hsetup).
  apply and_then_true_inv in Hsetup. destruct Hsetup as (x11 & S11 & Hsetup).
  apply and_then_true_inv in Hsetup. destruct Hsetup as (x12 & S12 & S13).
  unfold lift in S2, S3, S4, S6, S7, S8, S9, S10.
  cbv beta in S1, S12.
  injection S2 as S2. injection S3 as S3. injection S4 as S4.
  injection S6 as S6. injection S7 as S7.
  injection S9 as S9. injection S10 as S10. injection S12 as S12.
  destruct (front_steps_held e c0 x1 x2 x3 x4 S1 S2 S3 S4)
    as ((A1 & A2 & A3 & A4) & A5 & A6 & A7 & A8 & A9 & A10 & A11 & A12).
  apply kept_resolveAddress in S5.
  pose proof (kept_initProtocol (IATTR_RDMA_SEND_QUEUE_DEPTH e) x5) as K6.
  pose proof (_initProtocol_true (IATTR_RDMA_SEND_QUEUE_DEPTH e) x5) as D6.
  rewrite S6 in K6, D6. cbn [fst snd] in K6, D6.
  destruct (D6 eq_refl) as [Hd2 Hd6]. clear D6.
  destruct (_initVerbs_held e x6 x7 S7)
    as ((V1 & V2 & V3 & V4) & V5 & V6 & V7 & V8 & V9 & V10 & V11 & V12).
  unfold _createQP in S8. injection S8 as _ <-.
  pose proof (kept_createBytesAvailableFD e x7) as K9.
  pose proof (_depth_createBytesAvailableFD e x7) as D9.
  rewrite S9 in K9, D9. cbn [snd] in K9, D9.
  pose proof (handles_kept_initBuffers e x9) as K10.
  rewrite S10 in K10. cbn [snd] in K10.
  assert (Hu : u32 (_depth x9 * 2) <> 0).
  { pose proof (_depth_initVerbs e x6) as D7.
    rewrite S7 in D7. cbn [snd] in D7.
    rewrite D9, D7, Hd6. rewrite u32_small; lia. }
  destruct (_initBuffers_held e x9 x10 S10 Hu) as (M1 & M2 & M3 & M4 & M5 & M6).
  apply kept_resolveRoute in S11.
  pose proof (kept_postReceives (e_post_recv_ok e) (u32 (_depth x11)) x11)
    as K12.
  rewrite S12 in K12. cbn [snd] in K12.
  apply kept_connect in S13.
  eapply all_held_kept; [exact S13 |].
  eapply all_held_kept; [exact K12 |].
  eapply all_held_kept; [exact S11 |].
  unfold kept in S5, K6, K9. unfold handles_kept in K10.
  decompose [and] S5. decompose [and] K6. decompose [and] K9.
  decompose [and] K10.
  unfold all_held.
  repeat split; try assumption; congruence.
Qed.

(** X30. The order of the teardown.  Closing a connection that [connect]
    set up makes exactly these library calls, in this order:
    [rdma_disconnect]; for the source ring, the sink ring and the message
    pool, the memory region is deregistered before the memory is unmapped
    or freed; then the completion array, the endpoint, the completion
    queue, the completion channel, the protection domain, the event
    channel and the address info are given back, and the notifier is
    closed last.  No completion event is acknowledged, since the handshake
    takes none from the channel. *)
Theorem close_call_order (e : Env) (c c' : Conn) :
  IATTR_RDMA_SEND_QUEUE_DEPTH e < 2 ^ 31 ->
  connect e c = Some (true, c') ->
  _trace (close c') = _trace c' ++ teardown_calls.
Proof.
  intros Hd H. destruct (connect_all_held e c c' Hd H) as (Hs & He & Hh).
  exact (close_trace_held c' Hs He Hh).
Qed.

Lemma close_call_order_witness :
  IATTR_RDMA_SEND_QUEUE_DEPTH (sample_env (Some (mkCpd 0xC0 0x03 16))) < 2 ^ 31 /\
  _trace (close sample_connected) = _trace sample_connected ++ teardown_calls.
Proof.
  assert (H1 : IATTR_RDMA_SEND_QUEUE_DEPTH
                 (sample_env (Some (mkCpd 0xC0 0x03 16))) < 2 ^ 31)
    by (vm_compute; reflexivity).
  assert (H2 : connect (sample_env (Some (mkCpd 0xC0 0x03 16))) sample_conn =
               Some (true, sample_connected))
    by (apply result_eq; vm_compute; reflexivity).
  exact (conj H1 (close_call_order _ sample_conn sample_connected H1 H2)).
Defined.
